(** * tokenring-ai/sqlite-storage: SQLite-backed chat, checkpoint and
      command-history stores

    A shallow embedding of the storage classes of the package
    (SQLiteChatHistoryStorage, SQLiteChatMessageStorage,
    SQLiteChatCheckpointStorage, SQLiteAgentStateStorage and
    SQLiteCLIHistoryStorage) together with the part of the SQLite engine
    and of the JavaScript runtime their statements exercise.

    Conventions.
    - A table is the list of its rows in rowid order.
    - A JavaScript string is a [string]; one [ascii] stands for one code
      unit, so the development covers the code units 0..255.
    - A method that can throw returns a [completion]; a method whose SQL
      statement may run forever takes a step budget and returns [None]
      when the budget is used up before the statement finishes. *)

From Stdlib Require Import ZArith List String Ascii Bool Lia.
From Stdlib Require Import DecimalString DecimalZ.
From Stdlib Require Import Sorted Permutation.
Import ListNotations.

Set Warnings "-register-all".
Local Open Scope string_scope.
Local Open Scope list_scope.
Local Open Scope Z_scope.

(* ================================================================== *)
(** ** The JavaScript runtime *)
(* ================================================================== *)

Module JS.

(** What a [throw] carries.  [Error] is [new Error(message)];
    [DriverError] is an error object raised by the SQLite driver, of
    which the code only ever inspects [.code]. *)
Inductive exn : Type :=
| Error (message : string)
| TypeError (message : string)
| SyntaxError
| DriverError (code : string).

(** Normal or abrupt completion of a call. *)
Inductive completion (A : Type) : Type :=
| Return (a : A)
| Throw (e : exn).
Arguments Return {A} a.
Arguments Throw {A} e.

Definition bind {A B} (c : completion A) (k : A -> completion B)
  : completion B :=
  match c with
  | Return a => k a
  | Throw e => Throw e
  end.

(** JSON-serialisable values ([undefined] and functions are not). *)
Inductive JSON : Type :=
| JNull
| JBool (b : bool)
| JNumber (z : Z)
| JString (s : string)
| JArray (items : list JSON)
| JObject (fields : list (string * JSON)).

(** [o.key] on a parsed value: [None] is [undefined]. *)
Fixpoint lookup (key : string) (fields : list (string * JSON))
  : option JSON :=
  match fields with
  | [] => None
  | (k, v) :: rest => if String.eqb k key then Some v else lookup key rest
  end.

Definition get_field (key : string) (v : JSON) : option JSON :=
  match v with
  | JObject fields => lookup key fields
  | _ => None
  end.

(** White space and line terminators of ECMAScript among the code
    units 0..255: TAB, LF, VT, FF, CR, SP and NBSP.  [\s] in a regular
    expression and [String.prototype.trim] use the same set. *)
Definition is_line_terminator (c : ascii) : bool :=
  let n := nat_of_ascii c in
  (Nat.eqb n 10 || Nat.eqb n 13)%bool.

Definition is_whitespace (c : ascii) : bool :=
  let n := nat_of_ascii c in
  ((Nat.leb 9 n && Nat.leb n 13) || Nat.eqb n 32 || Nat.eqb n 160)%bool.

(** [Number.prototype.toString] on an integer: decimal digits with a
    leading minus sign for negatives. *)
Definition toString (z : Z) : string :=
  NilZero.string_of_int (Z.to_int z).

(** [parseInt(s)]: leading white space is skipped, an optional sign
    is read, then the longest run of decimal digits; [None] is [NaN].
    (A [0x] prefix selects radix 16.) *)
Definition digit_value (radix : Z) (c : ascii) : option Z :=
  let n := Z.of_nat (nat_of_ascii c) in
  let d :=
    if (48 <=? n) && (n <=? 57) then Some (n - 48)
    else if (97 <=? n) && (n <=? 122) then Some (n - 87)
    else if (65 <=? n) && (n <=? 90) then Some (n - 55)
    else None in
  match d with
  | Some v => if v <? radix then Some v else None
  | None => None
  end.

Fixpoint read_digits (radix : Z) (s : list ascii) (acc : option Z)
  : option Z :=
  match s with
  | [] => acc
  | c :: rest =>
      match digit_value radix c with
      | Some d =>
          read_digits radix rest
            (Some (match acc with Some a => a * radix + d | None => d end))
      | None => acc
      end
  end.

Fixpoint skip_whitespace (s : list ascii) : list ascii :=
  match s with
  | c :: rest => if is_whitespace c then skip_whitespace rest else s
  | [] => []
  end.

Definition parse_magnitude (s : list ascii) : option Z :=
  match s with
  | "0"%char :: x :: rest =>
      if (Ascii.eqb x "x" || Ascii.eqb x "X")%bool
      then read_digits 16 rest None
      else read_digits 10 s None
  | _ => read_digits 10 s None
  end.

Definition parseInt (s : string) : option Z :=
  match skip_whitespace (list_ascii_of_string s) with
  | "-"%char :: rest => option_map Z.opp (parse_magnitude rest)
  | "+"%char :: rest => parse_magnitude rest
  | rest => parse_magnitude rest
  end.

(** [Array.prototype.slice(start)] with one argument. *)
Definition slice {A} (start : Z) (l : list A) : list A :=
  let len := Z.of_nat (List.length l) in
  let from := if start <? 0 then Z.max (len + start) 0
              else Z.min start len in
  skipn (Z.to_nat from) l.

End JS.

(* ================================================================== *)
(** ** The services of the host the package relies on *)
(* ================================================================== *)

(** Three conversions belong to the JavaScript engine and to SQLite, not
    to the package: [JSON.stringify], [JSON.parse] ([None] is the
    [SyntaxError] it throws), and the conversion SQLite applies to a TEXT
    operand that meets an INTEGER column ([None]: the text does not read
    as an integer and stays TEXT).  The model is parametric in them;
    [Model.host] below is a concrete instance. *)
Class Host : Type := {
  JSON_stringify : JS.JSON -> string;
  JSON_parse : string -> option JS.JSON;
  text_to_integer : string -> option Z
}.

(* ================================================================== *)
(** ** SQLite values and the schema of db.sql *)
(* ================================================================== *)

Module Sqlite.

(** Storage classes the statements of the package meet. *)
Inductive value : Type :=
| Null
| Integer (z : Z)
| Text (s : string).

(** [a = b] inside WHERE or ON: a comparison with NULL is not true,
    and an INTEGER never equals a TEXT. *)
Definition eq_true (a b : value) : bool :=
  match a, b with
  | Integer x, Integer y => Z.eqb x y
  | Text x, Text y => String.eqb x y
  | _, _ => false
  end.

(** INTEGER affinity applied to a bound TEXT parameter. *)
Definition integer_affinity `{Host} (v : value) : value :=
  match v with
  | Text s =>
      match text_to_integer s with
      | Some z => Integer z
      | None => Text s
      end
  | _ => v
  end.

Record ChatSessionRow : Type := {
  cs_id : Z;
  cs_title : value;
  cs_createdAt : Z
}.

Record ChatMessageRow : Type := {
  id : Z;
  previousMessageId : value;
  sessionId : Z;
  request : string;
  response : option string;
  createdAt : Z;
  updatedAt : Z
}.

Record CheckpointRow : Type := {
  cp_id : Z;
  cp_label : string;
  cp_messageId : value;
  cp_createdAt : Z
}.

(** The database file behind a handle.  [seq_*] are the counters of
    sqlite_sequence that AUTOINCREMENT keeps per table; [foreign_keys]
    is the connection's PRAGMA; [unixepoch] is the clock read by the
    column defaults. *)
Record Database : Type := {
  ChatSession : list ChatSessionRow;
  ChatMessage : list ChatMessageRow;
  Checkpoint : list CheckpointRow;
  seq_ChatSession : Z;
  seq_ChatMessage : Z;
  seq_Checkpoint : Z;
  foreign_keys : bool;
  unixepoch : Z
}.

(** AUTOINCREMENT: one more than the largest rowid the table ever
    held. *)
Definition next_rowid (seq : Z) (rowids : list Z) : Z :=
  fold_right Z.max seq rowids + 1.

End Sqlite.

(* ================================================================== *)
(** ** SQLiteChatHistoryStorage *)
(* ================================================================== *)

Module ChatHistory.
Import JS Sqlite.

(** [SELECT ... FROM ChatMessage WHERE id = ?] *)
Definition initial_select (tbl : list ChatMessageRow) (param : value)
  : list ChatMessageRow :=
  filter (fun cm => eq_true (Integer (id cm)) param) tbl.

(** [SELECT cm.* FROM ChatMessage cm INNER JOIN message_history mh
     ON cm.id = mh.previousMessageId], with [mh] the row just taken
    from the queue. *)
Definition recursive_select (tbl : list ChatMessageRow)
    (mh : ChatMessageRow) : list ChatMessageRow :=
  filter (fun cm => eq_true (Integer (id cm)) (previousMessageId mh)) tbl.

(** SQLite's evaluation of WITH RECURSIVE ... UNION ALL: take the row
    at the head of the queue, output it, run the recursive select on it
    alone and append what it yields to the queue; stop when the queue
    is empty.  Without ORDER BY the queue is first-in first-out.
    [fuel] bounds the number of rows taken from the queue. *)
Fixpoint message_history (fuel : nat) (tbl : list ChatMessageRow)
    (queue : list ChatMessageRow) : option (list ChatMessageRow) :=
  match queue with
  | [] => Some []
  | mh :: rest =>
      match fuel with
      | O => None
      | S fuel' =>
          option_map (cons mh)
            (message_history fuel' tbl (rest ++ recursive_select tbl mh))
      end
  end.

(** [getChatHistoryByMessageId(messageId)]: the rows of the recursive
    query in the order the engine produces them. *)
Definition getChatHistoryByMessageId `{Host} (fuel : nat) (db : Database)
    (messageId : string) : option (completion (list ChatMessageRow)) :=
  let param := integer_affinity (Text messageId) in
  option_map Return
    (message_history fuel (ChatMessage db)
       (initial_select (ChatMessage db) param)).

(** Parent links between stored rows. *)
Definition parent_of (tbl : list ChatMessageRow)
    (child parent : ChatMessageRow) : Prop :=
  In parent tbl /\ previousMessageId child = Integer (id parent).

(** [reaches tbl r r']: [r'] is [r] or one of its ancestors. *)
Inductive reaches (tbl : list ChatMessageRow)
  : ChatMessageRow -> ChatMessageRow -> Prop :=
| reaches_here r : reaches tbl r r
| reaches_up r p r' :
    parent_of tbl r p -> reaches tbl p r' -> reaches tbl r r'.

(** Following the links from [r] comes back to [r]. *)
Definition on_cycle (tbl : list ChatMessageRow) (r : ChatMessageRow)
  : Prop :=
  exists p, parent_of tbl r p /\ reaches tbl p r.

(** [lineage tbl l]: [l] lists a stored row, then its parent, and so
    on up to a row whose link is NULL. *)
Inductive lineage (tbl : list ChatMessageRow)
  : list ChatMessageRow -> Prop :=
| lineage_root r :
    In r tbl -> previousMessageId r = Null -> lineage tbl [r]
| lineage_link r p l :
    In r tbl -> previousMessageId r = Integer (id p) ->
    lineage tbl (p :: l) -> lineage tbl (r :: p :: l).

End ChatHistory.

(* ================================================================== *)
(** ** SQLiteAgentStateStorage *)
(* ================================================================== *)

Module AgentState.
Import JS.

(** What the caller of [retryOnBusy] can observe besides its result:
    each call of the operation and each timer the loop waits on. *)
Inductive event : Type :=
| Attempt (i : Z)
| Sleep (ms : Z).

(** [error.code === 'SQLITE_BUSY'] *)
Definition is_busy (error : exn) : bool :=
  match error with
  | DriverError code => String.eqb code "SQLITE_BUSY"
  | _ => false
  end.

Section RetryOnBusy.
Context {W T : Type}.
Variables (maxRetries retryDelayMs : Z).

(** The operation acts on a world [W] (the database file and whoever
    else holds it), so successive calls may complete differently. *)
Variable operation : W -> completion T * W.

(** The body of [for (let i = 0; i < this.maxRetries; i++)]; [n] counts
    the iterations the loop condition still allows. *)
Fixpoint retry_loop (n : nat) (i : Z) (w : W)
  : completion T * W * list event :=
  match n with
  | O => (Throw (Error "Max retries reached"), w, [])
  | S n' =>
      match operation w with
      | (Return v, w') => (Return v, w', [Attempt i])
      | (Throw error, w') =>
          if (is_busy error && (i <? maxRetries - 1))%bool
          then
            let '(r, w'', tr) := retry_loop n' (i + 1) w' in
            (r, w'', Attempt i :: Sleep (retryDelayMs * (i + 1)) :: tr)
          else (Throw error, w', [Attempt i])
      end
  end.

Definition retryOnBusy (w : W) : completion T * W * list event :=
  retry_loop (Z.to_nat maxRetries) 0 w.

(** The world in which attempt number [k] (counted from 0) runs. *)
Fixpoint world_at (k : nat) (w : W) : W :=
  match k with
  | O => w
  | S k' => world_at k' (snd (operation w))
  end.

(** Attempt number [k] completes with a busy error. *)
Definition busy_at (w : W) (k : nat) : Prop :=
  exists e, fst (operation (world_at k w)) = Throw e /\ is_busy e = true.

End RetryOnBusy.

Definition is_attempt (e : event) : bool :=
  match e with
  | Attempt _ => true
  | Sleep _ => false
  end.

Definition attempts (tr : list event) : nat :=
  List.length (filter is_attempt tr).

Definition sleeps (tr : list event) : list Z :=
  flat_map (fun e => match e with Sleep ms => [ms] | _ => [] end) tr.

(** The schedule the specification words describe: [n] attempts, the
    first numbered [i], with a pause of [retryDelayMs] times the number
    of the attempt that just failed (counted from 1) between two
    consecutive attempts. *)
Fixpoint linear_backoff (retryDelayMs : Z) (i : Z) (n : nat) : list event :=
  match n with
  | O => []
  | S O => [Attempt i]
  | S n' =>
      Attempt i :: Sleep (retryDelayMs * (i + 1))
        :: linear_backoff retryDelayMs (i + 1) n'
  end.

Record AgentStateRow : Type := {
  id : Z;
  agentId : string;
  name : string;
  state : string;
  createdAt : Z
}.

(** The database file of the agent-state store: the AgentState table
    (id INTEGER PRIMARY KEY AUTOINCREMENT, agentId, name, state,
    createdAt, all NOT NULL, no other constraint) and its counter. *)
Record Database : Type := {
  AgentState : list AgentStateRow;
  seq_AgentState : Z
}.

Record NamedAgentCheckpoint : Type := {
  nc_agentId : string;
  nc_name : string;
  nc_state : JSON;
  nc_createdAt : Z
}.

(** [createdAt] is [None] when the property is [undefined]. *)
Record StoredAgentCheckpoint : Type := {
  sc_id : string;
  sc_name : string;
  sc_agentId : string;
  sc_state : JSON;
  sc_createdAt : option Z
}.

Record SQLiteAgentStateStorage : Type := {
  db : Database;
  maxRetries : Z;
  retryDelayMs : Z
}.

(** [new SQLiteAgentStateStorage({databasePath})] on a database file,
    with the defaults of the constructor. *)
Definition constructor (file : Database) : SQLiteAgentStateStorage :=
  {| db := file; maxRetries := 3; retryDelayMs := 100 |}.

(** [INSERT OR REPLACE INTO AgentState (agentId, name, state, createdAt)
     VALUES (?, ?, ?, ?) RETURNING id] on a file nobody else holds, so
    that the statement completes.  The row gets the next rowid; OR
    REPLACE deletes the rows that collide with it on a uniqueness
    constraint, and the primary key is the only one the table has. *)
Definition insert_or_replace (agentId name state : string) (createdAt : Z)
    (d : Database) : completion AgentStateRow * Database :=
  let rowid := Sqlite.next_rowid (seq_AgentState d) (map id (AgentState d)) in
  let row := {| id := rowid; agentId := agentId; name := name;
                state := state; createdAt := createdAt |} in
  (Return row,
   {| AgentState :=
        filter (fun r => negb (id r =? rowid)) (AgentState d) ++ [row];
      seq_AgentState := rowid |}).

(** [SELECT id, agentId, name, state FROM AgentState WHERE id = ?] with
    [.get]: the first matching row, or [undefined]. *)
Definition select_by_id `{Host} (param : string) (d : Database)
    : completion (option AgentStateRow) * Database :=
  (Return
     (find (fun r => Sqlite.eq_true (Sqlite.Integer (id r))
                       (Sqlite.integer_affinity (Sqlite.Text param)))
        (AgentState d)),
   d).

Definition with_db (s : SQLiteAgentStateStorage) (d : Database)
    : SQLiteAgentStateStorage :=
  {| db := d; maxRetries := maxRetries s; retryDelayMs := retryDelayMs s |}.

Definition storeCheckpoint `{Host} (s : SQLiteAgentStateStorage)
    (checkpoint : NamedAgentCheckpoint)
    : completion string * SQLiteAgentStateStorage :=
  let '(r, d, _) :=
    retryOnBusy (maxRetries s) (retryDelayMs s)
      (insert_or_replace (nc_agentId checkpoint) (nc_name checkpoint)
         (JSON_stringify (nc_state checkpoint)) (nc_createdAt checkpoint))
      (db s) in
  (bind r (fun row => Return (toString (id row))), with_db s d).

Definition retrieveCheckpoint `{Host} (s : SQLiteAgentStateStorage)
    (agentId : string)
    : completion (option StoredAgentCheckpoint) * SQLiteAgentStateStorage :=
  let '(r, d, _) :=
    retryOnBusy (maxRetries s) (retryDelayMs s) (select_by_id agentId) (db s) in
  (bind r (fun row =>
     match row with
     | Some row =>
         match JSON_parse (state row) with
         | Some v =>
             Return (Some {| sc_id := toString (id row);
                             sc_name := name row;
                             sc_agentId := agentId;
                             sc_state := v;
                             sc_createdAt := None |})
         | None => Throw SyntaxError
         end
     | None => Return None
     end),
   with_db s d).

(** The rows stored under a logical key. *)
Definition rows_of_key (agent nm : string) (d : Database)
    : list AgentStateRow :=
  filter (fun r =>
            (String.eqb (agentId r) agent && String.eqb (name r) nm)%bool)
    (AgentState d).

End AgentState.

(* ================================================================== *)
(** ** SQLiteChatCheckpointStorage *)
(* ================================================================== *)

Module ChatCheckpoint.
Import JS Sqlite.

(** A message id as a caller holds it: [string|number]. *)
Inductive MessageId : Type :=
| IdNumber (n : Z)
| IdString (s : string).

(** The [currentMessage] argument, of which only [.id] is read; [None]
    is a missing property. *)
Record CurrentMessage : Type := {
  cm_id : option MessageId
}.

(** [!currentMessage.id] *)
Definition falsy (i : option MessageId) : bool :=
  match i with
  | None => true
  | Some (IdNumber n) => n =? 0
  | Some (IdString s) => String.eqb s EmptyString
  end.

(** The value the INTEGER column [messageId] stores for a bound id. *)
Definition stored_id `{Host} (i : MessageId) : value :=
  match i with
  | IdNumber n => Integer n
  | IdString s => integer_affinity (Text s)
  end.

(** [INSERT INTO Checkpoint (label, messageId) VALUES (?, ?) RETURNING *].
    The table declares no foreign key. *)
Definition insert_checkpoint (label : string) (messageId : value)
    (db : Database) : CheckpointRow * Database :=
  let rowid := next_rowid (seq_Checkpoint db) (map cp_id (Checkpoint db)) in
  let row := {| cp_id := rowid; cp_label := label;
                cp_messageId := messageId;
                cp_createdAt := unixepoch db * 1000 |} in
  (row,
   {| ChatSession := ChatSession db;
      ChatMessage := ChatMessage db;
      Checkpoint := Checkpoint db ++ [row];
      seq_ChatSession := seq_ChatSession db;
      seq_ChatMessage := seq_ChatMessage db;
      seq_Checkpoint := rowid;
      foreign_keys := foreign_keys db;
      unixepoch := unixepoch db |}).

Definition invalid_currentMessage : exn :=
  Error "Invalid currentMessage provided for checkpoint creation".

Definition createCheckpoint `{Host} (db : Database) (label : string)
    (currentMessage : option CurrentMessage)
    : completion CheckpointRow * Database :=
  match currentMessage with
  | None => (Throw invalid_currentMessage, db)
  | Some m =>
      match cm_id m with
      | Some i =>
          if falsy (Some i) then (Throw invalid_currentMessage, db)
          else let (row, db') := insert_checkpoint label (stored_id i) db in
               (Return row, db')
      | None => (Throw invalid_currentMessage, db)
      end
  end.

(** Some stored turn carries the id. *)
Definition resolves (db : Database) (messageId : value) : Prop :=
  exists r, In r (ChatMessage db) /\ messageId = Integer (id r).

End ChatCheckpoint.

(* ================================================================== *)
(** ** SQLiteCLIHistoryStorage *)
(* ================================================================== *)

Module CLIHistory.
Import JS.

(** The options a caller may pass, and the configuration the
    constructor builds from them with [{limit: 200, ...config}]. *)
Record HistoryOptions : Type := {
  opt_limit : option Z;
  opt_blacklist : option (list string)
}.

Record HistoryConfig : Type := {
  limit : Z;
  blacklist : option (list string)
}.

(** The statements the store sends to its database handle.  The store
    never reads them back outside [load], so the model records them in
    the order they are issued.  The handle is taken to execute them: the
    [catch] branches of the class, which only log, are not entered. *)
Inductive statement : Type :=
| InsertCommand (command : string) (timestamp : Z)
| DeleteAllButNewest (keep : Z)
| DeleteAll.

Record SQLiteCLIHistoryStorage : Type := {
  config : HistoryConfig;
  history : list string;
  historyIndex : Z;
  issued : list statement
}.

Definition constructor (options : HistoryOptions) : SQLiteCLIHistoryStorage :=
  {| config := {| limit := match opt_limit options with
                           | Some l => l
                           | None => 200
                           end;
                  blacklist := opt_blacklist options |};
     history := [];
     historyIndex := 0;
     issued := [] |}.

(** [!command.trim()] *)
Definition is_blank (command : string) : bool :=
  forallb is_whitespace (list_ascii_of_string command).

(** [this.config.blacklist && this.config.blacklist.includes(command)] *)
Definition blacklisted (c : HistoryConfig) (command : string) : bool :=
  match blacklist c with
  | Some l => existsb (String.eqb command) l
  | None => false
  end.

(** [this.config.limit || 200] *)
Definition effective_limit (c : HistoryConfig) : Z :=
  if limit c =? 0 then 200 else limit c.

(** [this.history[this.history.length - 1]] *)
Fixpoint last_entry (l : list string) : option string :=
  match l with
  | [] => None
  | [x] => Some x
  | _ :: rest => last_entry rest
  end.

Definition is_last (l : list string) (command : string) : bool :=
  match last_entry l with
  | Some x => String.eqb x command
  | None => false
  end.

(** [add(command)], with [now] the value of [Date.now()]. *)
Definition add (h : SQLiteCLIHistoryStorage) (now : Z) (command : string)
    : SQLiteCLIHistoryStorage :=
  if (is_blank command || blacklisted (config h) command)%bool then h
  else if ((0 <? Z.of_nat (List.length (history h)))
           && is_last (history h) command)%bool then h
  else
    let pushed := history h ++ [command] in
    let inserted := issued h ++ [InsertCommand command now] in
    let L := effective_limit (config h) in
    if Z.of_nat (List.length pushed) >? L then
      let kept := slice (-1 * L) pushed in
      {| config := config h;
         history := kept;
         historyIndex := Z.of_nat (List.length kept);
         issued := inserted ++ [DeleteAllButNewest L] |}
    else
      {| config := config h;
         history := pushed;
         historyIndex := Z.of_nat (List.length pushed);
         issued := inserted |}.

(** [getAll()]: a copy of the cached list. *)
Definition getAll (h : SQLiteCLIHistoryStorage) : list string := history h.

(** A run of [add] calls, each with the clock value it reads. *)
Definition add_all (h : SQLiteCLIHistoryStorage) (calls : list (Z * string))
    : SQLiteCLIHistoryStorage :=
  fold_left (fun h call => add h (fst call) (snd call)) calls h.

(** The last [n] entries of a list. *)
Definition lastn {A} (n : nat) (l : list A) : list A :=
  skipn (List.length l - n) l.

End CLIHistory.

(* ================================================================== *)
(** ** SQLiteChatMessageStorage *)
(* ================================================================== *)

Module ChatMessageStorage.
Import JS Sqlite.

(** [undefined] properties are [None]; a [null] response is [JNull]. *)
Record StoredChatMessage : Type := {
  id : string;
  sessionId : string;
  request : JSON;
  response : JSON;
  previousMessageId : option string;
  createdAt : option Z;
  updatedAt : option Z
}.

(** A row object as the driver hands it to [formatMessage]; the
    timestamps are there only when the statement selects them. *)
Record RawMessage : Type := {
  raw_id : Z;
  raw_sessionId : Z;
  raw_previousMessageId : value;
  raw_request : string;
  raw_response : option string;
  raw_createdAt : option Z;
  raw_updatedAt : option Z
}.

(** [RETURNING id, sessionId, previousMessageId, request, response] *)
Definition returning_columns (r : ChatMessageRow) : RawMessage :=
  {| raw_id := Sqlite.id r;
     raw_sessionId := Sqlite.sessionId r;
     raw_previousMessageId := Sqlite.previousMessageId r;
     raw_request := Sqlite.request r;
     raw_response := Sqlite.response r;
     raw_createdAt := None;
     raw_updatedAt := None |}.

(** [SELECT *] *)
Definition all_columns (r : ChatMessageRow) : RawMessage :=
  {| raw_id := Sqlite.id r;
     raw_sessionId := Sqlite.sessionId r;
     raw_previousMessageId := Sqlite.previousMessageId r;
     raw_request := Sqlite.request r;
     raw_response := Sqlite.response r;
     raw_createdAt := Some (Sqlite.createdAt r);
     raw_updatedAt := Some (Sqlite.updatedAt r) |}.

Definition parse_or_throw `{Host} (text : string) : completion JSON :=
  match JSON_parse text with
  | Some v => Return v
  | None => Throw SyntaxError
  end.

Definition formatMessage `{Host} (msg : RawMessage)
    : completion StoredChatMessage :=
  bind (parse_or_throw (raw_request msg)) (fun req =>
  bind (match raw_response msg with
        | Some text =>
            if String.eqb text EmptyString then Return JNull
            else parse_or_throw text
        | None => Return JNull
        end) (fun resp =>
  Return {| id := toString (raw_id msg);
            sessionId := toString (raw_sessionId msg);
            request := req;
            response := resp;
            previousMessageId :=
              match raw_previousMessageId msg with
              | Null => None
              | Integer z => Some (toString z)
              | Text t => Some t
              end;
            createdAt := raw_createdAt msg;
            updatedAt := raw_updatedAt msg |})).

(** *** The session title *)

(** [.] matches every code unit but a line terminator. *)
Definition dot (c : ascii) : bool := negb (is_line_terminator c).

(** The number of code units a greedy [.{0,max}] takes at the head of
    [s]. *)
Fixpoint dot_run (s : list ascii) (max : nat) : nat :=
  match max, s with
  | S max', c :: rest => if dot c then S (dot_run rest max') else O
  | _, _ => O
  end.

(** The length [(\s.*|$)] matches at the head of [rest], if it matches:
    a white-space unit and the rest of its line, or nothing at the end of
    the input. *)
Definition group2 (rest : list ascii) : option nat :=
  match rest with
  | c :: rest' =>
      if is_whitespace c then Some (S (dot_run rest' (List.length rest')))
      else None
  | [] => Some O
  end.

(** Backtracking of [^(.{1,100})(\s.*|$)]: the first group gives back
    one unit at a time, from [n] down to 1, until the second group
    matches.  The result is the pair of the two lengths. *)
Fixpoint backtrack (s : list ascii) (n : nat) : option (nat * nat) :=
  match n with
  | O => None
  | S n' =>
      match group2 (skipn n s) with
      | Some m => Some (n, m)
      | None => backtrack s n'
      end
  end.

(** [content.replace(/^(.{1,100})(\s.*|$)/, (_, a) => a)]: the match is
    replaced by its first group; without a match the content is
    returned as it is. *)
Definition replace_title (content : string) : string :=
  let s := list_ascii_of_string content in
  match backtrack s (dot_run s 100) with
  | Some (n, m) => string_of_list_ascii (firstn n s ++ skipn (n + m) s)
  | None => content
  end.

Fixpoint last_item (items : list JSON) : option JSON :=
  match items with
  | [] => None
  | [x] => Some x
  | _ :: rest => last_item rest
  end.

(** The [Body] type of the [request] parameter: an object whose
    [messages], when present, is an array. *)
Definition is_Body (request : JSON) : Prop :=
  match request with
  | JObject fields =>
      match lookup "messages" fields with
      | None | Some JNull | Some (JArray _) => True
      | Some _ => False
      end
  | _ => False
  end.

(** [request.messages?.[request.messages.length - 1]] on a [Body].
    (Outside that type the model takes a [messages] that is not an array
    to have no last element.) *)
Definition lastMessage (request : JSON) : completion (option JSON) :=
  match request with
  | JNull => Throw (TypeError "Cannot read properties of null")
  | _ =>
      match get_field "messages" request with
      | Some (JArray items) => Return (last_item items)
      | _ => Return None
      end
  end.

(** [lastMessage?.content] *)
Definition content_of (last : option JSON) : option JSON :=
  match last with
  | Some m => get_field "content" m
  | None => None
  end.

(** [lastMessage?.content?.replace(...) ?? "New Chat"] *)
Definition session_title (request : JSON) : completion string :=
  bind (lastMessage request) (fun last =>
    match content_of last with
    | None | Some JNull => Return "New Chat"
    | Some (JString content) => Return (replace_title content)
    | Some _ => Throw (TypeError "content.replace is not a function")
    end).

(** [INSERT INTO ChatSession (title) VALUES (?) RETURNING *] *)
Definition insert_session (title : string) (db : Database)
    : ChatSessionRow * Database :=
  let rowid := next_rowid (seq_ChatSession db) (map cs_id (ChatSession db)) in
  let row := {| cs_id := rowid; cs_title := Text title;
                cs_createdAt := unixepoch db * 1000 |} in
  (row,
   {| ChatSession := ChatSession db ++ [row];
      ChatMessage := ChatMessage db;
      Checkpoint := Checkpoint db;
      seq_ChatSession := rowid;
      seq_ChatMessage := seq_ChatMessage db;
      seq_Checkpoint := seq_Checkpoint db;
      foreign_keys := foreign_keys db;
      unixepoch := unixepoch db |}).

(** The two foreign keys of ChatMessage, checked when the connection
    enforces them. *)
Definition references_hold (db : Database) (rowid session : Z)
    (previous : value) : bool :=
  (existsb (fun s => cs_id s =? session) (ChatSession db)
   && match previous with
      | Null => true
      | Integer p =>
          (p =? rowid) || existsb (fun r => Sqlite.id r =? p) (ChatMessage db)
      | Text _ => false
      end)%bool.

(** [INSERT INTO ChatMessage (sessionId, previousMessageId, request,
     response) VALUES (?, ?, ?, ?) RETURNING ...].  [session] is [None]
    when the bound number is [NaN], which SQLite stores as NULL. *)
Definition insert_message `{Host} (session : option Z) (previous : value)
    (req resp : string) (db : Database)
    : completion ChatMessageRow * Database :=
  match session with
  | None => (Throw (DriverError "SQLITE_CONSTRAINT_NOTNULL"), db)
  | Some sid =>
      let rowid :=
        next_rowid (seq_ChatMessage db) (map Sqlite.id (ChatMessage db)) in
      let prev := integer_affinity previous in
      if (foreign_keys db && negb (references_hold db rowid sid prev))%bool
      then (Throw (DriverError "SQLITE_CONSTRAINT_FOREIGNKEY"), db)
      else
        let row := {| Sqlite.id := rowid;
                      Sqlite.previousMessageId := prev;
                      Sqlite.sessionId := sid;
                      Sqlite.request := req;
                      Sqlite.response := Some resp;
                      Sqlite.createdAt := unixepoch db * 1000;
                      Sqlite.updatedAt := unixepoch db * 1000 |} in
        (Return row,
         {| ChatSession := ChatSession db;
            ChatMessage := ChatMessage db ++ [row];
            Checkpoint := Checkpoint db;
            seq_ChatSession := seq_ChatSession db;
            seq_ChatMessage := rowid;
            seq_Checkpoint := seq_Checkpoint db;
            foreign_keys := foreign_keys db;
            unixepoch := unixepoch db |})
  end.

(** [currentMessage?.sessionId] is truthy. *)
Definition has_session (currentMessage : option StoredChatMessage) : bool :=
  match currentMessage with
  | Some m => negb (String.eqb (sessionId m) EmptyString)
  | None => false
  end.

(** The [else] branch: a session titled after the request. *)
Definition new_session (db : Database) (request : JSON)
    : completion (option Z) * Database :=
  match session_title request with
  | Return title =>
      let (chatSession, db') := insert_session title db in
      (Return (Some (cs_id chatSession)), db')
  | Throw e => (Throw e, db)
  end.

(** The first half of [storeChat]: the session the turn goes to, as the
    number bound to the INSERT ([None] is [NaN]). *)
Definition session_for (db : Database)
    (currentMessage : option StoredChatMessage) (request : JSON)
    : completion (option Z) * Database :=
  match currentMessage with
  | Some m =>
      if has_session currentMessage
      then (Return (parseInt (sessionId m)), db)
      else new_session db request
  | None => new_session db request
  end.

Definition storeChat `{Host} (db : Database)
    (currentMessage : option StoredChatMessage) (request response : JSON)
    : completion StoredChatMessage * Database :=
  match session_for db currentMessage request with
  | (Throw e, db1) => (Throw e, db1)
  | (Return session, db1) =>
      let previous :=
        match currentMessage with
        | Some m => Text (id m)
        | None => Null
        end in
      match insert_message session previous
              (JSON_stringify request) (JSON_stringify response) db1 with
      | (Throw e, db2) => (Throw e, db2)
      | (Return msg, db2) => (formatMessage (returning_columns msg), db2)
      end
  end.

Definition retrieveMessageById `{Host} (db : Database) (id : string)
    : completion StoredChatMessage :=
  match find (fun r => eq_true (Integer (Sqlite.id r))
                         (integer_affinity (Text id)))
          (ChatMessage db) with
  | Some data => formatMessage (all_columns data)
  | None => Throw (Error ("Message with id " ++ id ++ " not found")%string)
  end.

(** The content of the last message of a request, when it is a
    string. *)
Definition inbound_content (request : JSON) : option string :=
  match lastMessage request with
  | Return last =>
      match content_of last with
      | Some (JString content) => Some content
      | _ => None
      end
  | Throw _ => None
  end.

Definition single_line (content : string) : Prop :=
  forall c, In c (list_ascii_of_string content) -> is_line_terminator c = false.

Definition whitespace_at (content : string) (i : nat) : Prop :=
  exists c, nth_error (list_ascii_of_string content) i = Some c
            /\ is_whitespace c = true.

(** [content.length] and [content.substring(0, n)]. *)
Definition units (content : string) : nat :=
  List.length (list_ascii_of_string content).

Definition first_units (n : nat) (content : string) : string :=
  string_of_list_ascii (firstn n (list_ascii_of_string content)).

(** The reading of the title the specification words give: the first
    100 code units, extended up to the first white-space unit after
    them. *)
Fixpoint units_before_whitespace (s : list ascii) : nat :=
  match s with
  | c :: rest => if is_whitespace c then O else S (units_before_whitespace rest)
  | [] => O
  end.

Definition title_cut_after_cutoff (content : string) : string :=
  let s := list_ascii_of_string content in
  first_units (100 + units_before_whitespace (skipn 100 s)) content.

End ChatMessageStorage.

(* ================================================================== *)
(** ** A concrete host *)
(* ================================================================== *)

(** An executable instance of [Host], used to run the model on concrete
    databases: decimal integer literals for the TEXT to INTEGER
    conversion, and a compact JSON printer with a matching reader for
    integers, booleans, null, strings, arrays and objects. *)
Module Model.
Import JS.

Definition integer_of_text (s : string) : option Z :=
  option_map Z.of_int (NilZero.int_of_string s).

Definition quote_char (c : ascii) : list ascii :=
  let n := nat_of_ascii c in
  if Nat.eqb n 34 then ["\"; c]%char
  else if Nat.eqb n 92 then ["\"; c]%char
  else if Nat.eqb n 10 then ["\"; "n"]%char
  else [c].

Definition quote (s : string) : list ascii :=
  (ascii_of_nat 34 :: flat_map quote_char (list_ascii_of_string s))
    ++ [ascii_of_nat 34].

Fixpoint print (v : JSON) : list ascii :=
  match v with
  | JNull => list_ascii_of_string "null"
  | JBool true => list_ascii_of_string "true"
  | JBool false => list_ascii_of_string "false"
  | JNumber z => list_ascii_of_string (toString z)
  | JString s => quote s
  | JArray items =>
      let fix go (l : list JSON) : list ascii :=
        match l with
        | [] => []
        | [x] => print x
        | x :: rest => print x ++ ","%char :: go rest
        end in
      "["%char :: go items ++ ["]"%char]
  | JObject fields =>
      let fix go (l : list (string * JSON)) : list ascii :=
        match l with
        | [] => []
        | [(k, x)] => quote k ++ ":"%char :: print x
        | (k, x) :: rest =>
            quote k ++ ":"%char :: print x ++ ","%char :: go rest
        end in
      "{"%char :: go fields ++ ["}"%char]
  end.

Definition stringify (v : JSON) : string :=
  string_of_list_ascii (print v).

(** Reads the body of a string literal up to its closing quote. *)
Fixpoint read_string (s : list ascii) (acc : list ascii)
  : option (string * list ascii) :=
  match s with
  | [] => None
  | c :: rest =>
      if Nat.eqb (nat_of_ascii c) 34
      then Some (string_of_list_ascii (rev acc), rest)
      else if Nat.eqb (nat_of_ascii c) 92
      then match rest with
           | e :: rest' =>
               read_string rest'
                 ((if Ascii.eqb e "n" then ascii_of_nat 10 else e) :: acc)
           | [] => None
           end
      else read_string rest (c :: acc)
  end.

Fixpoint span_digits (s : list ascii) : list ascii * list ascii :=
  match s with
  | c :: rest =>
      let n := nat_of_ascii c in
      if (Nat.leb 48 n && Nat.leb n 57)%bool
      then let (d, r) := span_digits rest in (c :: d, r)
      else ([], s)
  | [] => ([], [])
  end.

Definition read_number (s : list ascii) : option (JSON * list ascii) :=
  match s with
  | "-"%char :: rest =>
      let (d, r) := span_digits rest in
      option_map (fun z => (JNumber z, r))
        (integer_of_text (string_of_list_ascii ("-"%char :: d)))
  | _ =>
      let (d, r) := span_digits s in
      option_map (fun z => (JNumber z, r))
        (integer_of_text (string_of_list_ascii d))
  end.

Definition read_literal (word : string) (v : JSON) (s : list ascii)
  : option (JSON * list ascii) :=
  let w := list_ascii_of_string word in
  if String.eqb (string_of_list_ascii (firstn (List.length w) s)) word
  then Some (v, skipn (List.length w) s) else None.

Fixpoint read_value (fuel : nat) (s : list ascii)
  : option (JSON * list ascii) :=
  match fuel with
  | O => None
  | S fuel' =>
      match s with
      | "n"%char :: _ => read_literal "null" JNull s
      | "t"%char :: _ => read_literal "true" (JBool true) s
      | "f"%char :: _ => read_literal "false" (JBool false) s
      | "["%char :: "]"%char :: rest => Some (JArray [], rest)
      | "["%char :: rest =>
          option_map (fun '(l, r) => (JArray l, r)) (read_items fuel' rest)
      | "{"%char :: "}"%char :: rest => Some (JObject [], rest)
      | "{"%char :: rest =>
          option_map (fun '(l, r) => (JObject l, r)) (read_fields fuel' rest)
      | c :: rest =>
          if Nat.eqb (nat_of_ascii c) 34
          then option_map (fun '(x, r) => (JString x, r))
                 (read_string rest [])
          else read_number s
      | [] => None
      end
  end
with read_items (fuel : nat) (s : list ascii)
  : option (list JSON * list ascii) :=
  match fuel with
  | O => None
  | S fuel' =>
      match read_value fuel' s with
      | Some (v, ","%char :: rest) =>
          option_map (fun '(l, r) => (v :: l, r)) (read_items fuel' rest)
      | Some (v, "]"%char :: rest) => Some ([v], rest)
      | _ => None
      end
  end
with read_fields (fuel : nat) (s : list ascii)
  : option (list (string * JSON) * list ascii) :=
  match fuel with
  | O => None
  | S fuel' =>
      match s with
      | q :: rest =>
          if Nat.eqb (nat_of_ascii q) 34 then
            match read_string rest [] with
            | Some (k, ":"%char :: rest') =>
                match read_value fuel' rest' with
                | Some (v, ","%char :: rest'') =>
                    option_map (fun '(l, r) => ((k, v) :: l, r))
                      (read_fields fuel' rest'')
                | Some (v, "}"%char :: rest'') => Some ([(k, v)], rest'')
                | _ => None
                end
            | _ => None
            end
          else None
      | [] => None
      end
  end.

Definition parse (s : string) : option JSON :=
  let l := list_ascii_of_string s in
  match read_value (S (List.length l)) l with
  | Some (v, []) => Some v
  | _ => None
  end.

#[export] Instance host : Host := {
  JSON_stringify := stringify;
  JSON_parse := parse;
  text_to_integer := integer_of_text
}.

End Model.

(* ================================================================== *)
(** ** Concrete databases *)
(* ================================================================== *)

Module Fixtures.
Import JS Sqlite.

Definition turn (i : Z) (prev : value) : ChatMessageRow :=
  {| id := i; previousMessageId := prev; sessionId := 1;
     request := "{}"; response := None;
     createdAt := 1000; updatedAt := 1000 |}.

Definition database_of (msgs : list ChatMessageRow) : Database :=
  {| ChatSession := [{| cs_id := 1; cs_title := Text "t";
                        cs_createdAt := 1000 |}];
     ChatMessage := msgs; Checkpoint := [];
     seq_ChatSession := 1;
     seq_ChatMessage := Z.of_nat (List.length msgs);
     seq_Checkpoint := 0;
     foreign_keys := false; unixepoch := 1 |}.

(** root(1) <- A(2) <- B(3) <- C(4) *)
Definition root := turn 1 Null.
Definition A := turn 2 (Integer 1).
Definition B := turn 3 (Integer 2).
Definition C := turn 4 (Integer 3).
Definition chain_db := database_of [root; A; B; C].

(** Two turns that name each other as predecessor. *)
Definition loop_db :=
  database_of [turn 1 (Integer 2); turn 2 (Integer 1)].

(** An operation that finds the file locked on every call; its world
    counts the calls made so far. *)
Definition always_busy (calls : nat) : completion unit * nat :=
  (Throw (DriverError "SQLITE_BUSY"), S calls).

(** An operation that is locked out twice and then hits a full disk. *)
Definition busy_then_full (calls : nat) : completion unit * nat :=
  (Throw (DriverError (if Nat.ltb calls 2 then "SQLITE_BUSY"
                       else "SQLITE_FULL")),
   S calls).

Definition empty_agent_store : AgentState.SQLiteAgentStateStorage :=
  AgentState.constructor
    {| AgentState.AgentState := []; AgentState.seq_AgentState := 0 |}.

Definition session_1 (payload : JSON) : AgentState.NamedAgentCheckpoint :=
  {| AgentState.nc_agentId := "agent-123";
     AgentState.nc_name := "session-1";
     AgentState.nc_state := payload;
     AgentState.nc_createdAt := 1700000000000 |}.

(** A history capped at three entries that already holds two. *)
Definition small_history : CLIHistory.SQLiteCLIHistoryStorage :=
  {| CLIHistory.config :=
       {| CLIHistory.limit := 3; CLIHistory.blacklist := Some ["exit"] |};
     CLIHistory.history := ["ls"; "pwd"];
     CLIHistory.historyIndex := 2;
     CLIHistory.issued := [] |}.

Definition five_commands : list (Z * string) :=
  [(10, "a"); (11, "b"); (11, "c"); (12, "d"); (13, "e")].

(** The commands "1", "2", ..., "205", each with its clock value. *)
Definition numbered_commands : list (Z * string) :=
  map (fun n => (1000 + Z.of_nat n, toString (Z.of_nat n))) (seq 1 205).

Definition hello_request : JSON :=
  JObject [("messages",
            JArray [JObject [("role", JString "user");
                             ("content", JString "Hello world")]])].

Definition hello_response : JSON :=
  JObject [("role", JString "assistant"); ("content", JString "Hi!")].

(** 109 units: fifty a, a space, fifty-four b, a space, "end".  White
    space sits at positions 50 and 105. *)
Definition long_content : string :=
  string_of_list_ascii
    (repeat "a"%char 50 ++ " "%char :: repeat "b"%char 54
       ++ list_ascii_of_string " end").

Definition long_request : JSON :=
  JObject [("messages",
            JArray [JObject [("role", JString "user");
                             ("content", JString long_content)]])].

End Fixtures.

(* ================================================================== *)
(** ** ORDER BY, LIMIT and OFFSET *)
(* ================================================================== *)

Module OrderBy.

Section Sorting.
Context {A : Type}.
Variable key : A -> Z.

Fixpoint insert_ascending (x : A) (sorted : list A) : list A :=
  match sorted with
  | [] => [x]
  | y :: rest =>
      if key x <=? key y then x :: sorted else y :: insert_ascending x rest
  end.

Fixpoint insert_descending (x : A) (sorted : list A) : list A :=
  match sorted with
  | [] => [x]
  | y :: rest =>
      if key y <=? key x then x :: sorted else y :: insert_descending x rest
  end.

(** [ORDER BY key] and [ORDER BY key DESC] over the rows of a scan.
    Rows with equal keys come out in the order of the scan; SQLite
    leaves their order open, and the properties proved about these
    queries do not depend on it. *)
Definition ascending (rows : list A) : list A :=
  fold_right insert_ascending [] rows.

Definition descending (rows : list A) : list A :=
  fold_right insert_descending [] rows.

End Sorting.

(** [LIMIT n]: a negative [n] is no limit. *)
Definition limit {A} (n : Z) (rows : list A) : list A :=
  if n <? 0 then rows else firstn (Z.to_nat n) rows.

(** [OFFSET n]: a negative [n] skips nothing. *)
Definition offset {A} (n : Z) (rows : list A) : list A :=
  skipn (Z.to_nat n) rows.

End OrderBy.

(* ================================================================== *)
(** ** SQLiteChatHistoryStorage: the listing queries *)
(* ================================================================== *)

Module ChatHistoryQueries.
Import JS Sqlite.

(** [SELECT id, title, createdAt FROM ChatSession ORDER BY createdAt DESC] *)
Definition listSessions (db : Database) : list ChatSessionRow :=
  OrderBy.descending cs_createdAt (ChatSession db).

(** [WHERE sessionId = ?] with the session id bound as text. *)
Definition in_session `{Host} (sessionId : string) (cm : ChatMessageRow)
    : bool :=
  eq_true (Integer (Sqlite.sessionId cm)) (integer_affinity (Text sessionId)).

(** [SELECT ... FROM ChatMessage WHERE sessionId = ? ORDER BY createdAt] *)
Definition getThreadTree `{Host} (db : Database) (sessionId : string)
    : list ChatMessageRow :=
  OrderBy.ascending createdAt (filter (in_session sessionId) (ChatMessage db)).

(** The same statement with [LIMIT ?]. *)
Definition getRecentMessages `{Host} (db : Database) (sessionId : string)
    (limit : Z) : list ChatMessageRow :=
  OrderBy.limit limit
    (OrderBy.ascending createdAt
       (filter (in_session sessionId) (ChatMessage db))).

(** Turns of the session created strictly before [r]. *)
Definition older_turns `{Host} (db : Database) (sessionId : string)
    (r : ChatMessageRow) : list ChatMessageRow :=
  filter (fun cm => createdAt cm <? createdAt r)
    (filter (in_session sessionId) (ChatMessage db)).

(** Every link of a stored turn points at a smaller id. *)
Definition links_older (tbl : list ChatMessageRow) : Prop :=
  forall r p, In r tbl -> previousMessageId r = Integer p -> p < id r.

(** The number of stored turns with a smaller id than [r]. *)
Definition older_count (tbl : list ChatMessageRow) (r : ChatMessageRow)
    : nat :=
  List.length (filter (fun x => id x <? id r) tbl).

(** [walk tbl l]: [l] lists a stored row, then the stored row its link
    names, and so on, up to a row whose link names no stored row. *)
Inductive walk (tbl : list ChatMessageRow) : list ChatMessageRow -> Prop :=
| walk_end r :
    In r tbl -> ChatHistory.recursive_select tbl r = [] -> walk tbl [r]
| walk_step r p l :
    In r tbl -> ChatHistory.parent_of tbl r p ->
    walk tbl (p :: l) -> walk tbl (r :: p :: l).

End ChatHistoryQueries.

(* ================================================================== *)
(** ** SQLiteChatCheckpointStorage: reading checkpoints *)
(* ================================================================== *)

Module CheckpointQueries.
Import JS Sqlite.

(** [SELECT * FROM Checkpoint ORDER BY createdAt DESC] *)
Definition listCheckpoint (db : Database) : list CheckpointRow :=
  OrderBy.descending cp_createdAt (Checkpoint db).

(** [SELECT * FROM Checkpoint ORDER BY createdAt DESC LIMIT 1 OFFSET ?]
    with [.get]: the row, or [undefined] ([None]). *)
Definition retrieveCheckpoint (db : Database) (idx : Z)
    : option CheckpointRow :=
  hd_error
    (OrderBy.limit 1
       (OrderBy.offset idx (OrderBy.descending cp_createdAt (Checkpoint db)))).

End CheckpointQueries.

(* ================================================================== *)
(** ** SQLiteAgentStateStorage: listing *)
(* ================================================================== *)

Module AgentStateList.
Import JS AgentState.

Record AgentCheckpointListItem : Type := {
  li_id : string;
  li_name : string;
  li_agentId : string;
  li_createdAt : Z
}.

(** [SELECT id, agentId, name, createdAt FROM AgentState
     ORDER BY createdAt DESC] with [.all()], on a file nobody else
    holds. *)
Definition select_all (d : Database)
    : completion (list AgentStateRow) * Database :=
  (Return (OrderBy.descending createdAt (AgentState d)), d).

Definition list_item (row : AgentStateRow) : AgentCheckpointListItem :=
  {| li_id := toString (id row);
     li_name := name row;
     li_agentId := agentId row;
     li_createdAt := createdAt row |}.

Definition listCheckpoints (s : SQLiteAgentStateStorage)
    : completion (list AgentCheckpointListItem) * SQLiteAgentStateStorage :=
  let '(r, d, _) :=
    retryOnBusy (maxRetries s) (retryDelayMs s) select_all (db s) in
  (bind r (fun rows => Return (map list_item rows)), with_db s d).

(** The time a run of the wrapper spends waiting. *)
Definition total_sleep (tr : list event) : Z :=
  fold_right Z.add 0 (sleeps tr).

(** Attempt number [k] completes normally with [v]. *)
Definition succeeds_at {W T : Type} (operation : W -> completion T * W)
    (w : W) (k : nat) (v : T) : Prop :=
  fst (operation (world_at operation k w)) = Return v.

End AgentStateList.

(* ================================================================== *)
(** ** SQLiteCLIHistoryStorage: navigation, clear and load *)
(* ================================================================== *)

Module CLINavigation.
Import JS CLIHistory.

(** What a navigation call hands back: an entry, [null], or the
    [undefined] of an array read out of range. *)
Inductive line : Type :=
| Line (s : string)
| Null
| Undefined.

(** [this.history[i]] *)
Definition entry_at (l : list string) (i : Z) : line :=
  if i <? 0 then Undefined
  else match nth_error l (Z.to_nat i) with
       | Some s => Line s
       | None => Undefined
       end.

Definition move (h : SQLiteCLIHistoryStorage) (index : Z)
    : SQLiteCLIHistoryStorage :=
  {| config := config h; history := history h;
     historyIndex := index; issued := issued h |}.

Definition getPrevious (h : SQLiteCLIHistoryStorage)
    : line * SQLiteCLIHistoryStorage :=
  if 0 <? historyIndex h then
    let h' := move h (historyIndex h - 1) in
    (entry_at (history h') (historyIndex h'), h')
  else (Null, h).

(** [getNext()].  [currentLine] is the field of the base class that the
    method reads and this class never writes; the model takes its value
    as an argument. *)
Definition getNext (h : SQLiteCLIHistoryStorage) (currentLine : line)
    : line * SQLiteCLIHistoryStorage :=
  let len := Z.of_nat (List.length (history h)) in
  if historyIndex h <? len - 1 then
    let h' := move h (historyIndex h + 1) in
    (entry_at (history h') (historyIndex h'), h')
  else if historyIndex h =? len - 1 then
    (currentLine, move h (historyIndex h + 1))
  else (Null, h).

Definition clear (h : SQLiteCLIHistoryStorage) : SQLiteCLIHistoryStorage :=
  {| config := config h; history := []; historyIndex := 0;
     issued := issued h ++ [DeleteAll] |}.

(** [load()], given what [SELECT command FROM CommandHistory ORDER BY
    timestamp DESC LIMIT ?] yields: the commands newest first, or the
    error the statement raised. *)
Definition load (h : SQLiteCLIHistoryStorage)
    (rows : completion (list string)) : SQLiteCLIHistoryStorage :=
  match rows with
  | Return rows =>
      {| config := config h; history := rev rows;
         historyIndex := Z.of_nat (List.length (rev rows));
         issued := issued h |}
  | Throw _ =>
      {| config := config h; history := []; historyIndex := 0;
         issued := issued h |}
  end.

(** [n] calls of [getPrevious] in a row: what they return, and the
    store they leave. *)
Fixpoint previous_lines (n : nat) (h : SQLiteCLIHistoryStorage)
    : list line * SQLiteCLIHistoryStorage :=
  match n with
  | O => ([], h)
  | S n' =>
      let (l, h') := getPrevious h in
      let (ls, h'') := previous_lines n' h' in
      (l :: ls, h'')
  end.

(** The cursor is at an entry or just past the last one. *)
Definition cursor_in_range (h : SQLiteCLIHistoryStorage) : Prop :=
  0 <= historyIndex h <= Z.of_nat (List.length (history h)).

End CLINavigation.

(* ================================================================== *)
(** ** SQLiteChatHistoryStorage: searchMessages *)
(* ================================================================== *)

Module ChatSearch.
Import JS Sqlite.

(** LIKE folds the ASCII letters and no others. *)
Definition fold_case (c : ascii) : ascii :=
  let n := nat_of_ascii c in
  if (Nat.leb 97 n && Nat.leb n 122)%bool then ascii_of_nat (n - 32) else c.

Definition same_letter (c d : ascii) : bool :=
  Ascii.eqb (fold_case c) (fold_case d).

(** [text LIKE pattern] without ESCAPE: [%] stands for any run of
    characters, [_] for any one character, every other character for
    itself up to ASCII case. *)
Fixpoint like (pattern text : list ascii) {struct pattern} : bool :=
  match pattern with
  | [] => match text with [] => true | _ :: _ => false end
  | p :: pattern' =>
      if Ascii.eqb p "%" then
        (fix any_run (t : list ascii) : bool :=
           (like pattern' t
            || match t with
               | [] => false
               | _ :: t' => any_run t'
               end)%bool) text
      else
        match text with
        | [] => false
        | c :: text' =>
            ((Ascii.eqb p "_" || same_letter p c) && like pattern' text')%bool
        end
  end.

(** The parameter [`%${keyword}%`]. *)
Definition pattern_of (keyword : string) : list ascii :=
  "%"%char :: list_ascii_of_string keyword ++ ["%"%char].

(** [request LIKE ? OR response LIKE ?]; a NULL response matches
    nothing. *)
Definition matches (keyword : string) (cm : ChatMessageRow) : bool :=
  (like (pattern_of keyword) (list_ascii_of_string (request cm))
   || match response cm with
      | Some text => like (pattern_of keyword) (list_ascii_of_string text)
      | None => false
      end)%bool.

Definition searchMessages (db : Database) (keyword : string)
    : list ChatMessageRow :=
  if String.eqb keyword EmptyString then []
  else OrderBy.limit 20
         (OrderBy.descending createdAt
            (filter (matches keyword) (ChatMessage db))).

(** [keyword] occurs in [text], ASCII case aside. *)
Definition occurs_in (keyword text : list ascii) : Prop :=
  exists before found after,
    text = before ++ found ++ after
    /\ Forall2 (fun k c => same_letter k c = true) keyword found.

(** Neither [%] nor [_] occurs in the keyword. *)
Definition literal (keyword : list ascii) : Prop :=
  forall k, In k keyword -> Ascii.eqb k "%" = false /\ Ascii.eqb k "_" = false.

End ChatSearch.

(* ================================================================== *)
(** ** The CommandHistory table behind the command history *)
(* ================================================================== *)

Module CommandHistoryTable.
Import CLIHistory.

Record CommandHistoryRow : Type := {
  id : Z;
  command : string;
  timestamp : Z
}.

(** CommandHistory(id INTEGER PRIMARY KEY AUTOINCREMENT, command,
    timestamp): the rows in rowid order and the counter. *)
Record Table : Type := {
  rows : list CommandHistoryRow;
  seq : Z
}.

(** What each statement the store issues does to the table.
    [DeleteAllButNewest keep] is [DELETE FROM CommandHistory WHERE id NOT
    IN (SELECT id FROM CommandHistory ORDER BY timestamp DESC LIMIT
    keep)]. *)
Definition execute (t : Table) (st : statement) : Table :=
  match st with
  | InsertCommand c stamp =>
      let rowid := Sqlite.next_rowid (seq t) (map id (rows t)) in
      {| rows := rows t ++ [{| id := rowid; command := c;
                               timestamp := stamp |}];
         seq := rowid |}
  | DeleteAllButNewest keep =>
      let newest :=
        map id (OrderBy.limit keep (OrderBy.descending timestamp (rows t))) in
      {| rows := filter (fun r => existsb (Z.eqb (id r)) newest) (rows t);
         seq := seq t |}
  | DeleteAll => {| rows := []; seq := seq t |}
  end.

Definition run (t : Table) (statements : list statement) : Table :=
  fold_left execute statements t.

(** The table after the statements a store has issued so far, starting
    from [t0]. *)
Definition durable (t0 : Table) (h : SQLiteCLIHistoryStorage) : Table :=
  run t0 (issued h).

(** [SELECT command FROM CommandHistory ORDER BY timestamp DESC LIMIT ?] *)
Definition select_newest (t : Table) (limit : Z) : list string :=
  map command (OrderBy.limit limit (OrderBy.descending timestamp (rows t))).

(** [load()] on a handle over the table [t]. *)
Definition reload (h : SQLiteCLIHistoryStorage) (t : Table)
    : SQLiteCLIHistoryStorage :=
  CLINavigation.load h (JS.Return (select_newest t (limit (config h)))).

(** The cache lists the commands of the table, oldest first. *)
Definition mirrors (h : SQLiteCLIHistoryStorage) (t : Table) : Prop :=
  history h = map command (rows t).

(** Rowid order is strict timestamp order, and rowids are unique. *)
Definition well_dated (t : Table) : Prop :=
  StronglySorted (fun a b => timestamp a < timestamp b) (rows t)
  /\ NoDup (map id (rows t)).

(** The clock values of a run of calls increase strictly and lie after
    every timestamp of the table. *)
Definition later_than (t : Table) (calls : list (Z * string)) : Prop :=
  StronglySorted Z.lt (map fst calls)
  /\ forall r now, In r (rows t) -> In now (map fst calls) ->
                   timestamp r < now.

End CommandHistoryTable.

(* ================================================================== *)
(** ** Further scenarios *)
(* ================================================================== *)

Module Scenarios.
Import JS Sqlite.

(** An operation that finds the file locked twice and then completes
    with the number of calls made before it. *)
Definition busy_then_ok (calls : nat) : completion nat * nat :=
  if Nat.ltb calls 2
  then (Throw (DriverError "SQLITE_BUSY"), S calls)
  else (Return calls, S calls).

(** The table behind [Fixtures.small_history]. *)
Definition small_table : CommandHistoryTable.Table :=
  {| CommandHistoryTable.rows :=
       [{| CommandHistoryTable.id := 1;
           CommandHistoryTable.command := "ls";
           CommandHistoryTable.timestamp := 5 |};
        {| CommandHistoryTable.id := 2;
           CommandHistoryTable.command := "pwd";
           CommandHistoryTable.timestamp := 6 |}];
     CommandHistoryTable.seq := 2 |}.

(** Five commands typed at five different instants. *)
Definition five_dated_commands : list (Z * string) :=
  [(10, "a"); (11, "b"); (12, "c"); (13, "d"); (14, "e")].

Definition checkpoint_at (i stamp : Z) : CheckpointRow :=
  {| cp_id := i; cp_label := "cp"; cp_messageId := Integer 1;
     cp_createdAt := stamp |}.

(** Three checkpoints X, Y, Z made at seconds 1, 2 and 3, read at
    second 5. *)
Definition three_checkpoints : Database :=
  {| ChatSession := []; ChatMessage := [];
     Checkpoint := [checkpoint_at 1 1000; checkpoint_at 2 2000;
                    checkpoint_at 3 3000];
     seq_ChatSession := 0; seq_ChatMessage := 0; seq_Checkpoint := 3;
     foreign_keys := false; unixepoch := 5 |}.

(** The agent store after two checkpoints of the same agent. *)
Definition two_checkpoints : AgentState.SQLiteAgentStateStorage :=
  snd (AgentState.storeCheckpoint (H := Model.host)
         (snd (AgentState.storeCheckpoint (H := Model.host)
                 Fixtures.empty_agent_store
                 (Fixtures.session_1 (JNumber 1))))
         (Fixtures.session_1 (JNumber 2))).

(** A session of three turns created at seconds 1, 2 and 3, and a turn
    of another session. *)
Definition dated_turn (i session stamp : Z) (prev : value)
    : ChatMessageRow :=
  {| id := i; previousMessageId := prev; sessionId := session;
     request := "{}"; response := None;
     createdAt := stamp; updatedAt := stamp |}.

Definition thread_db : Database :=
  Fixtures.database_of
    [dated_turn 1 1 1000 Null; dated_turn 2 1 2000 (Integer 1);
     dated_turn 3 2 2500 Null; dated_turn 4 1 3000 (Integer 2)].

(** The database after a first turn and a reply to it. *)
Definition after_first_turn : Database :=
  snd (ChatMessageStorage.storeChat (H := Model.host)
         (Fixtures.database_of []) None
         Fixtures.hello_request Fixtures.hello_response).

Definition first_turn : ChatMessageStorage.StoredChatMessage :=
  {| ChatMessageStorage.id := "1";
     ChatMessageStorage.sessionId := "2";
     ChatMessageStorage.request := Fixtures.hello_request;
     ChatMessageStorage.response := Fixtures.hello_response;
     ChatMessageStorage.previousMessageId := None;
     ChatMessageStorage.createdAt := None;
     ChatMessageStorage.updatedAt := None |}.

Definition reply_request : JSON :=
  JObject [("messages",
            JArray [JObject [("role", JString "user");
                             ("content", JString "And then?")]])].

Definition reply_turn : ChatMessageStorage.StoredChatMessage :=
  {| ChatMessageStorage.id := "2";
     ChatMessageStorage.sessionId := "2";
     ChatMessageStorage.request := reply_request;
     ChatMessageStorage.response := Fixtures.hello_response;
     ChatMessageStorage.previousMessageId := Some "1";
     ChatMessageStorage.createdAt := None;
     ChatMessageStorage.updatedAt := None |}.

Definition after_reply : Database :=
  snd (ChatMessageStorage.storeChat (H := Model.host)
         after_first_turn (Some first_turn)
         reply_request Fixtures.hello_response).

(** One session opened at second 1, read at second 7. *)
Definition one_old_session : Database :=
  {| ChatSession := [{| cs_id := 1; cs_title := Text "t";
                        cs_createdAt := 1000 |}];
     ChatMessage := []; Checkpoint := [];
     seq_ChatSession := 1; seq_ChatMessage := 0; seq_Checkpoint := 0;
     foreign_keys := true; unixepoch := 7 |}.

End Scenarios.

(* ================================================================== *)
(** * Properties *)
(* ================================================================== *)

Import JS Sqlite.

(** ** Ancestry reconstruction *)

Section Ancestry.
Import ChatHistory.
Context `{Host}.

Lemma filter_none {A} (f : A -> bool) (l : list A) :
  (forall a, In a l -> f a = false) -> filter f l = [].
Proof.
  intros Hf. rewrite (filter_ext_in f (fun _ => false)) by assumption.
  apply filter_false.
Qed.

(** A primary key selects at most its own row. *)
Lemma select_by_key (tbl : list ChatMessageRow) (r : ChatMessageRow) :
  NoDup (map id tbl) -> In r tbl ->
  filter (fun cm => eq_true (Integer (id cm)) (Integer (id r))) tbl = [r].
Proof.
  induction tbl as [|x tbl IH]; intros Hnd Hin; [destruct Hin|].
  inversion Hnd as [|? ? Hx Hnd']; subst. simpl filter.
  destruct Hin as [->|Hin].
  - simpl. rewrite Z.eqb_refl. f_equal.
    apply filter_none.
    intros y Hy. apply Z.eqb_neq. intros E.
    apply Hx. rewrite <- E. now apply in_map.
  - simpl. destruct (Z.eqb_spec (id x) (id r)) as [E|_].
    + exfalso. apply Hx. rewrite E. now apply in_map.
    + now apply IH.
Qed.

(** A key held by no row selects nothing. *)
Lemma select_absent (tbl : list ChatMessageRow) (v : value) :
  (forall r, In r tbl -> Integer (id r) <> v) ->
  filter (fun cm => eq_true (Integer (id cm)) v) tbl = [].
Proof.
  intros Hno. apply filter_none. intros r Hr.
  destruct v as [|z|s]; simpl; trivial.
  apply Z.eqb_neq. intros E. apply (Hno r Hr). now rewrite E.
Qed.

Lemma lineage_head_stored tbl r l : lineage tbl (r :: l) -> In r tbl.
Proof. now inversion 1. Qed.

(** The recursive query walks a lineage from its first row upwards and
    produces it in that order. *)
Lemma message_history_lineage tbl l :
  NoDup (map id tbl) -> lineage tbl l ->
  forall fuel, (List.length l <= fuel)%nat ->
    message_history fuel tbl (firstn 1 l) = Some l.
Proof.
  intros Hnd Hl. induction Hl as [r Hin Hnull | r p l Hin Hprev Hl IH];
    intros fuel Hfuel; (destruct fuel as [|fuel]; [simpl in Hfuel; lia|]).
  - assert (Hnone : recursive_select tbl r = []).
    { unfold recursive_select. rewrite Hnull.
      apply select_absent. intros; discriminate. }
    cbn [firstn message_history]. rewrite Hnone. cbn [app].
    now destruct fuel.
  - assert (Hone : recursive_select tbl r = [p]).
    { unfold recursive_select. rewrite Hprev.
      apply select_by_key; eauto using lineage_head_stored. }
    cbn [firstn message_history]. rewrite Hone.
    specialize (IH fuel ltac:(simpl in *; lia)).
    cbn [firstn] in IH. cbn [app]. now rewrite IH.
Qed.

(** A row from which the links never run out keeps the queue of the
    recursive query non-empty for ever. *)
Lemma message_history_unbounded tbl (P : ChatMessageRow -> Prop) :
  (forall r, P r -> exists p, parent_of tbl r p /\ P p) ->
  forall fuel queue, (exists r, In r queue /\ P r) ->
    message_history fuel tbl queue = None.
Proof.
  intros Hstep. induction fuel as [|fuel IH]; intros queue [r [Hin HP]].
  - destruct queue; [destruct Hin | reflexivity].
  - destruct queue as [|mh rest]; [destruct Hin|]. simpl.
    rewrite IH; [reflexivity|].
    destruct Hin as [->|Hin].
    + destruct (Hstep r HP) as [p [[Hp Hlink] HPp]].
      exists p. split; [|assumption].
      apply in_or_app. right. unfold recursive_select.
      apply filter_In. split; [assumption|].
      rewrite Hlink. simpl. apply Z.eqb_refl.
    + exists r. split; [|assumption]. apply in_or_app. now left.
Qed.

Lemma cycle_never_runs_out tbl r :
  (exists c, reaches tbl r c /\ on_cycle tbl c) ->
  exists p, parent_of tbl r p /\ (exists c, reaches tbl p c /\ on_cycle tbl c).
Proof.
  intros [c [Hreach Hcyc]]. destruct Hreach as [r | r p c Hp Hreach].
  - destruct Hcyc as [p [Hp Hback]]. exists p. split; [assumption|].
    exists r. split; [assumption|]. now exists p.
  - exists p. split; [assumption|]. now exists c.
Qed.

End Ancestry.

(** C1 (amended).  For a stored chain root <- A <- B <- C (each turn's
    previousMessageId is the id of the one before it, root's is NULL, ids
    are the primary key), [getChatHistoryByMessageId] called with C's id
    returns exactly the four turns in target-to-root order, newest first:
    [C; B; A; root]. *)
Theorem ancestry_is_target_to_root `{Host} (db : Database)
    (root A B C : ChatMessageRow) (messageId : string) (fuel : nat) :
  NoDup (map id (ChatMessage db)) ->
  In root (ChatMessage db) -> In A (ChatMessage db) ->
  In B (ChatMessage db) -> In C (ChatMessage db) ->
  previousMessageId root = Null ->
  previousMessageId A = Integer (id root) ->
  previousMessageId B = Integer (id A) ->
  previousMessageId C = Integer (id B) ->
  text_to_integer messageId = Some (id C) ->
  (4 <= fuel)%nat ->
  ChatHistory.getChatHistoryByMessageId fuel db messageId
  = Some (Return [C; B; A; root]).
Proof.
  intros Hnd Hroot HA HB HC Lroot LA LB LC Hid Hfuel.
  unfold ChatHistory.getChatHistoryByMessageId, ChatHistory.initial_select.
  simpl integer_affinity. rewrite Hid.
  rewrite select_by_key by assumption.
  assert (Hl : ChatHistory.lineage (ChatMessage db) [C; B; A; root])
    by (repeat (constructor; try assumption)).
  pose proof (message_history_lineage _ _ Hnd Hl fuel Hfuel) as Hrun.
  cbn [firstn] in Hrun. now rewrite Hrun.
Qed.

Lemma ancestry_is_target_to_root_witness :
  ChatHistory.getChatHistoryByMessageId (H := Model.host) 4
    Fixtures.chain_db "4"
  = Some (Return [Fixtures.C; Fixtures.B; Fixtures.A; Fixtures.root]).
Proof.
  apply (ancestry_is_target_to_root (H := Model.host) Fixtures.chain_db
           Fixtures.root Fixtures.A Fixtures.B Fixtures.C "4" 4%nat).
  - simpl. repeat (apply NoDup_cons; [simpl; intuition lia|]).
    apply NoDup_nil.
  - simpl; auto.
  - simpl; auto.
  - simpl; auto.
  - simpl; auto.
  - reflexivity.
  - reflexivity.
  - reflexivity.
  - reflexivity.
  - reflexivity.
  - lia.
Defined.

(** On the chain root <- A <- B <- C the query on C's id yields
    [C; B; A; root], and under no step budget does it yield the
    root-first list. *)
Lemma ancestry_not_root_first :
  ChatHistory.getChatHistoryByMessageId (H := Model.host) 4
    Fixtures.chain_db "4"
  = Some (Return [Fixtures.C; Fixtures.B; Fixtures.A; Fixtures.root])
  /\ ~ (exists fuel,
         ChatHistory.getChatHistoryByMessageId (H := Model.host) fuel
           Fixtures.chain_db "4"
         = Some (Return [Fixtures.root; Fixtures.A; Fixtures.B; Fixtures.C])).
Proof.
  split; [reflexivity|].
  intros [fuel Hrun].
  destruct fuel as [|[|[|[|[|fuel]]]]]; vm_compute in Hrun; discriminate.
Qed.

(** C2 (amended).  When following previousMessageId links from the
    requested turn reaches a turn that lies on a cycle,
    [getChatHistoryByMessageId] does not terminate: under every step
    budget the recursive query is still running, so it neither returns a
    list nor raises an error. *)
Theorem ancestry_cycle_diverges `{Host} (db : Database)
    (start : ChatMessageRow) (messageId : string) :
  In start (ChatMessage db) ->
  text_to_integer messageId = Some (id start) ->
  (exists c, ChatHistory.reaches (ChatMessage db) start c
             /\ ChatHistory.on_cycle (ChatMessage db) c) ->
  forall fuel,
    ChatHistory.getChatHistoryByMessageId fuel db messageId = None.
Proof.
  intros Hin Hid Hcyc fuel.
  unfold ChatHistory.getChatHistoryByMessageId.
  rewrite (message_history_unbounded (ChatMessage db)
             (fun r => exists c, ChatHistory.reaches (ChatMessage db) r c
                                 /\ ChatHistory.on_cycle (ChatMessage db) c)).
  - reflexivity.
  - intros r. apply cycle_never_runs_out.
  - exists start. split; [|assumption].
    unfold ChatHistory.initial_select. apply filter_In. split; [assumption|].
    simpl. rewrite Hid. simpl. apply Z.eqb_refl.
Qed.

Lemma loop_db_on_cycle :
  ChatHistory.on_cycle (ChatMessage Fixtures.loop_db)
    (Fixtures.turn 1 (Integer 2)).
Proof.
  exists (Fixtures.turn 2 (Integer 1)). split.
  - split; [simpl; auto | reflexivity].
  - eapply ChatHistory.reaches_up; [|apply ChatHistory.reaches_here].
    split; [simpl; auto | reflexivity].
Qed.

Lemma ancestry_cycle_diverges_witness :
  ChatHistory.getChatHistoryByMessageId (H := Model.host) 1000
    Fixtures.loop_db "1" = None.
Proof.
  refine (ancestry_cycle_diverges (H := Model.host) Fixtures.loop_db
            (Fixtures.turn 1 (Integer 2)) "1" _ _ _ 1000%nat).
  - simpl; auto.
  - reflexivity.
  - exists (Fixtures.turn 1 (Integer 2)). split.
    + apply ChatHistory.reaches_here.
    + apply loop_db_on_cycle.
Defined.

(** With A.previousMessageId = B.id and B.previousMessageId = A.id, no
    step budget lets the call on A's id finish, be it with a list or with
    an error. *)
Lemma ancestry_cycle_never_fails :
  ~ (exists fuel,
       ChatHistory.getChatHistoryByMessageId (H := Model.host) fuel
         Fixtures.loop_db "1" <> None).
Proof.
  intros [fuel Hrun]. apply Hrun.
  unfold ChatHistory.getChatHistoryByMessageId.
  rewrite (message_history_unbounded (ChatMessage Fixtures.loop_db)
             (fun r => In r (ChatMessage Fixtures.loop_db))).
  - reflexivity.
  - intros r [<-|[<-|[]]].
    + exists (Fixtures.turn 2 (Integer 1)).
      repeat split; simpl; auto.
    + exists (Fixtures.turn 1 (Integer 2)).
      repeat split; simpl; auto.
  - exists (Fixtures.turn 1 (Integer 2)). split; simpl; auto.
Qed.

(** C5 (amended).  For a turn id that no stored turn carries,
    [getChatHistoryByMessageId] succeeds and returns the empty list; it
    raises no error. *)
Theorem ancestry_unknown_id_is_empty `{Host} (db : Database)
    (messageId : string) (fuel : nat) :
  (forall r, In r (ChatMessage db) ->
             Integer (id r) <> integer_affinity (Text messageId)) ->
  ChatHistory.getChatHistoryByMessageId fuel db messageId = Some (Return []).
Proof.
  intros Hno. unfold ChatHistory.getChatHistoryByMessageId.
  unfold ChatHistory.initial_select. rewrite select_absent by assumption.
  now destruct fuel.
Qed.

Lemma ancestry_unknown_id_is_empty_witness :
  ChatHistory.getChatHistoryByMessageId (H := Model.host) 0
    Fixtures.chain_db "7" = Some (Return []).
Proof.
  apply (ancestry_unknown_id_is_empty (H := Model.host) Fixtures.chain_db
           "7" 0%nat).
  simpl. intros r [<-|[<-|[<-|[<-|[]]]]]; discriminate.
Defined.

(** Asking the chain database for turn 7, which it does not hold,
    returns the empty list and not an error. *)
Lemma ancestry_unknown_id_no_error :
  ChatHistory.getChatHistoryByMessageId (H := Model.host) 1
    Fixtures.chain_db "7" = Some (Return [])
  /\ ~ (exists fuel e,
         ChatHistory.getChatHistoryByMessageId (H := Model.host) fuel
           Fixtures.chain_db "7" = Some (Throw e)).
Proof.
  split; [reflexivity|].
  intros [fuel [e Hrun]]. destruct fuel; vm_compute in Hrun; discriminate.
Qed.

(** ** The busy-retry wrapper *)

Section RetryFacts.
Import AgentState.
Context {W T : Type}.
Variables (maxRetries retryDelayMs : Z).
Variable operation : W -> completion T * W.

Lemma busy_at_shift w k :
  busy_at operation w (S k) -> busy_at operation (snd (operation w)) k.
Proof. trivial. Qed.

Lemma retry_loop_success n i w v w' :
  operation w = (Return v, w') ->
  retry_loop maxRetries retryDelayMs operation (S n) i w
  = (Return v, w', [Attempt i]).
Proof. intros Hop. simpl. now rewrite Hop. Qed.

Lemma retry_loop_exhausted n :
  forall i w,
    (1 <= n)%nat -> i + Z.of_nat n = maxRetries ->
    (forall k, (k < n)%nat -> busy_at operation w k) ->
    retry_loop maxRetries retryDelayMs operation n i w
    = (fst (operation (world_at operation (n - 1) w)),
       snd (operation (world_at operation (n - 1) w)),
       linear_backoff retryDelayMs i n).
Proof.
  induction n as [|n IH]; intros i w Hn Hi Hbusy; [lia|].
  destruct (Hbusy 0%nat ltac:(lia)) as [e [He Hb]].
  assert (Hnext : forall k, (S k < S n)%nat ->
                            busy_at operation (snd (operation w)) k)
    by (intros k Hk; apply busy_at_shift, Hbusy; assumption).
  cbn [world_at] in He.
  cbn [retry_loop]. destruct (operation w) as [r w'] eqn:Hop.
  cbn [fst snd] in He, Hnext. subst r. rewrite Hb. cbn [andb].
  destruct n as [|n].
  - replace (i <? maxRetries - 1) with false
      by (symmetry; apply Z.ltb_ge; lia).
    cbn. now rewrite Hop.
  - replace (i <? maxRetries - 1) with true
      by (symmetry; apply Z.ltb_lt; lia).
    rewrite (IH (i + 1) w') by
      (try lia; intros k Hk; apply Hnext; lia).
    replace (S (S n) - 1)%nat with (S (S n - 1)) by lia.
    cbn [world_at]. rewrite Hop. reflexivity.
Qed.

Lemma retry_loop_fatal k :
  forall n i w e,
    (k < n)%nat -> i + Z.of_nat n = maxRetries ->
    (forall j, (j < k)%nat -> busy_at operation w j) ->
    fst (operation (world_at operation k w)) = Throw e ->
    is_busy e = false ->
    retry_loop maxRetries retryDelayMs operation n i w
    = (Throw e, snd (operation (world_at operation k w)),
       linear_backoff retryDelayMs i (S k)).
Proof.
  induction k as [|k IH]; intros n i w e Hk Hi Hbusy He Hfatal;
    (destruct n as [|n]; [lia|]).
  - cbn [world_at] in *. cbn [retry_loop].
    destruct (operation w) as [r w'] eqn:Hop. cbn [fst snd] in *. subst r.
    rewrite Hfatal. reflexivity.
  - destruct (Hbusy 0%nat ltac:(lia)) as [e0 [He0 Hb]].
    assert (Hnext : forall j, (S j < S k)%nat ->
                              busy_at operation (snd (operation w)) j)
      by (intros j Hj; apply busy_at_shift, Hbusy; assumption).
    cbn [world_at] in He0, He |- *. cbn [retry_loop].
    destruct (operation w) as [r w'] eqn:Hop. cbn [fst snd] in *. subst r.
    rewrite Hb. cbn [andb].
    replace (i <? maxRetries - 1) with true
      by (symmetry; apply Z.ltb_lt; lia).
    rewrite (IH n (i + 1) w' e); try lia; try assumption.
    + reflexivity.
    + intros j Hj. apply Hnext. lia.
Qed.

End RetryFacts.

Lemma linear_backoff_attempts d n :
  forall i, AgentState.attempts (AgentState.linear_backoff d i n) = n.
Proof.
  induction n as [|n IH]; intros i; [reflexivity|].
  destruct n as [|n]; [reflexivity|].
  change (S (AgentState.attempts (AgentState.linear_backoff d (i + 1) (S n)))
          = S (S n)).
  now rewrite IH.
Qed.

Lemma linear_backoff_sleeps d n :
  forall i,
    AgentState.sleeps (AgentState.linear_backoff d i n)
    = map (fun j => d * (i + Z.of_nat j)) (seq 1 (n - 1)).
Proof.
  induction n as [|n IH]; intros i; [reflexivity|].
  destruct n as [|n]; [reflexivity|].
  change (d * (i + 1)
            :: AgentState.sleeps (AgentState.linear_backoff d (i + 1) (S n))
          = map (fun j => d * (i + Z.of_nat j)) (seq 1 (S (S n) - 1))).
  rewrite IH.
  replace (S (S n) - 1)%nat with (S (S n - 1)) by lia.
  cbn [seq map]. f_equal.
  rewrite <- (seq_shift (S n - 1) 1), map_map.
  apply map_ext. intros j. f_equal. lia.
Qed.

(** C4.  Under [retryOnBusy] with [maxRetries >= 1]: when every attempt
    raises a busy error, the operation is attempted exactly [maxRetries]
    times, the wrapper sleeps [retryDelayMs * k] after failed attempt
    number [k] (linear backoff, between consecutive attempts only), and
    the completion of the final attempt, its busy error, is passed on
    unmodified; an error that is not busy is raised at its first
    occurrence, with no further attempt and no sleep after it. *)
Theorem retry_on_busy_contract {W T : Type} (maxRetries retryDelayMs : Z)
    (operation : W -> completion T * W) (w : W) :
  1 <= maxRetries ->
  ((forall k, (k < Z.to_nat maxRetries)%nat ->
              AgentState.busy_at operation w k) ->
   AgentState.retryOnBusy maxRetries retryDelayMs operation w
   = (fst (operation
             (AgentState.world_at operation (Z.to_nat maxRetries - 1) w)),
      snd (operation
             (AgentState.world_at operation (Z.to_nat maxRetries - 1) w)),
      AgentState.linear_backoff retryDelayMs 0 (Z.to_nat maxRetries))
   /\ AgentState.busy_at operation w (Z.to_nat maxRetries - 1)
   /\ AgentState.attempts
        (AgentState.linear_backoff retryDelayMs 0 (Z.to_nat maxRetries))
      = Z.to_nat maxRetries
   /\ AgentState.sleeps
        (AgentState.linear_backoff retryDelayMs 0 (Z.to_nat maxRetries))
      = map (fun k => retryDelayMs * Z.of_nat k)
          (seq 1 (Z.to_nat maxRetries - 1)))
  /\
  (forall k e,
     (k < Z.to_nat maxRetries)%nat ->
     (forall j, (j < k)%nat -> AgentState.busy_at operation w j) ->
     fst (operation (AgentState.world_at operation k w)) = Throw e ->
     AgentState.is_busy e = false ->
     AgentState.retryOnBusy maxRetries retryDelayMs operation w
     = (Throw e, snd (operation (AgentState.world_at operation k w)),
        AgentState.linear_backoff retryDelayMs 0 (S k))).
Proof.
  intros Hmax. split.
  - intros Hbusy. unfold AgentState.retryOnBusy. repeat split.
    + apply retry_loop_exhausted; [lia | lia | assumption].
    + apply Hbusy. lia.
    + apply linear_backoff_attempts.
    + rewrite linear_backoff_sleeps. apply map_ext. intros k. f_equal.
  - intros k e Hk Hbusy He Hfatal. unfold AgentState.retryOnBusy.
    apply retry_loop_fatal; [assumption | lia | assumption..].
Qed.

(** Two busy attempts and then a full disk: the third error is raised
    as it is, after the two pauses and with no pause behind it. *)
Example busy_twice_then_full :
  AgentState.retryOnBusy 5 100 Fixtures.busy_then_full 0%nat
  = (Throw (DriverError "SQLITE_FULL"), 3%nat,
     [AgentState.Attempt 0; AgentState.Sleep 100; AgentState.Attempt 1;
      AgentState.Sleep 200; AgentState.Attempt 2]).
Proof. reflexivity. Qed.

(** Without any attempt allowed the wrapper raises its own error. *)
Example no_attempt_allowed :
  AgentState.retryOnBusy 0 100 Fixtures.always_busy 0%nat
  = (Throw (Error "Max retries reached"), 0%nat, []).
Proof. reflexivity. Qed.

Lemma retry_on_busy_contract_witness :
  AgentState.retryOnBusy 3 100 Fixtures.always_busy 0%nat
  = (Throw (DriverError "SQLITE_BUSY"), 3%nat,
     [AgentState.Attempt 0; AgentState.Sleep 100; AgentState.Attempt 1;
      AgentState.Sleep 200; AgentState.Attempt 2]).
Proof.
  refine (proj1 (proj1 (retry_on_busy_contract 3 100 Fixtures.always_busy
                          0%nat _) _)).
  - lia.
  - intros k _. exists (DriverError "SQLITE_BUSY"). split; reflexivity.
Defined.

(** ** The agent-state table *)

Lemma retryOnBusy_success {W T : Type} (maxRetries retryDelayMs : Z)
    (operation : W -> completion T * W) (w w' : W) (v : T) :
  1 <= maxRetries ->
  operation w = (Return v, w') ->
  AgentState.retryOnBusy maxRetries retryDelayMs operation w
  = (Return v, w', [AgentState.Attempt 0]).
Proof.
  intros Hmax Hop. unfold AgentState.retryOnBusy.
  destruct (Z.to_nat maxRetries) as [|n] eqn:Hn; [lia|].
  now apply retry_loop_success.
Qed.

Lemma next_rowid_above_seq (seq : Z) (rowids : list Z) :
  seq < next_rowid seq rowids.
Proof.
  unfold next_rowid. induction rowids as [|x l IH]; simpl in *; lia.
Qed.

Lemma next_rowid_fresh (seq : Z) (rowids : list Z) (i : Z) :
  In i rowids -> i < next_rowid seq rowids.
Proof.
  unfold next_rowid. induction rowids as [|x l IH]; intros Hin;
    [destruct Hin|].
  simpl. destruct Hin as [->|Hin]; [lia|]. specialize (IH Hin). lia.
Qed.

(** No stored row collides with the rowid AUTOINCREMENT hands out, so
    OR REPLACE finds nothing to replace. *)
Lemma replace_deletes_nothing (d : AgentState.Database) :
  filter (fun r => negb (AgentState.id r
                         =? next_rowid (AgentState.seq_AgentState d)
                              (map AgentState.id (AgentState.AgentState d))))
    (AgentState.AgentState d)
  = AgentState.AgentState d.
Proof.
  rewrite (filter_ext_in _ (fun _ => true)).
  - induction (AgentState.AgentState d) as [|x l IH]; simpl; congruence.
  - intros r Hr. apply negb_true_iff, Z.eqb_neq.
    pose proof (next_rowid_fresh (AgentState.seq_AgentState d) _ _
                  (in_map AgentState.id _ _ Hr)).
    lia.
Qed.

Lemma find_never {A} (f : A -> bool) (l : list A) :
  (forall a, In a l -> f a = false) -> find f l = None.
Proof.
  induction l as [|x l IH]; intros Hf; [reflexivity|].
  simpl. rewrite (Hf x) by (now left). apply IH. intros a Ha.
  apply Hf. now right.
Qed.

Lemma storeCheckpoint_inserts `{Host} (s : AgentState.SQLiteAgentStateStorage)
    (c : AgentState.NamedAgentCheckpoint) :
  1 <= AgentState.maxRetries s ->
  let rowid :=
    next_rowid (AgentState.seq_AgentState (AgentState.db s))
      (map AgentState.id (AgentState.AgentState (AgentState.db s))) in
  let row := {| AgentState.id := rowid;
                AgentState.agentId := AgentState.nc_agentId c;
                AgentState.name := AgentState.nc_name c;
                AgentState.state := JSON_stringify (AgentState.nc_state c);
                AgentState.createdAt := AgentState.nc_createdAt c |} in
  AgentState.storeCheckpoint s c
  = (Return (toString rowid),
     AgentState.with_db s
       {| AgentState.AgentState :=
            AgentState.AgentState (AgentState.db s) ++ [row];
          AgentState.seq_AgentState := rowid |}).
Proof.
  intros Hmax rowid row. unfold AgentState.storeCheckpoint.
  erewrite retryOnBusy_success; [|assumption|reflexivity].
  cbn [bind]. rewrite replace_deletes_nothing. reflexivity.
Qed.

(** The TEXT to INTEGER conversion of the concrete host reads back
    what [toString] prints. *)
Lemma model_reads_decimal (z : Z) :
  Model.integer_of_text (toString z) = Some z.
Proof.
  unfold Model.integer_of_text, toString.
  rewrite NilZero.isi.
  - simpl. now rewrite DecimalZ.of_to.
  - destruct z; simpl; try discriminate.
    intros [= E]. now apply DecimalPos.Unsigned.to_uint_nonnil in E.
  - destruct z; simpl; try discriminate.
    intros [= E]. now apply DecimalPos.Unsigned.to_uint_nonnil in E.
Qed.

(** A lookup by a rowid larger than every stored one passes over the
    stored rows. *)
Lemma find_appended {A} (key : A -> Z) (l : list A) (row : A) :
  (forall r, In r l -> key r < key row) ->
  find (fun r => eq_true (Integer (key r)) (Integer (key row))) (l ++ [row])
  = Some row.
Proof.
  induction l as [|x l IH]; intros Hlt; simpl.
  - now rewrite Z.eqb_refl.
  - destruct (Z.eqb_spec (key x) (key row)) as [E|_].
    + pose proof (Hlt x (or_introl eq_refl)). lia.
    + apply IH. intros r Hr. apply Hlt. now right.
Qed.

(** [retrieveCheckpoint] called with an agentId that does not read as
    an integer finds no row, whatever was stored under that agentId. *)
Lemma retrieve_by_agent_id_finds_nothing `{Host}
    (s : AgentState.SQLiteAgentStateStorage)
    (checkpoint : AgentState.NamedAgentCheckpoint) :
  1 <= AgentState.maxRetries s ->
  text_to_integer (AgentState.nc_agentId checkpoint) = None ->
  fst (AgentState.retrieveCheckpoint
         (snd (AgentState.storeCheckpoint s checkpoint))
         (AgentState.nc_agentId checkpoint))
  = Return None.
Proof.
  intros Hmax Htext. rewrite storeCheckpoint_inserts by assumption.
  cbn [snd]. unfold AgentState.retrieveCheckpoint.
  erewrite retryOnBusy_success; [|assumption|reflexivity].
  cbn [fst bind]. unfold integer_affinity. rewrite Htext.
  rewrite find_never by reflexivity. reflexivity.
Qed.

(** C3 (amended).  For every payload that JSON carries faithfully and
    every checkpoint (agentId, name, payload), [storeCheckpoint] followed
    by [retrieveCheckpoint] on the row id that [storeCheckpoint] returned
    yields a stored checkpoint (not absence) with that id and name whose
    state is deep-equal to the original payload. *)
Theorem store_then_retrieve_by_row_id `{Host}
    (s : AgentState.SQLiteAgentStateStorage)
    (checkpoint : AgentState.NamedAgentCheckpoint) :
  1 <= AgentState.maxRetries s ->
  JSON_parse (JSON_stringify (AgentState.nc_state checkpoint))
  = Some (AgentState.nc_state checkpoint) ->
  (forall z, text_to_integer (toString z) = Some z) ->
  exists rowid stored,
    fst (AgentState.storeCheckpoint s checkpoint) = Return rowid
    /\ fst (AgentState.retrieveCheckpoint
              (snd (AgentState.storeCheckpoint s checkpoint)) rowid)
       = Return (Some stored)
    /\ AgentState.sc_state stored = AgentState.nc_state checkpoint
    /\ AgentState.sc_id stored = rowid
    /\ AgentState.sc_name stored = AgentState.nc_name checkpoint.
Proof.
  intros Hmax Hjson Htext. rewrite storeCheckpoint_inserts by assumption.
  cbn [fst snd]. eexists. eexists. split; [reflexivity|].
  unfold AgentState.retrieveCheckpoint.
  erewrite retryOnBusy_success; [|assumption|reflexivity].
  cbn [fst bind]. unfold integer_affinity. rewrite Htext.
  cbn [AgentState.db AgentState.with_db AgentState.AgentState].
  match goal with
  | |- context [find _ (_ ++ [?row])] =>
      rewrite (find_appended AgentState.id _ row)
  end.
  - cbn [AgentState.state]. rewrite Hjson. repeat split; reflexivity.
  - intros r Hr. cbn [AgentState.id].
    apply next_rowid_fresh. now apply in_map.
Qed.

Lemma store_then_retrieve_by_row_id_witness :
  exists rowid stored,
    fst (AgentState.storeCheckpoint (H := Model.host)
           Fixtures.empty_agent_store
           (Fixtures.session_1 (JObject [("step", JNumber 0)])))
    = Return rowid
    /\ fst (AgentState.retrieveCheckpoint (H := Model.host)
              (snd (AgentState.storeCheckpoint (H := Model.host)
                      Fixtures.empty_agent_store
                      (Fixtures.session_1 (JObject [("step", JNumber 0)]))))
              rowid)
       = Return (Some stored)
    /\ AgentState.sc_state stored = JObject [("step", JNumber 0)]
    /\ AgentState.sc_id stored = rowid
    /\ AgentState.sc_name stored = "session-1".
Proof.
  refine (store_then_retrieve_by_row_id (H := Model.host)
            Fixtures.empty_agent_store
            (Fixtures.session_1 (JObject [("step", JNumber 0)])) _ _ _).
  - simpl. lia.
  - reflexivity.
  - exact model_reads_decimal.
Defined.

(** Storing a checkpoint for agent "agent-123" under "session-1" and
    then calling [retrieveCheckpoint] with that agentId yields [null]. *)
Lemma retrieve_on_logical_key_is_absent :
  fst (AgentState.storeCheckpoint (H := Model.host)
         Fixtures.empty_agent_store
         (Fixtures.session_1 (JObject [("step", JNumber 0)])))
  = Return "1"
  /\ fst (AgentState.retrieveCheckpoint (H := Model.host)
            (snd (AgentState.storeCheckpoint (H := Model.host)
                    Fixtures.empty_agent_store
                    (Fixtures.session_1 (JObject [("step", JNumber 0)]))))
            "agent-123")
     = Return None.
Proof.
  split; [reflexivity|].
  apply (retrieve_by_agent_id_finds_nothing (H := Model.host)
           Fixtures.empty_agent_store
           (Fixtures.session_1 (JObject [("step", JNumber 0)]))).
  - simpl. lia.
  - reflexivity.
Qed.

(** C6 (what the code does).  Two [storeCheckpoint] calls with the
    same (agentId, name) add two rows under that key, the first with the
    first payload and the second with the second: OR REPLACE replaces
    nothing and the earlier row is kept. *)
Theorem store_twice_keeps_both_rows `{Host}
    (s : AgentState.SQLiteAgentStateStorage)
    (c1 c2 : AgentState.NamedAgentCheckpoint) :
  1 <= AgentState.maxRetries s ->
  AgentState.nc_agentId c2 = AgentState.nc_agentId c1 ->
  AgentState.nc_name c2 = AgentState.nc_name c1 ->
  exists r1 r2,
    AgentState.rows_of_key (AgentState.nc_agentId c1) (AgentState.nc_name c1)
      (AgentState.db
         (snd (AgentState.storeCheckpoint
                 (snd (AgentState.storeCheckpoint s c1)) c2)))
    = AgentState.rows_of_key (AgentState.nc_agentId c1)
        (AgentState.nc_name c1) (AgentState.db s) ++ [r1; r2]
    /\ AgentState.state r1 = JSON_stringify (AgentState.nc_state c1)
    /\ AgentState.state r2 = JSON_stringify (AgentState.nc_state c2)
    /\ AgentState.id r1 < AgentState.id r2.
Proof.
  intros Hmax Hagent Hname.
  rewrite (storeCheckpoint_inserts s c1) by assumption. cbn [snd].
  rewrite storeCheckpoint_inserts by assumption. cbn [snd].
  do 2 eexists. unfold AgentState.rows_of_key.
  cbn [AgentState.db AgentState.with_db AgentState.AgentState
       AgentState.seq_AgentState].
  rewrite !filter_app. cbn [filter AgentState.agentId AgentState.name].
  rewrite Hagent, Hname, !String.eqb_refl. cbn [andb].
  rewrite <- app_assoc. cbn [app].
  split; [reflexivity|]. split; [reflexivity|]. split; [reflexivity|].
  cbn [AgentState.id]. apply next_rowid_above_seq.
Qed.

Lemma store_twice_keeps_both_rows_witness :
  exists r1 r2,
    AgentState.rows_of_key "agent-123" "session-1"
      (AgentState.db
         (snd (AgentState.storeCheckpoint (H := Model.host)
                 (snd (AgentState.storeCheckpoint (H := Model.host)
                         Fixtures.empty_agent_store
                         (Fixtures.session_1 (JNumber 1))))
                 (Fixtures.session_1 (JNumber 2)))))
    = [] ++ [r1; r2]
    /\ AgentState.state r1 = "1"
    /\ AgentState.state r2 = "2"
    /\ AgentState.id r1 < AgentState.id r2.
Proof.
  refine (store_twice_keeps_both_rows (H := Model.host)
            Fixtures.empty_agent_store
            (Fixtures.session_1 (JNumber 1)) (Fixtures.session_1 (JNumber 2))
            _ _ _).
  - simpl. lia.
  - reflexivity.
  - reflexivity.
Defined.

(** ** Checkpoints *)

(** C7 (amended).  [createCheckpoint] fails with its validation error
    when the message or its id is absent (or the id is falsy); for every
    other id it inserts and returns a checkpoint that records that id,
    whether or not the id resolves to a stored turn. *)
Theorem createCheckpoint_contract `{Host} (db : Database) (label : string)
    (m : ChatCheckpoint.CurrentMessage) :
  ChatCheckpoint.createCheckpoint db label None
  = (Throw ChatCheckpoint.invalid_currentMessage, db)
  /\ (ChatCheckpoint.falsy (ChatCheckpoint.cm_id m) = true ->
      ChatCheckpoint.createCheckpoint db label (Some m)
      = (Throw ChatCheckpoint.invalid_currentMessage, db))
  /\ (forall i,
        ChatCheckpoint.cm_id m = Some i ->
        ChatCheckpoint.falsy (Some i) = false ->
        exists row db',
          ChatCheckpoint.createCheckpoint db label (Some m) = (Return row, db')
          /\ cp_label row = label
          /\ cp_messageId row = ChatCheckpoint.stored_id i
          /\ Checkpoint db' = Checkpoint db ++ [row]
          /\ ChatMessage db' = ChatMessage db).
Proof.
  split; [reflexivity|]. split.
  - intros Hfalsy. unfold ChatCheckpoint.createCheckpoint.
    destruct (ChatCheckpoint.cm_id m) as [i|]; [|reflexivity].
    now rewrite Hfalsy.
  - intros i Hid Htruthy. unfold ChatCheckpoint.createCheckpoint.
    rewrite Hid, Htruthy. cbn. do 2 eexists. repeat split.
Qed.

(** On a database without any turn, [createCheckpoint] for turn 42
    succeeds and stores a checkpoint pointing at 42. *)
Lemma createCheckpoint_unresolved_turn :
  ~ ChatCheckpoint.resolves (Fixtures.database_of []) (Integer 42)
  /\ exists row db',
       ChatCheckpoint.createCheckpoint (H := Model.host)
         (Fixtures.database_of []) "before refactor"
         (Some {| ChatCheckpoint.cm_id := Some (ChatCheckpoint.IdNumber 42) |})
       = (Return row, db')
       /\ cp_messageId row = Integer 42
       /\ Checkpoint db' = [row].
Proof.
  split.
  - intros [r [[] _]].
  - do 2 eexists. repeat split.
Qed.

(** ** The command history *)

Section HistoryFacts.
Import CLIHistory.

Lemma lastn_app_lastn {A} (n : nat) (l m : list A) :
  lastn n (lastn n l ++ m) = lastn n (l ++ m).
Proof.
  unfold lastn.
  rewrite !length_app, length_skipn.
  rewrite (skipn_app (List.length l + List.length m - n)).
  assert (Hcase : (List.length l <= n \/ n < List.length l)%nat) by lia.
  destruct Hcase as [Hle|Hlt].
  - replace (List.length l - n)%nat with 0%nat by lia.
    cbn [skipn]. rewrite Nat.sub_0_r. now rewrite skipn_app.
  - rewrite skipn_app.
    rewrite length_skipn.
    replace (List.length l - (List.length l - n) + List.length m - n)%nat
      with (List.length m) by lia.
    replace (List.length l + List.length m - n - List.length l)%nat
      with (List.length m - n + (n - n))%nat by lia.
    rewrite skipn_skipn.
    f_equal.
    + f_equal. lia.
    + f_equal. lia.
Qed.

Lemma slice_keeps_newest {A} (L : Z) (l : list A) :
  0 < L -> Z.of_nat (List.length l) > L ->
  slice (-1 * L) l = lastn (Z.to_nat L) l.
Proof.
  intros HL Hlen. unfold slice, lastn.
  replace (-1 * L <? 0) with true by (symmetry; apply Z.ltb_lt; lia).
  f_equal. lia.
Qed.

Lemma lastn_all {A} (n : nat) (l : list A) :
  (List.length l <= n)%nat -> lastn n l = l.
Proof.
  intros Hle. unfold lastn.
  now replace (List.length l - n)%nat with 0%nat by lia.
Qed.

Lemma last_entry_app (l : list string) (c : string) :
  last_entry (l ++ [c]) = Some c.
Proof.
  induction l as [|x l IH]; [reflexivity|].
  cbn [app last_entry]. destruct (l ++ [c]) eqn:E; [|assumption].
  now destruct l.
Qed.

Lemma last_entry_lastn (n : nat) (l : list string) (c : string) :
  (0 < n)%nat -> last_entry (lastn n (l ++ [c])) = Some c.
Proof.
  intros Hn. unfold lastn. rewrite length_app, skipn_app. cbn [List.length].
  replace (List.length l + 1 - n - List.length l)%nat with 0%nat by lia.
  cbn [skipn]. apply last_entry_app.
Qed.

(** A command that passes the three guards is appended, and the list
    is cut back to its newest [limit] entries. *)
Lemma add_appends (h : SQLiteCLIHistoryStorage) (now : Z) (c : string) :
  0 < effective_limit (config h) ->
  is_blank c = false -> blacklisted (config h) c = false ->
  last_entry (history h) <> Some c ->
  history (add h now c)
  = lastn (Z.to_nat (effective_limit (config h))) (history h ++ [c])
  /\ config (add h now c) = config h.
Proof.
  intros HL Hblank Hblack Hlast. unfold add.
  rewrite Hblank, Hblack. cbn [orb].
  assert (Hdup : is_last (history h) c = false).
  { unfold is_last. destruct (last_entry (history h)) as [x|]; [|reflexivity].
    apply String.eqb_neq. congruence. }
  rewrite Hdup, andb_false_r.
  destruct (Z.gtb_spec (Z.of_nat (List.length (history h ++ [c])))
              (effective_limit (config h))) as [Hgt|Hle];
    cbn [history config]; split; try reflexivity.
  - apply slice_keeps_newest; lia.
  - symmetry. apply lastn_all. lia.
Qed.

Lemma add_all_appends (calls : list (Z * string)) :
  forall h now c,
    0 < effective_limit (config h) ->
    NoDup (c :: map snd calls) ->
    (forall x, In x (c :: map snd calls) ->
               is_blank x = false /\ blacklisted (config h) x = false) ->
    last_entry (history h) <> Some c ->
    history (add_all h ((now, c) :: calls))
    = lastn (Z.to_nat (effective_limit (config h)))
        (history h ++ c :: map snd calls).
Proof.
  induction calls as [|[now' c'] calls IH]; intros h now c HL Hnd Hok Hlast;
    destruct (Hok c (or_introl eq_refl)) as [Hblank Hblack];
    destruct (add_appends h now c HL Hblank Hblack Hlast) as [Hhist Hcfg].
  - exact Hhist.
  - change (add_all h ((now, c) :: (now', c') :: calls))
      with (add_all (add h now c) ((now', c') :: calls)).
    inversion Hnd as [|? ? Hfresh Hnd']; subst.
    rewrite IH; rewrite ?Hcfg; try assumption.
    + rewrite Hhist, lastn_app_lastn, <- app_assoc. reflexivity.
    + intros x Hx. apply Hok. now right.
    + rewrite Hhist, last_entry_lastn by lia.
      intros [= ->]. apply Hfresh. now left.
Qed.

Lemma lastn_app_long {A} (n k : nat) (l m : list A) :
  List.length m = (n + k)%nat -> lastn n (l ++ m) = skipn k m.
Proof.
  intros Hlen. unfold lastn. rewrite length_app, skipn_app, Hlen.
  rewrite (skipn_all2 l) by lia. cbn [app]. f_equal. lia.
Qed.

End HistoryFacts.

(** C8.  From every starting history, after [limit + k] calls of [add]
    with distinct commands, none blank, none blacklisted and the first
    one different from the entry that precedes it, [getAll] returns
    exactly [limit] entries: the last [limit] commands added, in
    insertion order.  (With the default configuration [limit] is 200.) *)
Theorem add_keeps_newest_limit (h : CLIHistory.SQLiteCLIHistoryStorage)
    (calls : list (Z * string)) (k : nat) :
  0 < CLIHistory.effective_limit (CLIHistory.config h) ->
  List.length calls
  = (Z.to_nat (CLIHistory.effective_limit (CLIHistory.config h)) + k)%nat ->
  NoDup (map snd calls) ->
  (forall c, In c (map snd calls) ->
             CLIHistory.is_blank c = false
             /\ CLIHistory.blacklisted (CLIHistory.config h) c = false) ->
  (forall c, hd_error (map snd calls) = Some c ->
             CLIHistory.last_entry (CLIHistory.history h) <> Some c) ->
  CLIHistory.getAll (CLIHistory.add_all h calls) = skipn k (map snd calls)
  /\ List.length (CLIHistory.getAll (CLIHistory.add_all h calls))
     = Z.to_nat (CLIHistory.effective_limit (CLIHistory.config h)).
Proof.
  intros HL Hlen Hnd Hok Hfirst.
  assert (Hall : CLIHistory.getAll (CLIHistory.add_all h calls)
                 = skipn k (map snd calls)).
  { destruct calls as [|[now c] calls]; [simpl in Hlen; lia|].
    unfold CLIHistory.getAll. cbn [map snd] in *.
    rewrite add_all_appends; try assumption.
    - apply lastn_app_long. cbn [List.length] in *.
      now rewrite length_map.
    - apply Hfirst. reflexivity. }
  split; [assumption|].
  rewrite Hall, length_skipn, length_map. lia.
Qed.

(** The default configuration: 205 distinct commands leave the last
    200. *)
Example eviction_bound_200_5 :
  CLIHistory.getAll
    (CLIHistory.add_all
       (CLIHistory.constructor
          {| CLIHistory.opt_limit := None; CLIHistory.opt_blacklist := None |})
       Fixtures.numbered_commands)
  = skipn 5 (map snd Fixtures.numbered_commands)
  /\ List.length (skipn 5 (map snd Fixtures.numbered_commands)) = 200%nat.
Proof. split; vm_compute; reflexivity. Qed.

Lemma add_keeps_newest_limit_witness :
  CLIHistory.getAll (CLIHistory.add_all Fixtures.small_history
                       Fixtures.five_commands)
  = ["c"; "d"; "e"]
  /\ List.length (CLIHistory.getAll
                    (CLIHistory.add_all Fixtures.small_history
                       Fixtures.five_commands))
     = 3%nat.
Proof.
  refine (add_keeps_newest_limit Fixtures.small_history
            Fixtures.five_commands 2 _ _ _ _ _).
  - reflexivity.
  - reflexivity.
  - simpl. repeat (apply NoDup_cons; [simpl; intuition discriminate|]).
    apply NoDup_nil.
  - simpl. intros c [<-|[<-|[<-|[<-|[<-|[]]]]]]; split; reflexivity.
  - simpl. intros c [= <-]. discriminate.
Defined.

(** ** Storing and reading back a turn *)

Section StoreChatFacts.
Import ChatMessageStorage.
Context `{Host}.

Lemma insert_message_returns session previous req resp db row db2 :
  insert_message session previous req resp db = (Return row, db2) ->
  ChatMessage db2 = ChatMessage db ++ [row]
  /\ ChatSession db2 = ChatSession db
  /\ Sqlite.id row
     = next_rowid (seq_ChatMessage db) (map Sqlite.id (ChatMessage db))
  /\ Sqlite.request row = req
  /\ Sqlite.response row = Some resp.
Proof.
  unfold insert_message. destruct session as [sid|]; [|discriminate].
  destruct (foreign_keys db && negb _)%bool; [discriminate|].
  intros [= <- <-]. repeat split.
Qed.

Lemma new_session_returns db request session db1 :
  new_session db request = (Return session, db1) ->
  exists title row,
    session_title request = Return title
    /\ ChatSession db1 = ChatSession db ++ [row]
    /\ cs_title row = Text title
    /\ ChatMessage db1 = ChatMessage db.
Proof.
  unfold new_session.
  destruct (session_title request) as [title|e]; [|discriminate].
  cbn. intros [= <- <-]. do 2 eexists. repeat split.
Qed.

(** What [formatMessage] makes of a row that holds the serialised
    request and response. *)
Lemma formatMessage_of_stored (msg : RawMessage) (req resp : JSON) :
  JSON_parse EmptyString = None ->
  JSON_parse (JSON_stringify req) = Some req ->
  JSON_parse (JSON_stringify resp) = Some resp ->
  raw_request msg = JSON_stringify req ->
  raw_response msg = Some (JSON_stringify resp) ->
  exists stored,
    formatMessage msg = Return stored
    /\ request stored = req /\ response stored = resp
    /\ id stored = toString (raw_id msg)
    /\ sessionId stored = toString (raw_sessionId msg).
Proof.
  intros Hempty Hreq Hresp Hrq Hrs. unfold formatMessage, parse_or_throw.
  rewrite Hrq, Hrs, Hreq. cbn [bind].
  destruct (String.eqb_spec (JSON_stringify resp) EmptyString) as [E|_].
  - rewrite E, Hempty in Hresp. discriminate.
  - rewrite Hresp. cbn [bind]. eexists. repeat split.
Qed.

End StoreChatFacts.

(** C10.  For a request and a response that JSON carries faithfully,
    when [storeChat] returns a message, [retrieveMessageById] on that
    message's id returns a message whose request and response are
    deep-equal to the ones stored and whose id and sessionId are those of
    the message [storeChat] returned. *)
Theorem storeChat_then_retrieveMessageById `{Host} (db db' : Database)
    (currentMessage : option ChatMessageStorage.StoredChatMessage)
    (request response : JSON)
    (stored : ChatMessageStorage.StoredChatMessage) :
  JSON_parse (JSON_stringify request) = Some request ->
  JSON_parse (JSON_stringify response) = Some response ->
  JSON_parse EmptyString = None ->
  (forall z, text_to_integer (toString z) = Some z) ->
  ChatMessageStorage.storeChat db currentMessage request response
  = (Return stored, db') ->
  exists retrieved,
    ChatMessageStorage.retrieveMessageById db' (ChatMessageStorage.id stored)
    = Return retrieved
    /\ ChatMessageStorage.request retrieved = request
    /\ ChatMessageStorage.response retrieved = response
    /\ ChatMessageStorage.id retrieved = ChatMessageStorage.id stored
    /\ ChatMessageStorage.sessionId retrieved
       = ChatMessageStorage.sessionId stored.
Proof.
  intros Hreq Hresp Hempty Htext Hstore.
  unfold ChatMessageStorage.storeChat in Hstore.
  destruct (ChatMessageStorage.session_for db currentMessage request)
    as [[session|e] db1]; [|discriminate].
  destruct (ChatMessageStorage.insert_message session _ _ _ db1)
    as [[row|e] db2] eqn:Hins; [|discriminate].
  injection Hstore as Hfmt <-.
  apply insert_message_returns in Hins.
  destruct Hins as (Htable & _ & Hid & Hrq & Hrs).
  destruct (formatMessage_of_stored
              (ChatMessageStorage.returning_columns row) request response
              Hempty Hreq Hresp Hrq Hrs)
    as (stored' & Hfmt' & _ & _ & Hsid & Hssid).
  rewrite Hfmt' in Hfmt. injection Hfmt as ->.
  destruct (formatMessage_of_stored
              (ChatMessageStorage.all_columns row) request response
              Hempty Hreq Hresp Hrq Hrs)
    as (retrieved & Hget & Hr1 & Hr2 & Hr3 & Hr4).
  exists retrieved. unfold ChatMessageStorage.retrieveMessageById.
  rewrite Hsid. cbn [ChatMessageStorage.returning_columns
                     ChatMessageStorage.raw_id].
  unfold integer_affinity. rewrite Htext, Htable.
  rewrite (find_appended Sqlite.id).
  - rewrite Hget. split; [reflexivity|].
    split; [assumption|]. split; [assumption|].
    split; [now rewrite Hr3 | now rewrite Hr4, Hssid].
  - intros r Hr. rewrite Hid. apply next_rowid_fresh. now apply in_map.
Qed.

Lemma storeChat_then_retrieveMessageById_witness :
  exists retrieved,
    ChatMessageStorage.retrieveMessageById (H := Model.host)
      (snd (ChatMessageStorage.storeChat (H := Model.host)
              (Fixtures.database_of []) None
              Fixtures.hello_request Fixtures.hello_response))
      "1"
    = Return retrieved
    /\ ChatMessageStorage.request retrieved = Fixtures.hello_request
    /\ ChatMessageStorage.response retrieved = Fixtures.hello_response
    /\ ChatMessageStorage.id retrieved = "1"
    /\ ChatMessageStorage.sessionId retrieved = "2".
Proof.
  refine (storeChat_then_retrieveMessageById (H := Model.host)
            (Fixtures.database_of [])
            (snd (ChatMessageStorage.storeChat (H := Model.host)
                    (Fixtures.database_of []) None
                    Fixtures.hello_request Fixtures.hello_response))
            None Fixtures.hello_request Fixtures.hello_response
            {| ChatMessageStorage.id := "1";
               ChatMessageStorage.sessionId := "2";
               ChatMessageStorage.request := Fixtures.hello_request;
               ChatMessageStorage.response := Fixtures.hello_response;
               ChatMessageStorage.previousMessageId := None;
               ChatMessageStorage.createdAt := None;
               ChatMessageStorage.updatedAt := None |}
            _ _ _ _ _).
  - reflexivity.
  - reflexivity.
  - reflexivity.
  - exact model_reads_decimal.
  - reflexivity.
Defined.

(** ** The title of a new session *)

Section TitleFacts.
Import ChatMessageStorage.

Lemma dot_run_single_line (s : list ascii) :
  (forall c, In c s -> is_line_terminator c = false) ->
  forall max, dot_run s max = Nat.min max (List.length s).
Proof.
  induction s as [|c s IH]; intros Hline max.
  - now destruct max.
  - destruct max as [|max]; [reflexivity|].
    cbn [dot_run List.length Nat.min]. unfold dot.
    rewrite (Hline c (or_introl eq_refl)). cbn [negb]. f_equal.
    apply IH. intros x Hx. apply Hline. now right.
Qed.

Lemma skipn_at {A} (l : list A) :
  forall n x, nth_error l n = Some x -> skipn n l = x :: skipn (S n) l.
Proof.
  induction l as [|y l IH]; intros [|n] x Hn; try discriminate.
  - now injection Hn as ->.
  - cbn [skipn]. now apply IH.
Qed.

Lemma in_skipn {A} (l : list A) :
  forall n x, In x (skipn n l) -> In x l.
Proof.
  induction l as [|y l IH]; intros [|n] x Hx; auto.
  right. now apply (IH n).
Qed.

Lemma backtrack_hit (s : list ascii) (i m : nat) :
  forall n,
    (1 <= i <= n)%nat ->
    group2 (skipn i s) = Some m ->
    (forall j, (i < j <= n)%nat -> group2 (skipn j s) = None) ->
    backtrack s n = Some (i, m).
Proof.
  induction n as [|n IH]; intros Hi Hm Hmiss; [lia|].
  cbn [backtrack].
  destruct (Nat.eq_dec i (S n)) as [->|Hne].
  - now rewrite Hm.
  - rewrite (Hmiss (S n)) by lia. apply IH; [lia | assumption |].
    intros j Hj. apply Hmiss. lia.
Qed.

Lemma backtrack_miss (s : list ascii) :
  forall n,
    (forall j, (1 <= j <= n)%nat -> group2 (skipn j s) = None) ->
    backtrack s n = None.
Proof.
  induction n as [|n IH]; intros Hmiss; [reflexivity|].
  cbn [backtrack]. rewrite (Hmiss (S n)) by lia.
  apply IH. intros j Hj. apply Hmiss. lia.
Qed.

(** Where a single-line content has no white space, the second group
    cannot start. *)
Lemma group2_needs_whitespace (content : string) (j : nat) :
  (j < units content)%nat ->
  ~ whitespace_at content j ->
  group2 (skipn j (list_ascii_of_string content)) = None.
Proof.
  intros Hj Hno. unfold units in Hj.
  destruct (nth_error (list_ascii_of_string content) j) as [c|] eqn:Hc.
  - rewrite (skipn_at _ _ _ Hc). cbn [group2].
    destruct (is_whitespace c) eqn:Hw; [|reflexivity].
    exfalso. apply Hno. now exists c.
  - apply nth_error_None in Hc. lia.
Qed.

Lemma group2_at_whitespace (content : string) (i : nat) :
  single_line content -> whitespace_at content i ->
  group2 (skipn i (list_ascii_of_string content))
  = Some (units content - i)%nat.
Proof.
  intros Hline [c [Hc Hw]]. rewrite (skipn_at _ _ _ Hc). cbn [group2].
  rewrite Hw. f_equal.
  rewrite dot_run_single_line
    by (intros x Hx; apply Hline; now apply in_skipn in Hx).
  rewrite Nat.min_id, length_skipn. unfold units.
  assert (i < List.length (list_ascii_of_string content))%nat
    by (apply nth_error_Some; congruence).
  lia.
Qed.

Lemma replace_title_short (content : string) :
  single_line content -> (units content <= 100)%nat ->
  replace_title content = content.
Proof.
  intros Hline Hlen. unfold replace_title, units in *.
  rewrite dot_run_single_line by assumption.
  rewrite Nat.min_r by assumption.
  destruct (List.length (list_ascii_of_string content)) as [|n] eqn:Hn.
  - reflexivity.
  - cbn [backtrack]. rewrite <- Hn, skipn_all. cbn [group2].
    rewrite firstn_all, Nat.add_0_r, skipn_all, app_nil_r.
    apply string_of_list_ascii_of_string.
Qed.

Lemma replace_title_cut (content : string) (i : nat) :
  single_line content -> (100 < units content)%nat ->
  (1 <= i <= 100)%nat -> whitespace_at content i ->
  (forall j, (i < j <= 100)%nat -> ~ whitespace_at content j) ->
  replace_title content = first_units i content.
Proof.
  intros Hline Hlen Hi Hw Hlast. unfold replace_title.
  rewrite dot_run_single_line by assumption.
  rewrite Nat.min_l by (unfold units in Hlen; lia).
  rewrite (backtrack_hit _ i (units content - i)).
  - unfold first_units. f_equal.
    rewrite skipn_all2 by (unfold units in *; lia).
    apply app_nil_r.
  - assumption.
  - now apply group2_at_whitespace.
  - intros j Hj. apply group2_needs_whitespace; [lia|]. now apply Hlast.
Qed.

Lemma replace_title_uncut (content : string) :
  single_line content -> (100 < units content)%nat ->
  (forall j, (1 <= j <= 100)%nat -> ~ whitespace_at content j) ->
  replace_title content = content.
Proof.
  intros Hline Hlen Hno. unfold replace_title.
  rewrite dot_run_single_line by assumption.
  rewrite Nat.min_l by (unfold units in Hlen; lia).
  rewrite backtrack_miss; [reflexivity|].
  intros j Hj. apply group2_needs_whitespace; [lia|]. now apply Hno.
Qed.

End TitleFacts.

Lemma session_title_cases (request : JSON) (title : string) :
  ChatMessageStorage.session_title request = Return title ->
  match ChatMessageStorage.inbound_content request with
  | Some content => title = ChatMessageStorage.replace_title content
  | None => title = "New Chat"
  end.
Proof.
  unfold ChatMessageStorage.session_title, ChatMessageStorage.inbound_content.
  destruct (ChatMessageStorage.lastMessage request) as [last|e];
    [|discriminate].
  cbn [bind].
  destruct (ChatMessageStorage.content_of last) as [[| | | | |]|];
    intros [= <-] || discriminate; reflexivity.
Qed.

(** C9 (amended).  When [storeChat] is called on a [Body] without a
    session id and returns, it has created one session.  Its title is
    the placeholder "New Chat" when the last message of the request has
    no content.  When that content is a single-line string, the title
    is: the content itself if it has at most 100 characters; the content
    cut just before its last white-space character among positions
    1..100, a prefix of at most 100 characters, if it is longer and has
    such a character; and the whole content if it is longer and has
    none. *)
Theorem new_session_title `{Host} (db db' : Database)
    (currentMessage : option ChatMessageStorage.StoredChatMessage)
    (request response : JSON)
    (stored : ChatMessageStorage.StoredChatMessage) :
  ChatMessageStorage.is_Body request ->
  ChatMessageStorage.has_session currentMessage = false ->
  ChatMessageStorage.storeChat db currentMessage request response
  = (Return stored, db') ->
  exists session title,
    ChatSession db' = ChatSession db ++ [session]
    /\ cs_title session = Text title
    /\ (ChatMessageStorage.inbound_content request = None ->
        title = "New Chat")
    /\ (forall content,
          ChatMessageStorage.inbound_content request = Some content ->
          ChatMessageStorage.single_line content ->
          ((ChatMessageStorage.units content <= 100)%nat -> title = content)
          /\ (forall i,
                (100 < ChatMessageStorage.units content)%nat ->
                (1 <= i <= 100)%nat ->
                ChatMessageStorage.whitespace_at content i ->
                (forall j, (i < j <= 100)%nat ->
                           ~ ChatMessageStorage.whitespace_at content j) ->
                title = ChatMessageStorage.first_units i content)
          /\ ((100 < ChatMessageStorage.units content)%nat ->
              (forall j, (1 <= j <= 100)%nat ->
                         ~ ChatMessageStorage.whitespace_at content j) ->
              title = content)).
Proof.
  intros _ Hnone Hstore. unfold ChatMessageStorage.storeChat in Hstore.
  assert (Hsession :
            ChatMessageStorage.session_for db currentMessage request
            = ChatMessageStorage.new_session db request).
  { unfold ChatMessageStorage.session_for.
    destruct currentMessage as [m|]; [|reflexivity]. now rewrite Hnone. }
  rewrite Hsession in Hstore.
  destruct (ChatMessageStorage.new_session db request)
    as [[session|e] db1] eqn:Hnew; [|discriminate].
  destruct (ChatMessageStorage.insert_message session _ _ _ db1)
    as [[row|e] db2] eqn:Hins; [|discriminate].
  injection Hstore as _ <-.
  apply new_session_returns in Hnew.
  destruct Hnew as (title & srow & Htitle & Htable & Hrow & _).
  apply insert_message_returns in Hins. destruct Hins as (_ & Hsame & _).
  exists srow, title. rewrite Hsame.
  split; [assumption|]. split; [assumption|].
  apply session_title_cases in Htitle.
  split.
  - intros Hno. now rewrite Hno in Htitle.
  - intros content Hcontent Hline. rewrite Hcontent in Htitle. subst title.
    split; [|split].
    + now apply replace_title_short.
    + intros i. now apply replace_title_cut.
    + now apply replace_title_uncut.
Qed.

Lemma new_session_title_witness :
  exists session,
    ChatSession
      (snd (ChatMessageStorage.storeChat (H := Model.host)
              (Fixtures.database_of []) None
              Fixtures.hello_request Fixtures.hello_response))
    = ChatSession (Fixtures.database_of []) ++ [session]
    /\ cs_title session = Text "Hello world".
Proof.
  destruct (new_session_title (H := Model.host)
              (Fixtures.database_of [])
              (snd (ChatMessageStorage.storeChat (H := Model.host)
                      (Fixtures.database_of []) None
                      Fixtures.hello_request Fixtures.hello_response))
              None Fixtures.hello_request Fixtures.hello_response
              {| ChatMessageStorage.id := "1";
                 ChatMessageStorage.sessionId := "2";
                 ChatMessageStorage.request := Fixtures.hello_request;
                 ChatMessageStorage.response := Fixtures.hello_response;
                 ChatMessageStorage.previousMessageId := None;
                 ChatMessageStorage.createdAt := None;
                 ChatMessageStorage.updatedAt := None |}
              I eq_refl eq_refl)
    as (session & title & Htable & Htitle & _ & Hcontent).
  exists session. split; [exact Htable|].
  rewrite Htitle. f_equal.
  refine (proj1 (Hcontent "Hello world" eq_refl _) _).
  - intros c Hc. simpl in Hc.
    repeat (destruct Hc as [<-|Hc]; [reflexivity|]). destruct Hc.
  - vm_compute. lia.
Defined.

(** A 109-character content with white space at positions 50 and 105:
    the new session is titled with the first 50 characters, not with the
    105 that end at the first white space after the 100th character. *)
Lemma title_is_cut_before_the_cutoff :
  map cs_title
    (ChatSession
       (snd (ChatMessageStorage.storeChat (H := Model.host)
               (Fixtures.database_of []) None
               Fixtures.long_request Fixtures.hello_response)))
  = [Text "t";
     Text (ChatMessageStorage.first_units 50 Fixtures.long_content)]
  /\ ChatMessageStorage.title_cut_after_cutoff Fixtures.long_content
     = ChatMessageStorage.first_units 105 Fixtures.long_content
  /\ ChatMessageStorage.first_units 50 Fixtures.long_content
     <> ChatMessageStorage.title_cut_after_cutoff Fixtures.long_content.
Proof.
  split; [vm_compute; reflexivity|].
  split; [vm_compute; reflexivity|].
  vm_compute. discriminate.
Qed.

(* ================================================================== *)
(** * Further properties *)
(* ================================================================== *)

(** ** More on the busy-retry wrapper *)

Section RetryMore.
Import AgentState.
Context {W T : Type}.
Variables (maxRetries retryDelayMs : Z).
Variable operation : W -> completion T * W.

Lemma retry_loop_recovers k :
  forall n i w v,
    (k < n)%nat -> i + Z.of_nat n = maxRetries ->
    (forall j, (j < k)%nat -> busy_at operation w j) ->
    fst (operation (world_at operation k w)) = Return v ->
    retry_loop maxRetries retryDelayMs operation n i w
    = (Return v, snd (operation (world_at operation k w)),
       linear_backoff retryDelayMs i (S k)).
Proof.
  induction k as [|k IH]; intros n i w v Hk Hi Hbusy Hv;
    (destruct n as [|n]; [lia|]).
  - cbn [world_at] in *. cbn [retry_loop].
    destruct (operation w) as [r w'] eqn:Hop. cbn [fst snd] in *. subst r.
    reflexivity.
  - destruct (Hbusy 0%nat ltac:(lia)) as [e0 [He0 Hb]].
    assert (Hnext : forall j, (S j < S k)%nat ->
                              busy_at operation (snd (operation w)) j)
      by (intros j Hj; apply busy_at_shift, Hbusy; assumption).
    cbn [world_at] in He0, Hv |- *. cbn [retry_loop].
    destruct (operation w) as [r w'] eqn:Hop. cbn [fst snd] in *. subst r.
    rewrite Hb. cbn [andb].
    replace (i <? maxRetries - 1) with true
      by (symmetry; apply Z.ltb_lt; lia).
    rewrite (IH n (i + 1) w' v); try lia; try assumption.
    + reflexivity.
    + intros j Hj. apply Hnext. lia.
Qed.

(** Whatever the operation does, the loop makes a run of attempts with
    the scheduled pause between two of them and none after the last. *)
Lemma retry_loop_follows_schedule n :
  forall i w,
    i + Z.of_nat n = maxRetries ->
    exists k,
      (k <= n)%nat /\ ((1 <= n)%nat -> (1 <= k)%nat)
      /\ snd (retry_loop maxRetries retryDelayMs operation n i w)
         = linear_backoff retryDelayMs i k.
Proof.
  induction n as [|n IH]; intros i w Hi.
  - exists 0%nat. split; [lia|]. split; [lia|reflexivity].
  - cbn [retry_loop]. destruct (operation w) as [[v|e] w'].
    + exists 1%nat. split; [lia|]. split; [lia|reflexivity].
    + destruct (is_busy e && (i <? maxRetries - 1))%bool eqn:Hretry.
      * apply andb_true_iff in Hretry. destruct Hretry as [_ Hlt].
        apply Z.ltb_lt in Hlt.
        destruct (IH (i + 1) w' ltac:(lia)) as (k & Hk & Hpos & Htr).
        destruct (retry_loop maxRetries retryDelayMs operation n (i + 1) w')
          as [[r w''] tr]. cbn [snd] in *. subst tr.
        exists (S k). split; [lia|]. split; [lia|].
        destruct k as [|k]; [lia|]. reflexivity.
      * exists 1%nat. split; [lia|]. split; [lia|reflexivity].
Qed.

Lemma retryOnBusy_schedule (w : W) :
  1 <= maxRetries ->
  exists k,
    (1 <= k <= Z.to_nat maxRetries)%nat
    /\ snd (retryOnBusy maxRetries retryDelayMs operation w)
       = linear_backoff retryDelayMs 0 k.
Proof.
  intros Hmax. unfold retryOnBusy.
  destruct (retry_loop_follows_schedule (Z.to_nat maxRetries) 0 w
              ltac:(lia)) as (k & Hk & Hpos & Htr).
  exists k. split; [|assumption]. split; [apply Hpos; lia | assumption].
Qed.

End RetryMore.

Lemma linear_backoff_total d n :
  forall i,
    2 * AgentStateList.total_sleep (AgentState.linear_backoff d i (S n))
    = d * Z.of_nat n * (2 * i + Z.of_nat n + 1).
Proof.
  unfold AgentStateList.total_sleep.
  induction n as [|n IH]; intros i; [cbn; lia|].
  change (AgentState.sleeps (AgentState.linear_backoff d i (S (S n))))
    with (d * (i + 1)
            :: AgentState.sleeps (AgentState.linear_backoff d (i + 1) (S n))).
  cbn [fold_right]. specialize (IH (i + 1)). nia.
Qed.

(** X1.  Transient contention is invisible: when the first [k] attempts
    raise a busy error and attempt [k], still within [maxRetries],
    completes with [v], [retryOnBusy] returns [v] after exactly [k + 1]
    attempts and the [k] scheduled pauses. *)
Theorem retry_recovers_from_contention {W T : Type}
    (maxRetries retryDelayMs : Z) (operation : W -> completion T * W)
    (w : W) (k : nat) (v : T) :
  (k < Z.to_nat maxRetries)%nat ->
  (forall j, (j < k)%nat -> AgentState.busy_at operation w j) ->
  AgentStateList.succeeds_at operation w k v ->
  AgentState.retryOnBusy maxRetries retryDelayMs operation w
  = (Return v, snd (operation (AgentState.world_at operation k w)),
     AgentState.linear_backoff retryDelayMs 0 (S k))
  /\ AgentState.attempts (AgentState.linear_backoff retryDelayMs 0 (S k))
     = S k
  /\ AgentState.sleeps (AgentState.linear_backoff retryDelayMs 0 (S k))
     = map (fun j => retryDelayMs * Z.of_nat j) (seq 1 k).
Proof.
  intros Hk Hbusy Hv. split; [|split].
  - unfold AgentState.retryOnBusy.
    apply retry_loop_recovers; [assumption | lia | assumption..].
  - apply linear_backoff_attempts.
  - rewrite linear_backoff_sleeps.
    replace (S k - 1)%nat with k by lia.
    apply map_ext. intros j. f_equal.
Qed.

Lemma retry_recovers_from_contention_witness :
  AgentState.retryOnBusy 3 100 Scenarios.busy_then_ok 0%nat
  = (Return 2%nat, 3%nat,
     [AgentState.Attempt 0; AgentState.Sleep 100; AgentState.Attempt 1;
      AgentState.Sleep 200; AgentState.Attempt 2]).
Proof.
  refine (proj1 (retry_recovers_from_contention 3 100 Scenarios.busy_then_ok
                   0%nat 2%nat 2%nat _ _ _)).
  - simpl. lia.
  - intros j Hj. exists (DriverError "SQLITE_BUSY").
    destruct j as [|[|j]]; [split; reflexivity | split; reflexivity | lia].
  - reflexivity.
Defined.

(** X2.  For every operation and every configuration, a run of
    [retryOnBusy] makes at most [maxRetries] attempts, pauses
    [retryDelayMs * j] after attempt number [j] and only between two
    attempts, never after the last one. *)
Theorem retry_trace_follows_backoff {W T : Type}
    (maxRetries retryDelayMs : Z) (operation : W -> completion T * W)
    (w : W) :
  exists k,
    (k <= Z.to_nat maxRetries)%nat
    /\ snd (AgentState.retryOnBusy maxRetries retryDelayMs operation w)
       = AgentState.linear_backoff retryDelayMs 0 k
    /\ AgentState.attempts
         (snd (AgentState.retryOnBusy maxRetries retryDelayMs operation w))
       = k.
Proof.
  unfold AgentState.retryOnBusy.
  destruct (Z_le_gt_dec maxRetries 0) as [Hle|Hgt].
  - replace (Z.to_nat maxRetries) with 0%nat by lia.
    exists 0%nat. split; [lia|]. split; reflexivity.
  - destruct (retryOnBusy_schedule maxRetries retryDelayMs operation w
                ltac:(lia)) as (k & Hk & Htr).
    unfold AgentState.retryOnBusy in Htr.
    exists k. rewrite Htr. split; [lia|]. split; [reflexivity|].
    apply linear_backoff_attempts.
Qed.

(** X3.  With a non-negative base delay and [maxRetries >= 1], no run of
    [retryOnBusy] waits longer in total than
    [retryDelayMs * maxRetries * (maxRetries - 1) / 2]. *)
Theorem retry_total_sleep_bounded {W T : Type}
    (maxRetries retryDelayMs : Z) (operation : W -> completion T * W)
    (w : W) :
  0 <= retryDelayMs -> 1 <= maxRetries ->
  2 * AgentStateList.total_sleep
        (snd (AgentState.retryOnBusy maxRetries retryDelayMs operation w))
  <= retryDelayMs * maxRetries * (maxRetries - 1).
Proof.
  intros Hd Hmax.
  destruct (retryOnBusy_schedule maxRetries retryDelayMs operation w Hmax)
    as (k & Hk & Htr).
  rewrite Htr. destruct k as [|k]; [lia|].
  rewrite linear_backoff_total. nia.
Qed.

Lemma retry_total_sleep_bounded_witness :
  2 * AgentStateList.total_sleep
        (snd (AgentState.retryOnBusy 3 100 Fixtures.always_busy 0%nat))
  <= 100 * 3 * (3 - 1).
Proof.
  apply (retry_total_sleep_bounded 3 100 Fixtures.always_busy 0%nat); lia.
Defined.

(** ** ORDER BY *)

Section OrderByFacts.
Context {A : Type}.
Variable key : A -> Z.

Lemma insert_descending_perm x l :
  Permutation (OrderBy.insert_descending key x l) (x :: l).
Proof.
  induction l as [|y l IH]; [reflexivity|]. cbn.
  destruct (key y <=? key x); [reflexivity|].
  rewrite IH. apply perm_swap.
Qed.

Lemma descending_perm l : Permutation (OrderBy.descending key l) l.
Proof.
  induction l as [|x l IH]; [reflexivity|]. cbn.
  rewrite insert_descending_perm. now constructor.
Qed.

Lemma insert_ascending_perm x l :
  Permutation (OrderBy.insert_ascending key x l) (x :: l).
Proof.
  induction l as [|y l IH]; [reflexivity|]. cbn.
  destruct (key x <=? key y); [reflexivity|].
  rewrite IH. apply perm_swap.
Qed.

Lemma ascending_perm l : Permutation (OrderBy.ascending key l) l.
Proof.
  induction l as [|x l IH]; [reflexivity|]. cbn.
  rewrite insert_ascending_perm. now constructor.
Qed.

Lemma insert_descending_sorted x l :
  StronglySorted (fun a b => key b <= key a) l ->
  StronglySorted (fun a b => key b <= key a)
    (OrderBy.insert_descending key x l).
Proof.
  induction 1 as [|y l Hs IH Hy]; cbn.
  - repeat constructor.
  - destruct (Z.leb_spec (key y) (key x)) as [Hle|Hgt].
    + constructor; [now constructor|].
      constructor; [assumption|].
      eapply Forall_impl; [|exact Hy]. cbn. intros; lia.
    + constructor; [assumption|].
      eapply Permutation_Forall;
        [symmetry; apply insert_descending_perm|].
      constructor; [lia | assumption].
Qed.

Lemma descending_sorted l :
  StronglySorted (fun a b => key b <= key a) (OrderBy.descending key l).
Proof.
  induction l as [|x l IH]; [constructor|].
  now apply insert_descending_sorted.
Qed.

Lemma insert_ascending_sorted x l :
  StronglySorted (fun a b => key a <= key b) l ->
  StronglySorted (fun a b => key a <= key b)
    (OrderBy.insert_ascending key x l).
Proof.
  induction 1 as [|y l Hs IH Hy]; cbn.
  - repeat constructor.
  - destruct (Z.leb_spec (key x) (key y)) as [Hle|Hgt].
    + constructor; [now constructor|].
      constructor; [assumption|].
      eapply Forall_impl; [|exact Hy]. cbn. intros; lia.
    + constructor; [assumption|].
      eapply Permutation_Forall;
        [symmetry; apply insert_ascending_perm|].
      constructor; [lia | assumption].
Qed.

Lemma ascending_sorted l :
  StronglySorted (fun a b => key a <= key b) (OrderBy.ascending key l).
Proof.
  induction l as [|x l IH]; [constructor|].
  now apply insert_ascending_sorted.
Qed.

(** A row newer than all the others sorts to the front. *)
Lemma insert_descending_behind x y l :
  key x < key y ->
  OrderBy.insert_descending key x (y :: l)
  = y :: OrderBy.insert_descending key x l.
Proof.
  intros Hlt. cbn.
  now replace (key y <=? key x) with false by (symmetry; apply Z.leb_gt; lia).
Qed.

Lemma descending_newest_last l :
  forall x,
    (forall y, In y l -> key y < key x) ->
    OrderBy.descending key (l ++ [x]) = x :: OrderBy.descending key l.
Proof.
  induction l as [|y l IH]; intros x Hnew; [reflexivity|].
  cbn [app OrderBy.descending fold_right].
  change (fold_right (OrderBy.insert_descending key) [] (l ++ [x]))
    with (OrderBy.descending key (l ++ [x])).
  rewrite IH by (intros z Hz; apply Hnew; now right).
  apply insert_descending_behind. apply Hnew. now left.
Qed.

End OrderByFacts.

Lemma hd_limit_offset {A} (n : nat) (l : list A) :
  hd_error (firstn 1 (skipn n l)) = nth_error l n.
Proof.
  rewrite <- hd_error_skipn. now destruct (skipn n l).
Qed.

(** ** Reading checkpoints *)

Lemma retrieveCheckpoint_nth (db : Database) (idx : Z) :
  CheckpointQueries.retrieveCheckpoint db idx
  = nth_error (CheckpointQueries.listCheckpoint db) (Z.to_nat idx).
Proof.
  unfold CheckpointQueries.retrieveCheckpoint, OrderBy.limit, OrderBy.offset.
  cbn. apply hd_limit_offset.
Qed.

(** X4.  [retrieveCheckpoint(idx)] is the element number [idx] of what
    [listCheckpoint] returns, which holds every stored checkpoint once,
    newest first; an index at or beyond the number of checkpoints yields
    absence, and a negative index reads like 0. *)
Theorem retrieveCheckpoint_indexes_listCheckpoint (db : Database) (idx : Z) :
  CheckpointQueries.retrieveCheckpoint db idx
  = nth_error (CheckpointQueries.listCheckpoint db) (Z.to_nat idx)
  /\ Permutation (CheckpointQueries.listCheckpoint db) (Checkpoint db)
  /\ StronglySorted (fun a b => cp_createdAt b <= cp_createdAt a)
       (CheckpointQueries.listCheckpoint db)
  /\ (Z.of_nat (List.length (Checkpoint db)) <= idx ->
      CheckpointQueries.retrieveCheckpoint db idx = None).
Proof.
  pose proof (retrieveCheckpoint_nth db idx) as Hnth.
  split; [assumption|]. split; [apply descending_perm|].
  split; [apply descending_sorted|].
  intros Hout. rewrite Hnth. apply nth_error_None.
  unfold CheckpointQueries.listCheckpoint.
  rewrite (Permutation_length (descending_perm cp_createdAt (Checkpoint db))).
  lia.
Qed.

(** X5.  A checkpoint created when the clock is past the creation time
    of every stored checkpoint becomes checkpoint 0, and each older
    checkpoint moves one index up. *)
Theorem createCheckpoint_becomes_newest `{Host} (db db' : Database)
    (label : string) (m : ChatCheckpoint.CurrentMessage)
    (row : CheckpointRow) :
  (forall c, In c (Checkpoint db) -> cp_createdAt c < unixepoch db * 1000) ->
  ChatCheckpoint.createCheckpoint db label (Some m) = (Return row, db') ->
  CheckpointQueries.retrieveCheckpoint db' 0 = Some row
  /\ forall idx, 0 <= idx ->
       CheckpointQueries.retrieveCheckpoint db' (idx + 1)
       = CheckpointQueries.retrieveCheckpoint db idx.
Proof.
  intros Hclock Hcreate.
  assert (Hlist : CheckpointQueries.listCheckpoint db'
                  = row :: CheckpointQueries.listCheckpoint db).
  { unfold ChatCheckpoint.createCheckpoint in Hcreate.
    destruct (ChatCheckpoint.cm_id m) as [i|]; [|discriminate].
    destruct (ChatCheckpoint.falsy (Some i)); [discriminate|].
    cbn in Hcreate. injection Hcreate as <- <-.
    unfold CheckpointQueries.listCheckpoint. cbn [Checkpoint].
    apply descending_newest_last. intros c Hc. cbn. now apply Hclock. }
  split.
  - now rewrite retrieveCheckpoint_nth, Hlist.
  - intros idx Hidx. rewrite !retrieveCheckpoint_nth, Hlist. replace (Z.to_nat (idx + 1)) with (S (Z.to_nat idx)) by lia.
    reflexivity.
Qed.

Lemma createCheckpoint_becomes_newest_witness :
  CheckpointQueries.retrieveCheckpoint
    (snd (ChatCheckpoint.createCheckpoint (H := Model.host)
            Scenarios.three_checkpoints "w"
            (Some {| ChatCheckpoint.cm_id :=
                       Some (ChatCheckpoint.IdNumber 7) |})))
    0
  = Some {| cp_id := 4; cp_label := "w"; cp_messageId := Integer 7;
            cp_createdAt := 5000 |}
  /\ CheckpointQueries.retrieveCheckpoint
       (snd (ChatCheckpoint.createCheckpoint (H := Model.host)
               Scenarios.three_checkpoints "w"
               (Some {| ChatCheckpoint.cm_id :=
                          Some (ChatCheckpoint.IdNumber 7) |})))
       (0 + 1)
     = CheckpointQueries.retrieveCheckpoint Scenarios.three_checkpoints 0.
Proof.
  destruct (createCheckpoint_becomes_newest (H := Model.host)
              Scenarios.three_checkpoints
              (snd (ChatCheckpoint.createCheckpoint (H := Model.host)
                      Scenarios.three_checkpoints "w"
                      (Some {| ChatCheckpoint.cm_id :=
                                 Some (ChatCheckpoint.IdNumber 7) |})))
              "w"
              {| ChatCheckpoint.cm_id := Some (ChatCheckpoint.IdNumber 7) |}
              {| cp_id := 4; cp_label := "w"; cp_messageId := Integer 7;
                 cp_createdAt := 5000 |})
    as [Hfirst Hshift].
  - simpl. intros c [<-|[<-|[<-|[]]]]; simpl; lia.
  - reflexivity.
  - split; [exact Hfirst | apply Hshift; lia].
Defined.

(** With checkpoints X, Y, Z created in that order at different times,
    index 0 reads Z, index 2 reads X and index 3 reads nothing. *)
Example checkpoint_offsets :
  CheckpointQueries.retrieveCheckpoint Scenarios.three_checkpoints 0
  = Some (Scenarios.checkpoint_at 3 3000)
  /\ CheckpointQueries.retrieveCheckpoint Scenarios.three_checkpoints 2
     = Some (Scenarios.checkpoint_at 1 1000)
  /\ CheckpointQueries.retrieveCheckpoint Scenarios.three_checkpoints 3
     = None.
Proof. repeat split. Qed.

(** ** More on the agent-state store *)

Lemma find_app_found {A} (f : A -> bool) (l m : list A) (x : A) :
  find f l = Some x -> find f (l ++ m) = Some x.
Proof.
  induction l as [|y l IH]; [discriminate|]. cbn.
  destruct (f y); [trivial | exact IH].
Qed.

Lemma find_by_key {A} (key : A -> Z) (l : list A) (x : A) :
  NoDup (map key l) -> In x l ->
  find (fun r => eq_true (Integer (key r)) (Integer (key x))) l = Some x.
Proof.
  induction l as [|y l IH]; intros Hnd Hin; [destruct Hin|].
  inversion Hnd as [|? ? Hy Hnd']; subst. cbn.
  destruct Hin as [->|Hin].
  - now rewrite Z.eqb_refl.
  - destruct (Z.eqb_spec (key y) (key x)) as [E|_].
    + exfalso. apply Hy. rewrite E. now apply in_map.
    + now apply IH.
Qed.

Lemma retrieveCheckpoint_unfolded `{Host}
    (s : AgentState.SQLiteAgentStateStorage) (arg : string) :
  1 <= AgentState.maxRetries s ->
  fst (AgentState.retrieveCheckpoint s arg)
  = match find (fun r => eq_true (Integer (AgentState.id r))
                           (integer_affinity (Text arg)))
            (AgentState.AgentState (AgentState.db s)) with
    | Some row =>
        match JSON_parse (AgentState.state row) with
        | Some v =>
            Return (Some {| AgentState.sc_id := toString (AgentState.id row);
                            AgentState.sc_name := AgentState.name row;
                            AgentState.sc_agentId := arg;
                            AgentState.sc_state := v;
                            AgentState.sc_createdAt := None |})
        | None => Throw SyntaxError
        end
    | None => Return None
    end.
Proof.
  intros Hmax. unfold AgentState.retrieveCheckpoint.
  erewrite retryOnBusy_success; [|assumption|reflexivity].
  reflexivity.
Qed.

(** X6.  Storing a checkpoint never disturbs the stored ones: an id on
    which [retrieveCheckpoint] returned a checkpoint returns the same
    checkpoint after any later [storeCheckpoint]. *)
Theorem storeCheckpoint_keeps_earlier_checkpoints `{Host}
    (s : AgentState.SQLiteAgentStateStorage)
    (later : AgentState.NamedAgentCheckpoint) (rowid : string)
    (c : AgentState.StoredAgentCheckpoint) :
  1 <= AgentState.maxRetries s ->
  fst (AgentState.retrieveCheckpoint s rowid) = Return (Some c) ->
  fst (AgentState.retrieveCheckpoint
         (snd (AgentState.storeCheckpoint s later)) rowid)
  = Return (Some c).
Proof.
  intros Hmax Hbefore.
  rewrite retrieveCheckpoint_unfolded in Hbefore by assumption.
  rewrite storeCheckpoint_inserts by assumption. cbn [snd].
  rewrite retrieveCheckpoint_unfolded by assumption.
  cbn [AgentState.db AgentState.with_db AgentState.AgentState].
  destruct (find _ (AgentState.AgentState (AgentState.db s)))
    as [row|] eqn:Hfind; [|discriminate].
  now rewrite (find_app_found _ _ _ _ Hfind).
Qed.

Lemma storeCheckpoint_keeps_earlier_checkpoints_witness :
  fst (AgentState.retrieveCheckpoint (H := Model.host)
         (snd (AgentState.storeCheckpoint (H := Model.host)
                 Scenarios.two_checkpoints
                 (Fixtures.session_1 (JNumber 3))))
         "1")
  = Return (Some {| AgentState.sc_id := "1";
                    AgentState.sc_name := "session-1";
                    AgentState.sc_agentId := "1";
                    AgentState.sc_state := JNumber 1;
                    AgentState.sc_createdAt := None |}).
Proof.
  apply (storeCheckpoint_keeps_earlier_checkpoints (H := Model.host)
           Scenarios.two_checkpoints (Fixtures.session_1 (JNumber 3)) "1").
  - simpl. lia.
  - reflexivity.
Defined.

(** X7.  Whatever [retrieveCheckpoint] returns comes from a stored row
    whose id is the argument: the id, the name and the parsed state are
    that row's.  The [agentId] of the result is the argument itself, not
    the stored agentId, and its [createdAt] is undefined. *)
Theorem retrieveCheckpoint_reads_one_row `{Host}
    (s : AgentState.SQLiteAgentStateStorage) (arg : string)
    (c : AgentState.StoredAgentCheckpoint) :
  fst (AgentState.retrieveCheckpoint s arg) = Return (Some c) ->
  exists row,
    In row (AgentState.AgentState (AgentState.db s))
    /\ Integer (AgentState.id row) = integer_affinity (Text arg)
    /\ AgentState.sc_id c = toString (AgentState.id row)
    /\ AgentState.sc_name c = AgentState.name row
    /\ JSON_parse (AgentState.state row) = Some (AgentState.sc_state c)
    /\ AgentState.sc_agentId c = arg
    /\ AgentState.sc_createdAt c = None.
Proof.
  intros Hget.
  destruct (Z_le_gt_dec (AgentState.maxRetries s) 0) as [Hle|Hgt].
  - unfold AgentState.retrieveCheckpoint, AgentState.retryOnBusy in Hget.
    replace (Z.to_nat (AgentState.maxRetries s)) with 0%nat in Hget by lia.
    discriminate.
  - rewrite retrieveCheckpoint_unfolded in Hget by lia.
    destruct (find _ _) as [row|] eqn:Hfind; [|discriminate].
    destruct (JSON_parse (AgentState.state row)) as [v|] eqn:Hparse;
      [|discriminate].
    injection Hget as <-. apply find_some in Hfind.
    destruct Hfind as [Hin Hmatch].
    assert (Hkey : Integer (AgentState.id row)
                   = integer_affinity (Text arg)).
    { destruct (integer_affinity (Text arg)) as [|z|t]; try discriminate.
      cbn in Hmatch. apply Z.eqb_eq in Hmatch. now subst. }
    exists row. cbn [AgentState.sc_id AgentState.sc_name
                     AgentState.sc_state AgentState.sc_agentId
                     AgentState.sc_createdAt].
    repeat split; assumption.
Qed.

Lemma retrieveCheckpoint_reads_one_row_witness :
  exists row,
    In row (AgentState.AgentState (AgentState.db Scenarios.two_checkpoints))
    /\ Integer (AgentState.id row)
       = integer_affinity (H := Model.host) (Text "2")
    /\ "2" = toString (AgentState.id row)
    /\ "session-1" = AgentState.name row
    /\ JSON_parse (Host := Model.host) (AgentState.state row)
       = Some (JNumber 2)
    /\ "2" = "2"
    /\ @None Z = None.
Proof.
  apply (retrieveCheckpoint_reads_one_row (H := Model.host)
           Scenarios.two_checkpoints "2"
           {| AgentState.sc_id := "2";
              AgentState.sc_name := "session-1";
              AgentState.sc_agentId := "2";
              AgentState.sc_state := JNumber 2;
              AgentState.sc_createdAt := None |}).
  reflexivity.
Defined.

Lemma listCheckpoints_unfolded (s : AgentState.SQLiteAgentStateStorage) :
  1 <= AgentState.maxRetries s ->
  AgentStateList.listCheckpoints s
  = (Return (map AgentStateList.list_item
               (OrderBy.descending AgentState.createdAt
                  (AgentState.AgentState (AgentState.db s)))),
     AgentState.with_db s (AgentState.db s)).
Proof.
  intros Hmax. unfold AgentStateList.listCheckpoints.
  erewrite retryOnBusy_success; [|assumption|reflexivity].
  reflexivity.
Qed.

(** X8.  [listCheckpoints] returns one item for every stored row, no
    more, ordered newest first, and leaves the table as it is. *)
Theorem listCheckpoints_lists_every_row
    (s : AgentState.SQLiteAgentStateStorage) :
  1 <= AgentState.maxRetries s ->
  exists items,
    fst (AgentStateList.listCheckpoints s) = Return items
    /\ Permutation items
         (map AgentStateList.list_item
            (AgentState.AgentState (AgentState.db s)))
    /\ StronglySorted
         (fun a b => AgentStateList.li_createdAt b
                     <= AgentStateList.li_createdAt a) items
    /\ AgentState.db (snd (AgentStateList.listCheckpoints s))
       = AgentState.db s.
Proof.
  intros Hmax. rewrite listCheckpoints_unfolded by assumption.
  eexists. split; [reflexivity|]. split; [|split; [|reflexivity]].
  - apply Permutation_map, descending_perm.
  - pose proof (descending_sorted AgentState.createdAt
                  (AgentState.AgentState (AgentState.db s))) as Hs.
    induction Hs as [|x l Hs IH Hx]; [constructor|].
    cbn [map]. constructor; [assumption|].
    apply Forall_map. eapply Forall_impl; [|exact Hx]. trivial.
Qed.

Lemma listCheckpoints_lists_every_row_witness :
  exists items,
    fst (AgentStateList.listCheckpoints Scenarios.two_checkpoints)
    = Return items
    /\ Permutation items
         (map AgentStateList.list_item
            (AgentState.AgentState
               (AgentState.db Scenarios.two_checkpoints)))
    /\ StronglySorted
         (fun a b => AgentStateList.li_createdAt b
                     <= AgentStateList.li_createdAt a) items
    /\ AgentState.db (snd (AgentStateList.listCheckpoints
                             Scenarios.two_checkpoints))
       = AgentState.db Scenarios.two_checkpoints.
Proof.
  apply (listCheckpoints_lists_every_row Scenarios.two_checkpoints).
  simpl. lia.
Defined.

(** X9.  Every id that [listCheckpoints] shows can be read back: on a
    table with unique ids whose states are valid JSON,
    [retrieveCheckpoint] on a listed id returns a checkpoint with that
    id and the listed name. *)
Theorem listed_checkpoints_are_retrievable `{Host}
    (s : AgentState.SQLiteAgentStateStorage)
    (items : list AgentStateList.AgentCheckpointListItem)
    (item : AgentStateList.AgentCheckpointListItem) :
  1 <= AgentState.maxRetries s ->
  NoDup (map AgentState.id (AgentState.AgentState (AgentState.db s))) ->
  (forall r, In r (AgentState.AgentState (AgentState.db s)) ->
             JSON_parse (AgentState.state r) <> None) ->
  (forall z, text_to_integer (toString z) = Some z) ->
  fst (AgentStateList.listCheckpoints s) = Return items ->
  In item items ->
  exists c,
    fst (AgentState.retrieveCheckpoint s (AgentStateList.li_id item))
    = Return (Some c)
    /\ AgentState.sc_id c = AgentStateList.li_id item
    /\ AgentState.sc_name c = AgentStateList.li_name item.
Proof.
  intros Hmax Hnd Hjson Htext Hlist Hitem.
  rewrite listCheckpoints_unfolded in Hlist by assumption.
  injection Hlist as <-. apply in_map_iff in Hitem.
  destruct Hitem as [row [<- Hrow]].
  apply (Permutation_in _ (descending_perm _ _)) in Hrow.
  rewrite retrieveCheckpoint_unfolded by assumption.
  cbn [AgentStateList.list_item AgentStateList.li_id AgentStateList.li_name].
  unfold integer_affinity. rewrite Htext.
  rewrite (find_by_key AgentState.id) by assumption.
  destruct (JSON_parse (AgentState.state row)) as [v|] eqn:Hparse.
  - eexists. repeat split.
  - now apply Hjson in Hparse.
Qed.

Lemma listed_checkpoints_are_retrievable_witness :
  exists c,
    fst (AgentState.retrieveCheckpoint (H := Model.host)
           Scenarios.two_checkpoints "2")
    = Return (Some c)
    /\ AgentState.sc_id c = "2"
    /\ AgentState.sc_name c = "session-1".
Proof.
  refine (listed_checkpoints_are_retrievable (H := Model.host)
            Scenarios.two_checkpoints
            (map AgentStateList.list_item
               (OrderBy.descending AgentState.createdAt
                  (AgentState.AgentState
                     (AgentState.db Scenarios.two_checkpoints))))
            {| AgentStateList.li_id := "2";
               AgentStateList.li_name := "session-1";
               AgentStateList.li_agentId := "agent-123";
               AgentStateList.li_createdAt := 1700000000000 |}
            _ _ _ _ _ _).
  - simpl. lia.
  - vm_compute. repeat (apply NoDup_cons; [simpl; intuition lia|]).
    apply NoDup_nil.
  - intros r Hr. vm_compute in Hr.
    destruct Hr as [<-|[<-|[]]]; vm_compute; discriminate.
  - exact model_reads_decimal.
  - reflexivity.
  - vm_compute. auto.
Defined.

(** ** More on the command history *)

Section NavigationFacts.
Import CLIHistory CLINavigation.

Lemma move_same (h : SQLiteCLIHistoryStorage) :
  move h (historyIndex h) = h.
Proof. now destruct h. Qed.

Lemma entry_at_stored (l : list string) (i : nat) (x : string) :
  nth_error l i = Some x -> entry_at l (Z.of_nat i) = Line x.
Proof.
  intros Hx. unfold entry_at.
  replace (Z.of_nat i <? 0) with false by (symmetry; apply Z.ltb_ge; lia).
  now rewrite Nat2Z.id, Hx.
Qed.

Lemma firstn_snoc {A} (l : list A) :
  forall k x, nth_error l k = Some x -> firstn (S k) l = firstn k l ++ [x].
Proof.
  induction l as [|y l IH]; intros [|k] x Hx; try discriminate.
  - now injection Hx as ->.
  - cbn [firstn app]. f_equal. now apply IH.
Qed.

Lemma previous_at_start (extra : nat) :
  forall h,
    historyIndex h = 0 ->
    previous_lines extra h = (repeat Null extra, h).
Proof.
  induction extra as [|extra IH]; intros h Hstart; [reflexivity|].
  cbn [previous_lines]. unfold getPrevious. rewrite Hstart. cbn.
  now rewrite (IH h Hstart).
Qed.

Lemma previous_lines_walk (extra : nat) (k : nat) :
  forall h,
    historyIndex h = Z.of_nat k -> (k <= List.length (history h))%nat ->
    previous_lines (k + extra) h
    = (map Line (rev (firstn k (history h))) ++ repeat Null extra, move h 0).
Proof.
  induction k as [|k IH]; intros h Hidx Hlen.
  - cbn [Nat.add firstn rev map app]. rewrite previous_at_start by assumption.
    f_equal. destruct h. cbn in *. now subst.
  - destruct (nth_error (history h) k) as [x|] eqn:Hx;
      [|apply nth_error_None in Hx; lia].
    cbn [Nat.add previous_lines]. unfold getPrevious. rewrite Hidx.
    replace (0 <? Z.of_nat (S k)) with true by (symmetry; apply Z.ltb_lt; lia).
    replace (Z.of_nat (S k) - 1) with (Z.of_nat k) by lia.
    cbn [move history historyIndex].
    rewrite (entry_at_stored _ _ _ Hx).
    rewrite (IH (move h (Z.of_nat k))) by (cbn; lia || reflexivity).
    cbn [move history]. rewrite (firstn_snoc _ _ _ Hx), rev_app_distr.
    reflexivity.
Qed.

End NavigationFacts.

(** X10.  [add] keeps the cache within its limit: with a positive limit,
    a cache of at most [limit] entries has at most [limit] entries after
    any call of [add], whatever the command. *)
Theorem add_stays_within_limit (h : CLIHistory.SQLiteCLIHistoryStorage)
    (now : Z) (command : string) :
  0 < CLIHistory.effective_limit (CLIHistory.config h) ->
  Z.of_nat (List.length (CLIHistory.history h))
  <= CLIHistory.effective_limit (CLIHistory.config h) ->
  Z.of_nat (List.length (CLIHistory.history (CLIHistory.add h now command)))
  <= CLIHistory.effective_limit (CLIHistory.config h).
Proof.
  intros HL Hlen. unfold CLIHistory.add.
  destruct (CLIHistory.is_blank command
            || CLIHistory.blacklisted (CLIHistory.config h) command)%bool;
    [assumption|].
  destruct ((0 <? Z.of_nat (List.length (CLIHistory.history h)))
            && CLIHistory.is_last (CLIHistory.history h) command)%bool;
    [assumption|].
  destruct (Z.gtb_spec
              (Z.of_nat (List.length (CLIHistory.history h ++ [command])))
              (CLIHistory.effective_limit (CLIHistory.config h)))
    as [Hgt|Hle]; cbn [CLIHistory.history].
  - rewrite slice_keeps_newest by lia.
    unfold CLIHistory.lastn. rewrite length_skipn. lia.
  - assumption.
Qed.

Lemma add_stays_within_limit_witness :
  Z.of_nat (List.length
              (CLIHistory.history
                 (CLIHistory.add
                    (CLIHistory.add Fixtures.small_history 10 "a") 11 "b")))
  <= 3.
Proof.
  apply (add_stays_within_limit
           (CLIHistory.add Fixtures.small_history 10 "a") 11 "b").
  - reflexivity.
  - vm_compute. discriminate.
Defined.

(** X11.  Adjacent duplicates are suppressed: with a positive limit,
    adding the same command a second time right after the first leaves
    the store exactly as the first call left it, and sends no statement
    to the database. *)
Theorem add_twice_is_add_once (h : CLIHistory.SQLiteCLIHistoryStorage)
    (now later : Z) (command : string) :
  0 < CLIHistory.effective_limit (CLIHistory.config h) ->
  CLIHistory.add (CLIHistory.add h now command) later command
  = CLIHistory.add h now command.
Proof.
  intros HL.
  destruct (CLIHistory.is_blank command
            || CLIHistory.blacklisted (CLIHistory.config h) command)%bool
    eqn:Hskip.
  - assert (Hnoop : forall t, CLIHistory.add h t command = h)
      by (intros t; unfold CLIHistory.add; now rewrite Hskip).
    now rewrite !Hnoop.
  - destruct ((0 <? Z.of_nat (List.length (CLIHistory.history h)))
              && CLIHistory.is_last (CLIHistory.history h) command)%bool
      eqn:Hdup.
    + assert (Hnoop : forall t, CLIHistory.add h t command = h)
        by (intros t; unfold CLIHistory.add; now rewrite Hskip, Hdup).
      now rewrite !Hnoop.
    + apply orb_false_iff in Hskip. destruct Hskip as [Hblank Hblack].
      assert (Hlast : CLIHistory.last_entry (CLIHistory.history h)
                      <> Some command).
      { intros Hl. unfold CLIHistory.is_last in Hdup.
        rewrite Hl, String.eqb_refl, andb_true_r in Hdup.
        apply Z.ltb_ge in Hdup.
        destruct (CLIHistory.history h); [discriminate | cbn in Hdup; lia]. }
      destruct (add_appends h now command HL Hblank Hblack Hlast)
        as [Hhist Hcfg].
      set (h1 := CLIHistory.add h now command) in *.
      assert (Hend : CLIHistory.last_entry (CLIHistory.history h1)
                     = Some command)
        by (rewrite Hhist; apply last_entry_lastn; lia).
      unfold CLIHistory.add at 1. rewrite Hcfg, Hblank, Hblack. cbn [orb].
      unfold CLIHistory.is_last. rewrite Hend, String.eqb_refl.
      replace (0 <? Z.of_nat (List.length (CLIHistory.history h1))) with true;
        [reflexivity|].
      symmetry. apply Z.ltb_lt.
      destruct (CLIHistory.history h1); [discriminate | cbn; lia].
Qed.

Lemma add_twice_is_add_once_witness :
  CLIHistory.add (CLIHistory.add Fixtures.small_history 10 "a") 11 "a"
  = CLIHistory.add Fixtures.small_history 10 "a".
Proof.
  apply (add_twice_is_add_once Fixtures.small_history 10 11 "a").
  reflexivity.
Defined.

(** X12.  With the cursor past the last entry, repeated [getPrevious]
    returns the entries from the newest to the oldest, each once, and
    then [null] on every further call, leaving the cursor at 0. *)
Theorem getPrevious_walks_back (h : CLIHistory.SQLiteCLIHistoryStorage)
    (extra : nat) :
  CLIHistory.historyIndex h
  = Z.of_nat (List.length (CLIHistory.history h)) ->
  CLINavigation.previous_lines
    (List.length (CLIHistory.history h) + extra) h
  = (map CLINavigation.Line (rev (CLIHistory.history h))
       ++ repeat CLINavigation.Null extra,
     CLINavigation.move h 0).
Proof.
  intros Hend. rewrite previous_lines_walk by (assumption || lia).
  now rewrite firstn_all.
Qed.

Lemma getPrevious_walks_back_witness :
  CLINavigation.previous_lines (2 + 1) Fixtures.small_history
  = ([CLINavigation.Line "pwd"; CLINavigation.Line "ls"; CLINavigation.Null],
     CLINavigation.move Fixtures.small_history 0).
Proof.
  apply (getPrevious_walks_back Fixtures.small_history 1). reflexivity.
Defined.

(** X13.  [getNext] undoes [getPrevious]: from a cursor between 1 and
    the length of the list, stepping back and then forward restores the
    store; the forward step returns the entry the cursor was on, or the
    current line when the cursor was past the last entry. *)
Theorem getNext_undoes_getPrevious (h : CLIHistory.SQLiteCLIHistoryStorage)
    (currentLine : CLINavigation.line) :
  0 < CLIHistory.historyIndex h
  <= Z.of_nat (List.length (CLIHistory.history h)) ->
  CLINavigation.getNext (snd (CLINavigation.getPrevious h)) currentLine
  = (if CLIHistory.historyIndex h
        =? Z.of_nat (List.length (CLIHistory.history h))
     then currentLine
     else CLINavigation.entry_at (CLIHistory.history h)
            (CLIHistory.historyIndex h),
     h).
Proof.
  intros [Hpos Hlen]. unfold CLINavigation.getPrevious.
  replace (0 <? CLIHistory.historyIndex h) with true
    by (symmetry; apply Z.ltb_lt; lia).
  cbn [snd]. unfold CLINavigation.getNext.
  cbn [CLINavigation.move CLIHistory.history CLIHistory.historyIndex].
  replace (CLIHistory.historyIndex h - 1 + 1)
    with (CLIHistory.historyIndex h) by lia.
  destruct (Z.eqb_spec (CLIHistory.historyIndex h)
              (Z.of_nat (List.length (CLIHistory.history h)))) as [E|Hne].
  - replace (CLIHistory.historyIndex h - 1
             <? Z.of_nat (List.length (CLIHistory.history h)) - 1)
      with false by (symmetry; apply Z.ltb_ge; lia).
    replace (CLIHistory.historyIndex h - 1
             =? Z.of_nat (List.length (CLIHistory.history h)) - 1)
      with true by (symmetry; apply Z.eqb_eq; lia).
    f_equal. now destruct h.
  - replace (CLIHistory.historyIndex h - 1
             <? Z.of_nat (List.length (CLIHistory.history h)) - 1)
      with true by (symmetry; apply Z.ltb_lt; lia).
    f_equal. now destruct h.
Qed.

Lemma getNext_undoes_getPrevious_witness :
  CLINavigation.getNext
    (snd (CLINavigation.getPrevious Fixtures.small_history))
    (CLINavigation.Line "draft")
  = (CLINavigation.Line "draft", Fixtures.small_history).
Proof.
  apply (getNext_undoes_getPrevious Fixtures.small_history
           (CLINavigation.Line "draft")).
  vm_compute. split; [reflexivity | discriminate].
Defined.

(** X14.  The cursor never leaves the list: if it is between 0 and the
    length of the list, it still is after [add], [getPrevious] and
    [getNext]; [clear] and [load] always leave it there; and with the
    cursor in that range [getPrevious] never reads outside the list. *)
Theorem cursor_stays_in_range (h : CLIHistory.SQLiteCLIHistoryStorage)
    (now : Z) (command : string) (currentLine : CLINavigation.line)
    (rows : completion (list string)) :
  CLINavigation.cursor_in_range h ->
  CLINavigation.cursor_in_range (CLIHistory.add h now command)
  /\ CLINavigation.cursor_in_range (snd (CLINavigation.getPrevious h))
  /\ CLINavigation.cursor_in_range
       (snd (CLINavigation.getNext h currentLine))
  /\ CLINavigation.cursor_in_range (CLINavigation.clear h)
  /\ CLINavigation.cursor_in_range (CLINavigation.load h rows)
  /\ fst (CLINavigation.getPrevious h) <> CLINavigation.Undefined.
Proof.
  unfold CLINavigation.cursor_in_range. intros [Hlo Hhi].
  split; [|split; [|split; [|split; [|split]]]].
  - unfold CLIHistory.add.
    destruct (_ || _)%bool; [lia|]. destruct (_ && _)%bool; [lia|].
    destruct (_ >? _); cbn [CLIHistory.history CLIHistory.historyIndex]; lia.
  - unfold CLINavigation.getPrevious.
    destruct (Z.ltb_spec 0 (CLIHistory.historyIndex h)); cbn; lia.
  - unfold CLINavigation.getNext.
    destruct (Z.ltb_spec (CLIHistory.historyIndex h)
                (Z.of_nat (List.length (CLIHistory.history h)) - 1));
      [cbn; lia|].
    destruct (Z.eqb_spec (CLIHistory.historyIndex h)
                (Z.of_nat (List.length (CLIHistory.history h)) - 1));
      cbn; lia.
  - cbn. lia.
  - destruct rows; cbn; lia.
  - unfold CLINavigation.getPrevious.
    destruct (Z.ltb_spec 0 (CLIHistory.historyIndex h)); [|discriminate].
    cbn [fst CLINavigation.move CLIHistory.history CLIHistory.historyIndex].
    unfold CLINavigation.entry_at.
    replace (CLIHistory.historyIndex h - 1 <? 0) with false
      by (symmetry; apply Z.ltb_ge; lia).
    destruct (nth_error (CLIHistory.history h)
                (Z.to_nat (CLIHistory.historyIndex h - 1))) eqn:Hn;
      [discriminate|].
    apply nth_error_None in Hn. lia.
Qed.

Lemma cursor_stays_in_range_witness :
  CLINavigation.cursor_in_range
    (CLIHistory.add Fixtures.small_history 10 "a")
  /\ CLINavigation.cursor_in_range
       (snd (CLINavigation.getPrevious Fixtures.small_history))
  /\ CLINavigation.cursor_in_range
       (snd (CLINavigation.getNext Fixtures.small_history
               (CLINavigation.Line "draft")))
  /\ CLINavigation.cursor_in_range
       (CLINavigation.clear Fixtures.small_history)
  /\ CLINavigation.cursor_in_range
       (CLINavigation.load Fixtures.small_history (Return ["b"; "a"]))
  /\ fst (CLINavigation.getPrevious Fixtures.small_history)
     <> CLINavigation.Undefined.
Proof.
  apply (cursor_stays_in_range Fixtures.small_history 10 "a"
           (CLINavigation.Line "draft") (Return ["b"; "a"])).
  vm_compute. split; discriminate.
Defined.

(** ** Ancestry on well-formed chains *)

Lemma filter_all_length {A} (l : list A) :
  List.length (filter (fun _ => true) l) = List.length l.
Proof. induction l as [|x l IH]; [reflexivity|]. cbn. now f_equal. Qed.

Section WalkFacts.
Import ChatHistory ChatHistoryQueries.
Variable tbl : list ChatMessageRow.
Hypothesis unique_ids : NoDup (map id tbl).

Lemma recursive_select_cases (r : ChatMessageRow) :
  recursive_select tbl r = []
  \/ exists p, recursive_select tbl r = [p] /\ parent_of tbl r p.
Proof.
  unfold recursive_select.
  destruct (previousMessageId r) as [|z|t] eqn:Hprev.
  - left. apply filter_none. reflexivity.
  - destruct (find (fun cm => id cm =? z) tbl) as [p|] eqn:Hfind.
    + apply find_some in Hfind. destruct Hfind as [Hin Hid].
      apply Z.eqb_eq in Hid. subst z. right. exists p. split.
      * now apply select_by_key.
      * split; assumption.
    + left. apply filter_none. intros cm Hcm. cbn.
      apply (find_none _ _ Hfind cm Hcm).
  - left. apply filter_none. reflexivity.
Qed.

Lemma filter_length_lt {A} (f g : A -> bool) (l : list A) (p : A) :
  (forall x, f x = true -> g x = true) ->
  In p l -> f p = false -> g p = true ->
  (List.length (filter f l) < List.length (filter g l))%nat.
Proof.
  intros Hsub. induction l as [|x l IH]; intros Hin Hf Hg; [destruct Hin|].
  assert (Hle : forall m : list A,
             (List.length (filter f m) <= List.length (filter g m))%nat).
  { induction m as [|y m IHm]; [cbn; lia|]. cbn.
    destruct (f y) eqn:Hfy.
    - rewrite (Hsub y Hfy). cbn. lia.
    - destruct (g y); cbn; lia. }
  cbn. destruct Hin as [->|Hin].
  - rewrite Hf, Hg. cbn. specialize (Hle l). lia.
  - specialize (IH Hin Hf Hg). destruct (f x) eqn:Hfx.
    + rewrite (Hsub x Hfx). cbn. lia.
    + destruct (g x); cbn; lia.
Qed.

Hypothesis older : links_older tbl.

Lemma parent_has_fewer_older r p :
  In r tbl -> parent_of tbl r p ->
  (older_count tbl p < older_count tbl r)%nat.
Proof.
  intros Hr [Hp Hlink]. pose proof (older r (id p) Hr Hlink) as Hlt.
  unfold older_count. apply (filter_length_lt _ _ _ p).
  - intros x Hx. apply Z.ltb_lt in Hx. apply Z.ltb_lt. lia.
  - assumption.
  - apply Z.ltb_irrefl.
  - now apply Z.ltb_lt.
Qed.

Lemma older_count_below_size r :
  In r tbl -> (older_count tbl r < List.length tbl)%nat.
Proof.
  intros Hr. unfold older_count.
  rewrite <- (filter_all_length tbl).
  apply (filter_length_lt _ _ _ r).
  - reflexivity.
  - assumption.
  - apply Z.ltb_irrefl.
  - reflexivity.
Qed.

Lemma message_history_walks n :
  forall r fuel,
    In r tbl -> (older_count tbl r < n)%nat -> (n <= fuel)%nat ->
    exists l,
      message_history fuel tbl [r] = Some (r :: l) /\ walk tbl (r :: l).
Proof.
  induction n as [|n IH]; intros r fuel Hr Hcount Hfuel; [lia|].
  destruct fuel as [|fuel]; [lia|]. cbn [message_history app].
  destruct (recursive_select_cases r) as [Hnone | [p [Hone Hparent]]].
  - rewrite Hnone. exists []. split; [now destruct fuel|].
    now apply walk_end.
  - rewrite Hone. pose proof (parent_has_fewer_older r p Hr Hparent).
    destruct (IH p fuel (proj1 Hparent) ltac:(lia) ltac:(lia))
      as (l & Hrun & Hwalk).
    rewrite Hrun. exists (p :: l). split; [reflexivity|].
    now apply walk_step.
Qed.

End WalkFacts.

(** X15.  On a table with unique ids in which every link points at a
    smaller id, [getChatHistoryByMessageId] terminates for every id
    within as many steps as the table has rows: it returns the empty
    list when no turn carries the id, and otherwise the requested turn
    followed by its chain of predecessors up to a turn whose link names
    no stored turn. *)
Theorem ancestry_terminates_on_older_links `{Host} (db : Database)
    (messageId : string) (fuel : nat) :
  NoDup (map id (ChatMessage db)) ->
  ChatHistoryQueries.links_older (ChatMessage db) ->
  (List.length (ChatMessage db) <= fuel)%nat ->
  exists l,
    ChatHistory.getChatHistoryByMessageId fuel db messageId
    = Some (Return l)
    /\ ((l = []
         /\ forall r, In r (ChatMessage db) ->
                      Integer (id r) <> integer_affinity (Text messageId))
        \/ (ChatHistoryQueries.walk (ChatMessage db) l
            /\ exists r, hd_error l = Some r
                         /\ Integer (id r)
                            = integer_affinity (Text messageId))).
Proof.
  intros Hnd Hold Hfuel. unfold ChatHistory.getChatHistoryByMessageId.
  destruct (integer_affinity (Text messageId)) as [|z|t] eqn:Hparam.
  - exists []. unfold ChatHistory.initial_select.
    rewrite filter_none by reflexivity.
    split; [now destruct fuel|]. left. split; [reflexivity|discriminate].
  - destruct (find (fun cm => id cm =? z) (ChatMessage db)) as [r|] eqn:Hfind.
    + apply find_some in Hfind. destruct Hfind as [Hin Hid].
      apply Z.eqb_eq in Hid. subst z.
      unfold ChatHistory.initial_select. rewrite select_by_key by assumption.
      destruct (message_history_walks (ChatMessage db) Hnd Hold
                  (List.length (ChatMessage db)) r fuel Hin
                  (older_count_below_size _ r Hin) Hfuel)
        as (l & Hrun & Hwalk).
      exists (r :: l). rewrite Hrun. split; [reflexivity|]. right.
      split; [assumption|]. exists r. split; reflexivity.
    + exists []. unfold ChatHistory.initial_select.
      rewrite filter_none
        by (intros cm Hcm; cbn; apply (find_none _ _ Hfind cm Hcm)).
      split; [now destruct fuel|]. left. split; [reflexivity|].
      intros r Hr [= E]. pose proof (find_none _ _ Hfind r Hr) as Hne.
      cbn in Hne. apply Z.eqb_neq in Hne. contradiction.
  - exists []. unfold ChatHistory.initial_select.
    rewrite filter_none by reflexivity.
    split; [now destruct fuel|]. left. split; [reflexivity|discriminate].
Qed.

Lemma ancestry_terminates_on_older_links_witness :
  exists l,
    ChatHistory.getChatHistoryByMessageId (H := Model.host) 4
      Scenarios.thread_db "4"
    = Some (Return l)
    /\ ((l = []
         /\ forall r, In r (ChatMessage Scenarios.thread_db) ->
                      Integer (id r)
                      <> integer_affinity (H := Model.host) (Text "4"))
        \/ (ChatHistoryQueries.walk (ChatMessage Scenarios.thread_db) l
            /\ exists r, hd_error l = Some r
                         /\ Integer (id r)
                            = integer_affinity (H := Model.host) (Text "4"))).
Proof.
  apply (ancestry_terminates_on_older_links (H := Model.host)
           Scenarios.thread_db "4" 4%nat).
  - simpl. repeat (apply NoDup_cons; [simpl; intuition lia|]).
    apply NoDup_nil.
  - intros r p Hr Hp. simpl in Hr.
    destruct Hr as [<-|[<-|[<-|[<-|[]]]]]; simpl in Hp;
      try discriminate; injection Hp as <-; simpl; lia.
  - simpl. lia.
Defined.

(** ** Threads and recent messages *)

Lemma Permutation_filter {A} (f : A -> bool) (l l' : list A) :
  Permutation l l' -> Permutation (filter f l) (filter f l').
Proof.
  induction 1 as [|x l l' Hp IH|x y l|l l' l'' H1 IH1 H2 IH2]; cbn.
  - constructor.
  - destruct (f x); [now constructor | assumption].
  - destruct (f x), (f y); try reflexivity. apply perm_swap.
  - now transitivity (filter f l').
Qed.

Lemma StronglySorted_after {A} (R : A -> A -> Prop) (a rest : list A)
    (x : A) :
  StronglySorted R (a ++ x :: rest) -> Forall (R x) rest.
Proof.
  induction a as [|y a IH]; cbn; intros Hs;
    apply StronglySorted_inv in Hs; destruct Hs as [Hs Hx].
  - assumption.
  - now apply IH.
Qed.

(** A row among the first [n] of an ascending list has fewer than [n]
    rows with a strictly smaller key. *)
Lemma sorted_prefix_has_few_smaller {A} (key : A -> Z) (s : list A)
    (n : nat) (r : A) :
  StronglySorted (fun a b => key a <= key b) s ->
  In r (firstn n s) ->
  (List.length (filter (fun x => (key x <? key r)%Z) s) < n)%nat.
Proof.
  intros Hs Hin. apply in_split in Hin. destruct Hin as (a & b & Hsplit).
  assert (Hlen : (List.length a < n)%nat).
  { pose proof (firstn_le_length n s) as Hle.
    rewrite Hsplit, length_app in Hle. cbn in Hle. lia. }
  rewrite <- (firstn_skipn n s), Hsplit, <- app_assoc in Hs |- *.
  cbn [app] in Hs |- *.
  apply StronglySorted_after in Hs.
  rewrite filter_app. cbn [filter]. rewrite Z.ltb_irrefl.
  rewrite (filter_none _ (b ++ skipn n s)).
  - rewrite app_nil_r.
    pose proof (filter_length_le (fun x => key x <? key r) a). lia.
  - intros x Hx. apply Z.ltb_ge.
    rewrite Forall_forall in Hs. now apply Hs.
Qed.

(** X16.  [getThreadTree] returns exactly the turns of the session,
    each once, in ascending order of creation time. *)
Theorem getThreadTree_is_the_session_in_order `{Host} (db : Database)
    (sessionId : string) :
  Permutation (ChatHistoryQueries.getThreadTree db sessionId)
    (filter (ChatHistoryQueries.in_session sessionId) (ChatMessage db))
  /\ StronglySorted (fun a b => createdAt a <= createdAt b)
       (ChatHistoryQueries.getThreadTree db sessionId)
  /\ (forall r, In r (ChatHistoryQueries.getThreadTree db sessionId) <->
                In r (ChatMessage db)
                /\ ChatHistoryQueries.in_session sessionId r = true).
Proof.
  unfold ChatHistoryQueries.getThreadTree. split; [|split].
  - apply ascending_perm.
  - apply ascending_sorted.
  - intros r. rewrite <- filter_In. split; intros Hr.
    + now apply (Permutation_in _ (ascending_perm createdAt _)).
    + now apply (Permutation_in _
                   (Permutation_sym (ascending_perm createdAt _))).
Qed.

(** X17.  [getRecentMessages] returns the first [limit] turns of the
    thread in ascending order of creation time, the oldest ones: a turn
    of the session with at least [limit] strictly older turns in the
    session is never returned. *)
Theorem getRecentMessages_returns_the_oldest `{Host} (db : Database)
    (sessionId : string) (limit : Z) (r : ChatMessageRow) :
  0 <= limit ->
  ChatHistoryQueries.getRecentMessages db sessionId limit
  = firstn (Z.to_nat limit) (ChatHistoryQueries.getThreadTree db sessionId)
  /\ ((Z.to_nat limit
       <= List.length (ChatHistoryQueries.older_turns db sessionId r))%nat ->
      ~ In r (ChatHistoryQueries.getRecentMessages db sessionId limit)).
Proof.
  intros Hlimit.
  assert (Hfirst :
            ChatHistoryQueries.getRecentMessages db sessionId limit
            = firstn (Z.to_nat limit)
                (ChatHistoryQueries.getThreadTree db sessionId)).
  { unfold ChatHistoryQueries.getRecentMessages, OrderBy.limit.
    now replace (limit <? 0) with false by (symmetry; apply Z.ltb_ge; lia). }
  split; [assumption|].
  intros Hmany Hin. rewrite Hfirst in Hin.
  apply (sorted_prefix_has_few_smaller createdAt) in Hin;
    [|apply ascending_sorted].
  unfold ChatHistoryQueries.getThreadTree in Hin.
  rewrite (Permutation_length
             (Permutation_filter _ _ _ (ascending_perm createdAt _))) in Hin.
  unfold ChatHistoryQueries.older_turns in Hmany. lia.
Qed.

Lemma getRecentMessages_returns_the_oldest_witness :
  ChatHistoryQueries.getRecentMessages (H := Model.host)
    Scenarios.thread_db "1" 2
  = firstn (Z.to_nat 2)
      (ChatHistoryQueries.getThreadTree (H := Model.host)
         Scenarios.thread_db "1")
  /\ ((Z.to_nat 2
       <= List.length
            (ChatHistoryQueries.older_turns (H := Model.host)
               Scenarios.thread_db "1"
               (Scenarios.dated_turn 4 1 3000 (Integer 2))))%nat ->
      ~ In (Scenarios.dated_turn 4 1 3000 (Integer 2))
          (ChatHistoryQueries.getRecentMessages (H := Model.host)
             Scenarios.thread_db "1" 2)).
Proof.
  apply (getRecentMessages_returns_the_oldest (H := Model.host)
           Scenarios.thread_db "1" 2
           (Scenarios.dated_turn 4 1 3000 (Integer 2))).
  lia.
Defined.

(** Of the three turns of session 1, a limit of two returns the two
    oldest and leaves out the newest. *)
Example recent_messages_are_the_oldest :
  map id (ChatHistoryQueries.getRecentMessages (H := Model.host)
            Scenarios.thread_db "1" 2)
  = [1; 2].
Proof. reflexivity. Qed.

(** ** More on storing turns *)

Section StoreChatMore.
Import ChatMessageStorage.
Context `{Host}.

Lemma formatMessage_fields (msg : RawMessage) (m : StoredChatMessage) :
  formatMessage msg = Return m ->
  id m = toString (raw_id msg)
  /\ sessionId m = toString (raw_sessionId msg)
  /\ previousMessageId m
     = match raw_previousMessageId msg with
       | Null => None
       | Integer z => Some (toString z)
       | Text t => Some t
       end
  /\ JSON_parse (raw_request msg) = Some (request m).
Proof.
  unfold formatMessage, parse_or_throw.
  destruct (JSON_parse (raw_request msg)) as [req|]; [|discriminate].
  cbn [bind].
  destruct (match raw_response msg with
            | Some text =>
                if String.eqb text EmptyString then Return JNull
                else match JSON_parse text with
                     | Some v => Return v
                     | None => Throw SyntaxError
                     end
            | None => Return JNull
            end) as [resp|e]; [|discriminate].
  cbn [bind]. intros [= <-]. repeat split.
Qed.

Lemma insert_message_row session previous req resp db row db2 :
  insert_message session previous req resp db = (Return row, db2) ->
  session = Some (Sqlite.sessionId row)
  /\ Sqlite.previousMessageId row = integer_affinity previous
  /\ Sqlite.id row
     = next_rowid (seq_ChatMessage db) (map Sqlite.id (ChatMessage db))
  /\ ChatMessage db2 = ChatMessage db ++ [row]
  /\ ChatSession db2 = ChatSession db.
Proof.
  unfold insert_message. destruct session as [sid|]; [|discriminate].
  destruct (foreign_keys db && negb _)%bool; [discriminate|].
  intros [= <- <-]. repeat split.
Qed.

Lemma session_for_keeps_messages db currentMessage request r db1 :
  session_for db currentMessage request = (r, db1) ->
  ChatMessage db1 = ChatMessage db
  /\ seq_ChatMessage db1 = seq_ChatMessage db.
Proof.
  assert (Hnew : forall r' db',
             new_session db request = (r', db') ->
             ChatMessage db' = ChatMessage db
             /\ seq_ChatMessage db' = seq_ChatMessage db).
  { unfold new_session. intros r' db'.
    destruct (session_title request); cbn; intros [= <- <-]; now split. }
  unfold session_for. destruct currentMessage as [m|]; [|apply Hnew].
  destruct (has_session (Some m)); [|apply Hnew].
  intros [= <- <-]. now split.
Qed.

(** What a successful [storeChat] did. *)
Lemma storeChat_returns db currentMessage request response m db' :
  storeChat db currentMessage request response = (Return m, db') ->
  exists session db1 row,
    session_for db currentMessage request = (Return (Some session), db1)
    /\ Sqlite.sessionId row = session
    /\ Sqlite.previousMessageId row
       = integer_affinity match currentMessage with
                          | Some c => Text (id c)
                          | None => Null
                          end
    /\ Sqlite.id row
       = next_rowid (seq_ChatMessage db) (map Sqlite.id (ChatMessage db))
    /\ ChatMessage db' = ChatMessage db ++ [row]
    /\ ChatSession db' = ChatSession db1
    /\ formatMessage (returning_columns row) = Return m.
Proof.
  unfold storeChat.
  destruct (session_for db currentMessage request) as [[session|e] db1]
    eqn:Hsession; [|discriminate].
  destruct (insert_message session _ _ _ db1) as [[row|e] db2] eqn:Hins;
    [|discriminate].
  intros [= Hfmt <-].
  apply insert_message_row in Hins.
  destruct Hins as (Hsid & Hprev & Hid & Htable & Hsessions).
  apply session_for_keeps_messages in Hsession as Hkeep.
  destruct Hkeep as [Hmsgs Hseq].
  exists (Sqlite.sessionId row), db1, row.
  subst session. rewrite Hmsgs, Hseq in Hid. rewrite Hmsgs in Htable.
  repeat split; first [assumption | reflexivity].
Qed.

End StoreChatMore.

Lemma NoDup_snoc_fresh (l : list Z) (x : Z) :
  NoDup l -> (forall y, In y l -> y < x) -> NoDup (l ++ [x]).
Proof.
  induction 1 as [|y l Hy Hnd IH]; intros Hlt; cbn.
  - repeat constructor. easy.
  - constructor.
    + intros Hin. apply in_app_or in Hin. destruct Hin as [Hin|[E|[]]].
      * contradiction.
      * pose proof (Hlt y (or_introl eq_refl)). lia.
    + apply IH. intros z Hz. apply Hlt. now right.
Qed.

(** X18.  [storeChat] keeps the message table well formed: when the
    current message is absent or names a stored turn, a successful call
    appends exactly one row, leaves the ids unique and leaves every link
    pointing at a smaller id (so no cycle can arise). *)
Theorem storeChat_keeps_links_older `{Host} (db db' : Database)
    (currentMessage : option ChatMessageStorage.StoredChatMessage)
    (request response : JSON) (m : ChatMessageStorage.StoredChatMessage) :
  NoDup (map id (ChatMessage db)) ->
  ChatHistoryQueries.links_older (ChatMessage db) ->
  (forall c p, currentMessage = Some c ->
               text_to_integer (ChatMessageStorage.id c) = Some p ->
               exists r, In r (ChatMessage db) /\ id r = p) ->
  ChatMessageStorage.storeChat db currentMessage request response
  = (Return m, db') ->
  (exists row, ChatMessage db' = ChatMessage db ++ [row])
  /\ NoDup (map id (ChatMessage db'))
  /\ ChatHistoryQueries.links_older (ChatMessage db').
Proof.
  intros Hnd Hold Hcur Hstore.
  apply storeChat_returns in Hstore.
  destruct Hstore as (session & db1 & row & _ & _ & Hprev & Hid & Htable & _).
  assert (Hfresh : forall r, In r (ChatMessage db) -> id r < id row)
    by (intros r Hr; rewrite Hid; apply next_rowid_fresh; now apply in_map).
  split; [now exists row|]. rewrite Htable. split.
  - rewrite map_app. apply NoDup_snoc_fresh; [assumption|].
    intros y Hy. apply in_map_iff in Hy. destruct Hy as [r [<- Hr]].
    now apply Hfresh.
  - intros r p Hr Hlink. apply in_app_or in Hr. destruct Hr as [Hr|[<-|[]]].
    + now apply (Hold r p).
    + rewrite Hprev in Hlink. destruct currentMessage as [c|];
        [|discriminate]. cbn in Hlink.
      destruct (text_to_integer (ChatMessageStorage.id c)) as [z|] eqn:Hz;
        [|discriminate].
      injection Hlink as ->.
      destruct (Hcur c p eq_refl Hz) as [r [Hr <-]]. now apply Hfresh.
Qed.

Lemma after_first_turn_unique_ids :
  NoDup (map id (ChatMessage Scenarios.after_first_turn)).
Proof. vm_compute. repeat constructor. easy. Qed.

Lemma after_first_turn_links_older :
  ChatHistoryQueries.links_older (ChatMessage Scenarios.after_first_turn).
Proof.
  intros r p Hr Hp. vm_compute in Hr. destruct Hr as [<-|[]]. discriminate.
Qed.

Lemma storeChat_keeps_links_older_witness :
  (exists row,
     ChatMessage Scenarios.after_reply
     = ChatMessage Scenarios.after_first_turn ++ [row])
  /\ NoDup (map id (ChatMessage Scenarios.after_reply))
  /\ ChatHistoryQueries.links_older (ChatMessage Scenarios.after_reply).
Proof.
  refine (storeChat_keeps_links_older (H := Model.host)
            Scenarios.after_first_turn Scenarios.after_reply
            (Some Scenarios.first_turn) Scenarios.reply_request
            Fixtures.hello_response Scenarios.reply_turn _ _ _ _).
  - exact after_first_turn_unique_ids.
  - exact after_first_turn_links_older.
  - intros c p [= <-] Hp. vm_compute in Hp. injection Hp as <-.
    eexists. split; [left; reflexivity | reflexivity].
  - reflexivity.
Defined.

Section AncestryFrame.
Import ChatHistory.
Variable tbl : list ChatMessageRow.
Variable row : ChatMessageRow.
Hypothesis not_a_parent :
  forall q, In q tbl -> previousMessageId q <> Integer (id row).

Lemma recursive_select_frame q :
  In q tbl -> recursive_select (tbl ++ [row]) q = recursive_select tbl q.
Proof.
  intros Hq. unfold recursive_select. rewrite filter_app. cbn [filter].
  destruct (previousMessageId q) as [|z|t] eqn:Hprev; cbn;
    try apply app_nil_r.
  destruct (Z.eqb_spec (id row) z) as [E|_]; [|apply app_nil_r].
  exfalso. apply (not_a_parent q Hq). now rewrite Hprev, E.
Qed.

(** A row that no stored row names as its predecessor does not change
    the ancestry of the stored rows. *)
Lemma message_history_frame fuel :
  forall queue,
    (forall q, In q queue -> In q tbl) ->
    message_history fuel (tbl ++ [row]) queue
    = message_history fuel tbl queue.
Proof.
  induction fuel as [|fuel IH]; intros queue Hqueue.
  - now destruct queue.
  - destruct queue as [|mh rest]; [reflexivity|]. cbn [message_history].
    rewrite recursive_select_frame by (apply Hqueue; now left).
    rewrite IH; [reflexivity|].
    intros q Hq. apply in_app_or in Hq. destruct Hq as [Hq|Hq].
    + apply Hqueue. now right.
    + unfold recursive_select in Hq. now apply filter_In in Hq.
Qed.

End AncestryFrame.

(** X19.  Ancestry grows by one turn per reply: after a reply is stored
    to a stored turn [p], the history of the reply is the reply's row
    followed by the history that [p] had before. *)
Theorem ancestry_of_reply_extends_parent `{Host} (db db' : Database)
    (c m : ChatMessageStorage.StoredChatMessage) (request response : JSON)
    (p : ChatMessageRow) :
  NoDup (map id (ChatMessage db)) ->
  ChatHistoryQueries.links_older (ChatMessage db) ->
  In p (ChatMessage db) ->
  text_to_integer (ChatMessageStorage.id c) = Some (id p) ->
  (forall z, text_to_integer (toString z) = Some z) ->
  ChatMessageStorage.storeChat db (Some c) request response
  = (Return m, db') ->
  exists row,
    ChatMessage db' = ChatMessage db ++ [row]
    /\ previousMessageId row = Integer (id p)
    /\ forall fuel l,
         ChatHistory.getChatHistoryByMessageId fuel db
           (ChatMessageStorage.id c) = Some (Return l) ->
         ChatHistory.getChatHistoryByMessageId (S fuel) db'
           (ChatMessageStorage.id m) = Some (Return (row :: l)).
Proof.
  intros Hnd Hold Hp Hc Htext Hstore.
  apply storeChat_returns in Hstore.
  destruct Hstore
    as (session & db1 & row & _ & _ & Hprev & Hid & Htable & _ & Hfmt).
  apply formatMessage_fields in Hfmt. destruct Hfmt as (Hmid & _).
  cbn in Hprev. rewrite Hc in Hprev.
  assert (Hfresh : forall r, In r (ChatMessage db) -> id r < id row)
    by (intros r Hr; rewrite Hid; apply next_rowid_fresh; now apply in_map).
  exists row. split; [assumption|]. split; [assumption|].
  intros fuel l Hrun.
  unfold ChatHistory.getChatHistoryByMessageId in *.
  cbn [integer_affinity] in *. rewrite Hc in Hrun.
  rewrite Hmid. cbn [ChatMessageStorage.returning_columns
                     ChatMessageStorage.raw_id].
  rewrite Htext, Htable.
  unfold ChatHistory.initial_select in *.
  rewrite select_by_key in Hrun by assumption.
  assert (Hselect :
            filter (fun cm => eq_true (Integer (id cm)) (Integer (id row)))
              (ChatMessage db ++ [row]) = [row]).
  { rewrite filter_app. cbn. rewrite Z.eqb_refl.
    rewrite filter_none; [reflexivity|].
    intros r Hr. apply Z.eqb_neq. specialize (Hfresh r Hr). lia. }
  rewrite Hselect. cbn [ChatHistory.message_history app].
  assert (Hparent : ChatHistory.recursive_select (ChatMessage db ++ [row]) row
                    = [p]).
  { unfold ChatHistory.recursive_select. rewrite Hprev, filter_app.
    rewrite select_by_key by assumption. cbn.
    replace (id row =? id p) with false; [reflexivity|].
    symmetry. apply Z.eqb_neq. specialize (Hfresh p Hp). lia. }
  rewrite Hparent.
  rewrite message_history_frame.
  - destruct (ChatHistory.message_history fuel (ChatMessage db) [p])
      as [l'|]; [|discriminate].
    cbn in Hrun |- *. now injection Hrun as ->.
  - intros q Hq Hlink. pose proof (Hold q _ Hq Hlink).
    specialize (Hfresh q Hq). lia.
  - intros q [<-|[]]. assumption.
Qed.

Lemma ancestry_of_reply_extends_parent_witness :
  exists row,
    ChatMessage Scenarios.after_reply
    = ChatMessage Scenarios.after_first_turn ++ [row]
    /\ previousMessageId row = Integer 1
    /\ forall fuel l,
         ChatHistory.getChatHistoryByMessageId (H := Model.host) fuel
           Scenarios.after_first_turn "1" = Some (Return l) ->
         ChatHistory.getChatHistoryByMessageId (H := Model.host) (S fuel)
           Scenarios.after_reply "2" = Some (Return (row :: l)).
Proof.
  refine (ancestry_of_reply_extends_parent (H := Model.host)
            Scenarios.after_first_turn Scenarios.after_reply
            Scenarios.first_turn Scenarios.reply_turn
            Scenarios.reply_request Fixtures.hello_response
            {| id := 1; previousMessageId := Null; sessionId := 2;
               request := JSON_stringify (Host := Model.host)
                            Fixtures.hello_request;
               response := Some (JSON_stringify (Host := Model.host)
                                   Fixtures.hello_response);
               createdAt := 1000; updatedAt := 1000 |}
            _ _ _ _ _ _).
  - exact after_first_turn_unique_ids.
  - exact after_first_turn_links_older.
  - vm_compute. left. reflexivity.
  - reflexivity.
  - exact model_reads_decimal.
  - reflexivity.
Defined.

(** The history of the reply lists the reply and then the first turn. *)
Example reply_history :
  option_map (fun c => match c with
                       | Return l => map id l
                       | Throw _ => []
                       end)
    (ChatHistory.getChatHistoryByMessageId (H := Model.host) 2
       Scenarios.after_reply "2")
  = Some [2; 1].
Proof. reflexivity. Qed.

(** X20.  [retrieveMessageById] on an id that no stored turn carries
    throws the error "Message with id <id> not found" (where
    [getChatHistoryByMessageId] returns an empty list). *)
Theorem retrieveMessageById_unknown_id_throws `{Host} (db : Database)
    (messageId : string) :
  (forall r, In r (ChatMessage db) ->
             Integer (id r) <> integer_affinity (Text messageId)) ->
  ChatMessageStorage.retrieveMessageById db messageId
  = Throw (Error ("Message with id " ++ messageId ++ " not found")%string).
Proof.
  intros Hno. unfold ChatMessageStorage.retrieveMessageById.
  rewrite find_never; [reflexivity|].
  intros r Hr. specialize (Hno r Hr).
  destruct (integer_affinity (Text messageId)) as [|z|t]; cbn; trivial.
  apply Z.eqb_neq. congruence.
Qed.

Lemma retrieveMessageById_unknown_id_throws_witness :
  ChatMessageStorage.retrieveMessageById (H := Model.host)
    Scenarios.after_first_turn "9"
  = Throw (Error "Message with id 9 not found").
Proof.
  apply (retrieveMessageById_unknown_id_throws (H := Model.host)
           Scenarios.after_first_turn "9").
  intros r Hr. vm_compute in Hr. destruct Hr as [<-|[]]. discriminate.
Defined.

(** X21.  Continuing a conversation: when the current message carries a
    session id and [storeChat] returns, no session is created, one turn
    is appended, the returned message is filed under the number that
    [parseInt] reads from the current session id, and its predecessor is
    the current message's id as SQLite stores it. *)
Theorem storeChat_continues_the_session `{Host} (db db' : Database)
    (c m : ChatMessageStorage.StoredChatMessage) (request response : JSON) :
  ChatMessageStorage.has_session (Some c) = true ->
  ChatMessageStorage.storeChat db (Some c) request response
  = (Return m, db') ->
  ChatSession db' = ChatSession db
  /\ (exists row, ChatMessage db' = ChatMessage db ++ [row])
  /\ (exists session,
        parseInt (ChatMessageStorage.sessionId c) = Some session
        /\ ChatMessageStorage.sessionId m = toString session)
  /\ ChatMessageStorage.previousMessageId m
     = match integer_affinity (Text (ChatMessageStorage.id c)) with
       | Null => None
       | Integer z => Some (toString z)
       | Text t => Some t
       end.
Proof.
  intros Hhas Hstore. apply storeChat_returns in Hstore.
  destruct Hstore
    as (session & db1 & row & Hsession & Hsid & Hprev & _ & Htable
        & Hsessions & Hfmt).
  unfold ChatMessageStorage.session_for in Hsession.
  rewrite Hhas in Hsession. injection Hsession as Hparse <-.
  apply formatMessage_fields in Hfmt.
  destruct Hfmt as (_ & Hmsid & Hmprev & _).
  cbn [ChatMessageStorage.returning_columns ChatMessageStorage.raw_sessionId
       ChatMessageStorage.raw_previousMessageId] in *.
  split; [assumption|]. split; [now exists row|]. split.
  - exists session. split; [assumption|]. now rewrite Hmsid, Hsid.
  - now rewrite Hmprev, Hprev.
Qed.

Lemma storeChat_continues_the_session_witness :
  ChatSession Scenarios.after_reply = ChatSession Scenarios.after_first_turn
  /\ (exists row,
        ChatMessage Scenarios.after_reply
        = ChatMessage Scenarios.after_first_turn ++ [row])
  /\ (exists session,
        parseInt "2" = Some session /\ "2" = toString session)
  /\ Some "1"
     = match integer_affinity (H := Model.host) (Text "1") with
       | Null => None
       | Integer z => Some (toString z)
       | Text t => Some t
       end.
Proof.
  apply (storeChat_continues_the_session (H := Model.host)
           Scenarios.after_first_turn Scenarios.after_reply
           Scenarios.first_turn Scenarios.reply_turn
           Scenarios.reply_request Fixtures.hello_response);
    reflexivity.
Defined.

(** X22.  A first turn is always stored: with no current message, a
    request whose title can be derived and a request and response that
    JSON carries faithfully, [storeChat] returns, with or without
    foreign-key enforcement; the returned message has no predecessor and
    carries the request and response, and one session and one turn have
    been added. *)
Theorem storeChat_first_turn_succeeds `{Host} (db : Database)
    (request response : JSON) (title : string) :
  ChatMessageStorage.session_title request = Return title ->
  JSON_parse (JSON_stringify request) = Some request ->
  JSON_parse (JSON_stringify response) = Some response ->
  JSON_parse EmptyString = None ->
  exists m db' session row,
    ChatMessageStorage.storeChat db None request response = (Return m, db')
    /\ ChatMessageStorage.previousMessageId m = None
    /\ ChatMessageStorage.request m = request
    /\ ChatMessageStorage.response m = response
    /\ ChatSession db' = ChatSession db ++ [session]
    /\ cs_title session = Text title
    /\ ChatMessage db' = ChatMessage db ++ [row]
    /\ sessionId row = cs_id session.
Proof.
  intros Htitle Hreq Hresp Hempty.
  unfold ChatMessageStorage.storeChat, ChatMessageStorage.session_for,
    ChatMessageStorage.new_session.
  rewrite Htitle. cbn [ChatMessageStorage.insert_session].
  unfold ChatMessageStorage.insert_message.
  cbn [integer_affinity foreign_keys ChatSession ChatMessage seq_ChatMessage
       unixepoch cs_id].
  match goal with
  | |- context [ChatMessageStorage.references_hold ?d ?i ?s Null] =>
      assert (Hrefs : ChatMessageStorage.references_hold d i s Null = true)
  end.
  { unfold ChatMessageStorage.references_hold. cbn [ChatSession].
    rewrite andb_true_r, existsb_app. cbn. now rewrite Z.eqb_refl, orb_true_r. }
  rewrite Hrefs. cbn [negb]. rewrite andb_false_r.
  match goal with
  | |- context [ChatMessageStorage.formatMessage ?msg] =>
      destruct (formatMessage_of_stored msg request response
                  Hempty Hreq Hresp eq_refl eq_refl)
        as (m & Hfmt & Hmreq & Hmresp & _);
      pose proof (formatMessage_fields msg m Hfmt) as (_ & _ & Hmprev & _)
  end.
  rewrite Hfmt. do 4 eexists.
  split; [reflexivity|]. repeat split; try assumption.
Qed.

Lemma storeChat_first_turn_succeeds_witness :
  exists m db' session row,
    ChatMessageStorage.storeChat (H := Model.host)
      (Fixtures.database_of []) None
      Fixtures.hello_request Fixtures.hello_response
    = (Return m, db')
    /\ ChatMessageStorage.previousMessageId m = None
    /\ ChatMessageStorage.request m = Fixtures.hello_request
    /\ ChatMessageStorage.response m = Fixtures.hello_response
    /\ ChatSession db' = ChatSession (Fixtures.database_of []) ++ [session]
    /\ cs_title session = Text "Hello world"
    /\ ChatMessage db' = ChatMessage (Fixtures.database_of []) ++ [row]
    /\ sessionId row = cs_id session.
Proof.
  apply (storeChat_first_turn_succeeds (H := Model.host)
           (Fixtures.database_of []) Fixtures.hello_request
           Fixtures.hello_response "Hello world");
    reflexivity.
Defined.

(** ** Searching *)

Section LikeFacts.
Import ChatSearch.

Lemma like_percent_nil (p : list ascii) :
  like ("%"%char :: p) [] = like p [].
Proof. cbn. apply orb_false_r. Qed.

Lemma like_percent_cons (p : list ascii) (c : ascii) (t : list ascii) :
  like ("%"%char :: p) (c :: t)
  = (like p (c :: t) || like ("%"%char :: p) t)%bool.
Proof. reflexivity. Qed.

Lemma like_percent (p : list ascii) (text : list ascii) :
  like ("%"%char :: p) text = true
  <-> exists before rest, text = before ++ rest /\ like p rest = true.
Proof.
  induction text as [|c t IH].
  - rewrite like_percent_nil. split.
    + intros Hl. now exists [], [].
    + intros (before & rest & Hsplit & Hl).
      symmetry in Hsplit. apply app_eq_nil in Hsplit.
      destruct Hsplit as [_ ->]. assumption.
  - rewrite like_percent_cons, orb_true_iff, IH. split.
    + intros [Hl | (before & rest & -> & Hl)].
      * now exists [], (c :: t).
      * now exists (c :: before), rest.
    + intros (before & rest & Hsplit & Hl).
      destruct before as [|b before]; cbn in Hsplit.
      * left. now subst rest.
      * right. injection Hsplit as _ ->. now exists before, rest.
Qed.

Lemma like_trailing_percent (text : list ascii) :
  like ["%"%char] text = true.
Proof.
  apply like_percent. exists text, []. now rewrite app_nil_r.
Qed.

Lemma like_literal_prefix (keyword : list ascii) :
  literal keyword ->
  forall text,
    like (keyword ++ ["%"%char]) text = true
    <-> exists found rest,
          text = found ++ rest
          /\ Forall2 (fun k c => same_letter k c = true) keyword found.
Proof.
  induction keyword as [|k keyword IH]; intros Hlit text.
  - cbn [app]. split.
    + intros _. exists [], text. split; [reflexivity | constructor].
    + intros _. apply like_trailing_percent.
  - destruct (Hlit k (or_introl eq_refl)) as [Hpercent Hunder].
    assert (Hrest : literal keyword)
      by (intros x Hx; apply Hlit; now right).
    cbn [app like]. rewrite Hpercent, Hunder. cbn [orb].
    destruct text as [|c text].
    + split; [discriminate|].
      intros (found & rest & Hsplit & Hall).
      inversion Hall; subst. discriminate.
    + rewrite andb_true_iff, (IH Hrest). split.
      * intros [Hsame (found & rest & -> & Hall)].
        exists (c :: found), rest. split; [reflexivity|].
        now constructor.
      * intros (found & rest & Hsplit & Hall).
        inversion Hall as [|? d ? found' Hsame Hall']; subst.
        injection Hsplit as -> ->. split; [assumption|].
        now exists found', rest.
Qed.

(** For a keyword without wild cards, [LIKE '%keyword%'] is the search
    for an occurrence of the keyword, ASCII case aside. *)
Lemma like_is_substring_search (keyword : string) (text : list ascii) :
  literal (list_ascii_of_string keyword) ->
  like (pattern_of keyword) text = true
  <-> occurs_in (list_ascii_of_string keyword) text.
Proof.
  intros Hlit. unfold pattern_of, occurs_in. rewrite like_percent. split.
  - intros (before & rest & -> & Hl).
    apply (like_literal_prefix _ Hlit) in Hl.
    destruct Hl as (found & after & -> & Hall).
    now exists before, found, after.
  - intros (before & found & after & -> & Hall).
    exists before, (found ++ after). split; [reflexivity|].
    apply (like_literal_prefix _ Hlit). now exists found, after.
Qed.

Lemma like_only_percent (p : list ascii) :
  p <> [] -> Forall (fun c => c = "%"%char) p ->
  forall text, like p text = true.
Proof.
  induction p as [|c p IH]; intros Hne Hall text; [contradiction|].
  inversion Hall as [|? ? -> Hall']; subst.
  apply like_percent. destruct p as [|d p].
  - exists text, []. now rewrite app_nil_r.
  - exists [], text. split; [reflexivity|]. now apply IH.
Qed.

End LikeFacts.

Lemma limit_length {A} (n : Z) (l : list A) :
  0 <= n -> Z.of_nat (List.length (OrderBy.limit n l)) <= n.
Proof.
  intros Hn. unfold OrderBy.limit.
  replace (n <? 0) with false by (symmetry; apply Z.ltb_ge; lia).
  pose proof (firstn_le_length (Z.to_nat n) l). lia.
Qed.

Lemma limit_incl {A} (n : Z) (l : list A) (x : A) :
  In x (OrderBy.limit n l) -> In x l.
Proof.
  unfold OrderBy.limit. destruct (n <? 0); [trivial|].
  intros Hx. rewrite <- (firstn_skipn (Z.to_nat n) l).
  apply in_or_app. now left.
Qed.

Lemma limit_all {A} (n : Z) (l : list A) :
  Z.of_nat (List.length l) <= n -> OrderBy.limit n l = l.
Proof.
  intros Hlen. unfold OrderBy.limit. destruct (n <? 0); [reflexivity|].
  apply firstn_all2. lia.
Qed.

(** X23.  For a non-empty keyword without [%] and [_], [searchMessages]
    returns at most 20 stored turns, newest first, in each of which the
    keyword occurs, ASCII case aside, in the stored request text or in
    the stored response text; when at most 20 turns contain the keyword
    in either text, every one of them is returned. *)
Theorem searchMessages_finds_occurrences (db : Database)
    (keyword : string) :
  keyword <> EmptyString ->
  ChatSearch.literal (list_ascii_of_string keyword) ->
  (List.length (ChatSearch.searchMessages db keyword) <= 20)%nat
  /\ StronglySorted (fun a b => createdAt b <= createdAt a)
       (ChatSearch.searchMessages db keyword)
  /\ (forall r,
        In r (ChatSearch.searchMessages db keyword) ->
        In r (ChatMessage db)
        /\ (ChatSearch.occurs_in (list_ascii_of_string keyword)
              (list_ascii_of_string (request r))
            \/ exists text,
                 response r = Some text
                 /\ ChatSearch.occurs_in (list_ascii_of_string keyword)
                      (list_ascii_of_string text)))
  /\ ((List.length (filter (ChatSearch.matches keyword) (ChatMessage db))
       <= 20)%nat ->
      forall r,
        In r (ChatMessage db) ->
        (ChatSearch.occurs_in (list_ascii_of_string keyword)
           (list_ascii_of_string (request r))
         \/ exists text,
              response r = Some text
              /\ ChatSearch.occurs_in (list_ascii_of_string keyword)
                   (list_ascii_of_string text)) ->
        In r (ChatSearch.searchMessages db keyword)).
Proof.
  intros Hne Hlit. unfold ChatSearch.searchMessages.
  replace (String.eqb keyword EmptyString) with false
    by (symmetry; now apply String.eqb_neq).
  split; [|split; [|split]].
  - pose proof (limit_length 20
                  (OrderBy.descending createdAt
                     (filter (ChatSearch.matches keyword) (ChatMessage db)))
                  ltac:(lia)).
    lia.
  - unfold OrderBy.limit. cbn [Z.ltb Z.compare].
    pose proof (descending_sorted createdAt
                  (filter (ChatSearch.matches keyword) (ChatMessage db)))
      as Hs.
    rewrite <- (firstn_skipn (Z.to_nat 20)) in Hs.
    revert Hs. generalize (firstn (Z.to_nat 20)
                             (OrderBy.descending createdAt
                                (filter (ChatSearch.matches keyword)
                                   (ChatMessage db)))).
    intros pre. induction pre as [|x pre IH]; intros Hs; [constructor|].
    cbn [app] in Hs. apply StronglySorted_inv in Hs. destruct Hs as [Hs Hx].
    constructor; [now apply IH|].
    apply Forall_app in Hx. tauto.
  - intros r Hr. apply limit_incl in Hr.
    apply (Permutation_in _ (descending_perm createdAt _)) in Hr.
    apply filter_In in Hr. destruct Hr as [Hin Hmatch].
    split; [assumption|]. unfold ChatSearch.matches in Hmatch.
    apply orb_true_iff in Hmatch. destruct Hmatch as [Hreq|Hresp].
    + left. now apply like_is_substring_search.
    + right. destruct (response r) as [text|]; [|discriminate].
      exists text. split; [reflexivity|].
      now apply like_is_substring_search.
  - intros Hfew r Hin Hocc. rewrite limit_all.
    + apply (Permutation_in _ (Permutation_sym (descending_perm createdAt _))).
      apply filter_In. split; [assumption|]. unfold ChatSearch.matches.
      apply orb_true_iff. destruct Hocc as [Hreq|(text & Hresp & Htext)].
      * left. now apply like_is_substring_search.
      * right. rewrite Hresp. now apply like_is_substring_search.
    + rewrite (Permutation_length (descending_perm createdAt _)). lia.
Qed.

Lemma searchMessages_finds_occurrences_witness :
  (List.length (ChatSearch.searchMessages Scenarios.after_reply "THEN")
   <= 20)%nat.
Proof.
  refine (proj1 (searchMessages_finds_occurrences
                   Scenarios.after_reply "THEN" _ _)).
  - discriminate.
  - intros k Hk. cbn in Hk.
    destruct Hk as [<-|[<-|[<-|[<-|[]]]]]; split; reflexivity.
Defined.

(** The search ignores ASCII case and looks into the stored JSON text:
    "THEN" finds the reply whose content is "And then?". *)
Example search_ignores_case :
  map id (ChatSearch.searchMessages Scenarios.after_reply "THEN") = [2].
Proof. reflexivity. Qed.

(** X24.  The keyword is not escaped: an empty keyword finds nothing,
    while a keyword made of [%] characters only matches every stored
    turn, so that the search returns the 20 newest turns whatever they
    contain. *)
Theorem searchMessages_wildcard_keyword (db : Database) (keyword : string) :
  ChatSearch.searchMessages db EmptyString = []
  /\ (keyword <> EmptyString ->
      Forall (fun c => c = "%"%char) (list_ascii_of_string keyword) ->
      ChatSearch.searchMessages db keyword
      = OrderBy.limit 20 (OrderBy.descending createdAt (ChatMessage db))).
Proof.
  split; [reflexivity|]. intros Hne Hall. unfold ChatSearch.searchMessages.
  replace (String.eqb keyword EmptyString) with false
    by (symmetry; now apply String.eqb_neq).
  do 2 f_equal. rewrite (filter_ext_in _ (fun _ => true)).
  - induction (ChatMessage db) as [|x l IH]; cbn; congruence.
  - intros r _. unfold ChatSearch.matches. apply orb_true_iff. left.
    apply like_only_percent.
    + unfold ChatSearch.pattern_of. discriminate.
    + unfold ChatSearch.pattern_of. constructor; [reflexivity|].
      apply Forall_app. split; [assumption | now constructor].
Qed.

(* ================================================================== *)
(** ** The command cache and the CommandHistory table *)
(* ================================================================== *)

Section TableFacts.
Import CLIHistory CommandHistoryTable.

Lemma insert_descending_last {A} (key : A -> Z) (x : A) (s : list A) :
  Forall (fun y => key x < key y) s ->
  OrderBy.insert_descending key x s = s ++ [x].
Proof.
  induction 1 as [|y s Hy _ IH]; [reflexivity|].
  cbn [OrderBy.insert_descending app].
  destruct (Z.leb_spec (key y) (key x)); [lia|]. now rewrite IH.
Qed.

(** Over rows whose keys increase strictly, [ORDER BY key DESC] is the
    reversed scan. *)
Lemma descending_of_increasing {A} (key : A -> Z) (l : list A) :
  StronglySorted (fun a b => key a < key b) l ->
  OrderBy.descending key l = rev l.
Proof.
  induction 1 as [|x l _ IH Hx]; [reflexivity|].
  cbn [OrderBy.descending fold_right rev].
  change (fold_right (OrderBy.insert_descending key) [] l)
    with (OrderBy.descending key l).
  rewrite IH. apply insert_descending_last. now apply Forall_rev.
Qed.

Lemma StronglySorted_skipn {A} (R : A -> A -> Prop) (k : nat) :
  forall l, StronglySorted R l -> StronglySorted R (skipn k l).
Proof.
  induction k as [|k IH]; intros l Hs; [assumption|].
  destruct l as [|x l]; [assumption|]. cbn [skipn].
  apply IH. now apply StronglySorted_inv in Hs.
Qed.

Lemma StronglySorted_snoc {A} (R : A -> A -> Prop) (l : list A) (x : A) :
  StronglySorted R l -> Forall (fun y => R y x) l ->
  StronglySorted R (l ++ [x]).
Proof.
  induction 1 as [|y l Hs IH Hy]; intros Hall; cbn [app].
  - repeat constructor.
  - apply Forall_cons_iff in Hall. destruct Hall as [Hyx Hall].
    constructor; [now apply IH|].
    apply Forall_app. split; [assumption | now constructor].
Qed.

Lemma NoDup_skipn {A} (k : nat) (l : list A) :
  NoDup l -> NoDup (skipn k l).
Proof.
  intros Hnd. rewrite <- (firstn_skipn k l) in Hnd.
  now apply NoDup_app_remove_l in Hnd.
Qed.

Lemma In_skipn {A} (k : nat) (l : list A) (x : A) :
  In x (skipn k l) -> In x l.
Proof.
  intros Hin. rewrite <- (firstn_skipn k l). apply in_or_app. now right.
Qed.

Lemma lastn_map {A B} (f : A -> B) (n : nat) (l : list A) :
  lastn n (map f l) = map f (lastn n l).
Proof. unfold lastn. now rewrite length_map, skipn_map. Qed.

Lemma existsb_eqb_In (x : Z) (l : list Z) :
  existsb (Z.eqb x) l = true <-> In x l.
Proof.
  rewrite existsb_exists. split.
  - intros (y & Hin & Heq). apply Z.eqb_eq in Heq. now subst.
  - intros Hin. exists x. split; [assumption | apply Z.eqb_refl].
Qed.

(** With unique rowids, [WHERE id NOT IN (the ids of a suffix)] deletes
    exactly the rows before the suffix. *)
Lemma delete_keeps_suffix (older newest : list CommandHistoryRow) :
  NoDup (map id (older ++ newest)) ->
  filter (fun r => existsb (Z.eqb (id r)) (map id (rev newest)))
    (older ++ newest)
  = newest.
Proof.
  induction older as [|x older IH]; intros Hnd; cbn [app].
  - clear Hnd. rewrite (filter_ext_in _ (fun _ => true)).
    + induction newest as [|y l IH]; cbn; congruence.
    + intros r Hr. apply existsb_eqb_In. apply in_map.
      now apply in_rev in Hr.
  - cbn [app map] in Hnd. inversion Hnd as [|? ? Hfresh Hnd']; subst.
    cbn [filter].
    destruct (existsb (Z.eqb (id x)) (map id (rev newest))) eqn:E.
    + apply existsb_eqb_In in E. exfalso. apply Hfresh.
      rewrite map_app. apply in_or_app. right.
      rewrite map_rev in E. now apply in_rev in E.
    + now apply IH.
Qed.

Lemma delete_keeps_newest (l : list CommandHistoryRow) (k : nat) :
  NoDup (map id l) ->
  filter (fun r => existsb (Z.eqb (id r)) (map id (rev (skipn k l)))) l
  = skipn k l.
Proof.
  intros Hnd.
  pose proof (delete_keeps_suffix (firstn k l) (skipn k l)) as H.
  rewrite firstn_skipn in H. exact (H Hnd).
Qed.

(** On a table whose rowid order is its timestamp order, the eviction
    statement keeps the last [keep] rows. *)
Lemma execute_delete (t : Table) (keep : Z) :
  0 <= keep -> well_dated t ->
  rows (execute t (DeleteAllButNewest keep))
  = lastn (Z.to_nat keep) (rows t).
Proof.
  intros HL [Hs Hnd]. cbn [execute rows].
  rewrite (descending_of_increasing timestamp _ Hs).
  unfold OrderBy.limit.
  replace (keep <? 0) with false by (symmetry; apply Z.ltb_ge; lia).
  rewrite firstn_rev. unfold lastn.
  now apply delete_keeps_newest.
Qed.

Lemma well_dated_lastn (t : Table) (n : nat) (s : Z) :
  well_dated t -> well_dated {| rows := lastn n (rows t); seq := s |}.
Proof.
  intros [Hs Hnd]. unfold well_dated, lastn. cbn [rows]. split.
  - now apply StronglySorted_skipn.
  - rewrite <- skipn_map. now apply NoDup_skipn.
Qed.

Lemma execute_insert (t : Table) (c : string) (now : Z) :
  well_dated t ->
  (forall r, In r (rows t) -> timestamp r < now) ->
  well_dated (execute t (InsertCommand c now))
  /\ map command (rows (execute t (InsertCommand c now)))
     = map command (rows t) ++ [c]
  /\ forall r, In r (rows (execute t (InsertCommand c now))) ->
               timestamp r <= now.
Proof.
  intros [Hs Hnd] Hlater. cbn [execute rows]. split; [split|split].
  - cbn [rows]. apply StronglySorted_snoc; [assumption|].
    apply Forall_forall. intros r Hr. cbn [timestamp]. now apply Hlater.
  - cbn [rows]. rewrite map_app. cbn [map id].
    apply NoDup_snoc_fresh; [assumption|].
    intros y Hy. now apply next_rowid_fresh.
  - rewrite map_app. reflexivity.
  - intros r Hr. apply in_app_or in Hr. destruct Hr as [Hr|[<-|[]]].
    + specialize (Hlater r Hr). lia.
    + cbn [timestamp]. lia.
Qed.

Lemma add_keeps_config (h : SQLiteCLIHistoryStorage) (now : Z) (c : string) :
  config (add h now c) = config h.
Proof.
  unfold add.
  destruct (is_blank c || blacklisted (config h) c)%bool; [reflexivity|].
  destruct ((0 <? Z.of_nat (List.length (history h)))
            && is_last (history h) c)%bool; [reflexivity|].
  now destruct (Z.of_nat (List.length (history h ++ [c]))
                >? effective_limit (config h)).
Qed.

Lemma add_length_bound (h : SQLiteCLIHistoryStorage) (now : Z) (c : string) :
  0 < limit (config h) ->
  Z.of_nat (List.length (history h)) <= limit (config h) ->
  Z.of_nat (List.length (history (add h now c))) <= limit (config h).
Proof.
  intros HL Hlen. unfold add.
  destruct (is_blank c || blacklisted (config h) c)%bool; [assumption|].
  destruct ((0 <? Z.of_nat (List.length (history h)))
            && is_last (history h) c)%bool; [assumption|].
  assert (HeL : effective_limit (config h) = limit (config h)).
  { unfold effective_limit.
    destruct (Z.eqb_spec (limit (config h)) 0); [lia | reflexivity]. }
  rewrite HeL.
  destruct (Z.gtb_spec (Z.of_nat (List.length (history h ++ [c])))
              (limit (config h))) as [Hgt|Hle]; cbn [history].
  - rewrite slice_keeps_newest by lia.
    unfold lastn. rewrite length_skipn. lia.
  - assumption.
Qed.

(** One call of [add] keeps the cache and the table in step. *)
Lemma add_coherent (t0 : Table) (h : SQLiteCLIHistoryStorage) (now : Z)
    (c : string) :
  0 < limit (config h) ->
  mirrors h (durable t0 h) -> well_dated (durable t0 h) ->
  (forall r, In r (rows (durable t0 h)) -> timestamp r < now) ->
  mirrors (add h now c) (durable t0 (add h now c))
  /\ well_dated (durable t0 (add h now c))
  /\ forall r, In r (rows (durable t0 (add h now c))) -> timestamp r <= now.
Proof.
  intros HL Hm Hwd Hlater.
  assert (Hsame : mirrors h (durable t0 h) /\ well_dated (durable t0 h)
                  /\ forall r, In r (rows (durable t0 h)) ->
                               timestamp r <= now).
  { repeat split; try assumption; try apply Hwd.
    intros r Hr. specialize (Hlater r Hr). lia. }
  unfold add.
  destruct (is_blank c || blacklisted (config h) c)%bool; [exact Hsame|].
  destruct ((0 <? Z.of_nat (List.length (history h)))
            && is_last (history h) c)%bool; [exact Hsame|].
  clear Hsame.
  assert (HeL : effective_limit (config h) = limit (config h)).
  { unfold effective_limit.
    destruct (Z.eqb_spec (limit (config h)) 0); [lia | reflexivity]. }
  rewrite HeL.
  destruct (execute_insert (durable t0 h) c now Hwd Hlater)
    as (Hwd1 & Hcmd1 & Hle1).
  destruct (Z.gtb_spec (Z.of_nat (List.length (history h ++ [c])))
              (limit (config h))) as [Hgt|Hle];
    unfold mirrors, durable, run in *; cbn [history issued];
    rewrite ?fold_left_app; cbn [fold_left].
  - set (t1 := execute (fold_left execute (issued h) t0)
                 (InsertCommand c now)) in *.
    assert (Hrows : rows (execute t1 (DeleteAllButNewest (limit (config h))))
                    = lastn (Z.to_nat (limit (config h))) (rows t1))
      by (apply execute_delete; [lia | assumption]).
    split; [|split].
    + rewrite Hrows, <- lastn_map, Hcmd1, <- Hm.
      apply slice_keeps_newest; lia.
    + pose proof (well_dated_lastn t1 (Z.to_nat (limit (config h)))
                    (seq t1) Hwd1) as Hwd2.
      unfold well_dated in *. rewrite Hrows. exact Hwd2.
    + intros r Hr. rewrite Hrows in Hr. apply In_skipn in Hr.
      now apply Hle1.
  - split; [|split].
    + rewrite Hcmd1. now rewrite Hm.
    + exact Hwd1.
    + exact Hle1.
Qed.

(** A run of [add] calls at increasing clock values keeps the cache and
    the table in step, and the cache within its limit. *)
Lemma add_all_coherent (t0 : Table) (calls : list (Z * string)) :
  forall h,
    0 < limit (config h) ->
    Z.of_nat (List.length (history h)) <= limit (config h) ->
    mirrors h (durable t0 h) -> well_dated (durable t0 h) ->
    later_than (durable t0 h) calls ->
    mirrors (add_all h calls) (durable t0 (add_all h calls))
    /\ well_dated (durable t0 (add_all h calls))
    /\ config (add_all h calls) = config h
    /\ Z.of_nat (List.length (history (add_all h calls)))
       <= limit (config h).
Proof.
  induction calls as [|[now c] calls IH];
    intros h HL Hlen Hm Hwd [Hclock Hlater].
  - unfold add_all. cbn [fold_left].
    split; [assumption|]. split; [assumption|].
    split; [reflexivity | assumption].
  - change (add_all h ((now, c) :: calls))
      with (add_all (add h now c) calls).
    cbn [map fst] in Hclock, Hlater.
    apply StronglySorted_inv in Hclock. destruct Hclock as [Hclock Hnow].
    destruct (add_coherent t0 h now c HL Hm Hwd) as (Hm1 & Hwd1 & Hle1).
    { intros r Hr. apply (Hlater r now Hr). now left. }
    pose proof (add_keeps_config h now c) as Hcfg.
    pose proof (add_length_bound h now c HL Hlen) as Hlen1.
    destruct (IH (add h now c)) as (Hm2 & Hwd2 & Hcfg2 & Hlen2);
      rewrite ?Hcfg; try assumption.
    + split; [assumption|]. intros r later Hr Hin.
      specialize (Hle1 r Hr).
      rewrite Forall_forall in Hnow. specialize (Hnow later Hin). lia.
    + rewrite Hcfg in Hcfg2, Hlen2.
      split; [assumption|]. split; [assumption|]. now split.
Qed.

End TableFacts.

(** X25.  The cache and the CommandHistory table stay in step.  Take a
    store with a positive limit whose cache holds at most [limit]
    commands and lists the commands of the table oldest first, over a
    table whose rowid order is its timestamp order.  After a run of [add]
    calls whose clock values increase strictly and lie after every stored
    timestamp, the cache again lists the commands of the table, and
    [load] on that table rebuilds the very list [getAll] returns. *)
Theorem cache_follows_the_table (t0 : CommandHistoryTable.Table)
    (h : CLIHistory.SQLiteCLIHistoryStorage) (calls : list (Z * string)) :
  0 < CLIHistory.limit (CLIHistory.config h) ->
  Z.of_nat (List.length (CLIHistory.history h))
  <= CLIHistory.limit (CLIHistory.config h) ->
  CommandHistoryTable.mirrors h (CommandHistoryTable.durable t0 h) ->
  CommandHistoryTable.well_dated (CommandHistoryTable.durable t0 h) ->
  CommandHistoryTable.later_than (CommandHistoryTable.durable t0 h) calls ->
  CommandHistoryTable.mirrors (CLIHistory.add_all h calls)
    (CommandHistoryTable.durable t0 (CLIHistory.add_all h calls))
  /\ CLIHistory.getAll
       (CommandHistoryTable.reload (CLIHistory.add_all h calls)
          (CommandHistoryTable.durable t0 (CLIHistory.add_all h calls)))
     = CLIHistory.getAll (CLIHistory.add_all h calls).
Proof.
  intros HL Hlen Hm Hwd Hlater.
  destruct (add_all_coherent t0 calls h HL Hlen Hm Hwd Hlater)
    as (Hm' & [Hs' Hnd'] & Hcfg & Hlen').
  split; [assumption|].
  unfold CLIHistory.getAll, CommandHistoryTable.reload, CLINavigation.load,
    CommandHistoryTable.select_newest.
  cbn [CLIHistory.history].
  unfold CommandHistoryTable.mirrors in Hm'.
  rewrite (descending_of_increasing CommandHistoryTable.timestamp _ Hs').
  rewrite limit_all.
  - rewrite map_rev, rev_involutive. now symmetry.
  - rewrite Hcfg, length_rev.
    rewrite Hm', length_map in Hlen'. exact Hlen'.
Qed.

Lemma cache_follows_the_table_witness :
  CLIHistory.getAll
    (CommandHistoryTable.reload
       (CLIHistory.add_all Fixtures.small_history
          Scenarios.five_dated_commands)
       (CommandHistoryTable.durable Scenarios.small_table
          (CLIHistory.add_all Fixtures.small_history
             Scenarios.five_dated_commands)))
  = CLIHistory.getAll
      (CLIHistory.add_all Fixtures.small_history
         Scenarios.five_dated_commands).
Proof.
  refine (proj2 (cache_follows_the_table Scenarios.small_table
                   Fixtures.small_history Scenarios.five_dated_commands
                   _ _ _ _ _)).
  - reflexivity.
  - vm_compute. discriminate.
  - reflexivity.
  - split; cbn.
    + repeat constructor.
    + repeat (apply NoDup_cons; [simpl; intuition lia|]). apply NoDup_nil.
  - split; cbn.
    + repeat constructor.
    + intros r now [<-|[<-|[]]] Hnow;
        cbn; intuition lia.
Defined.

(** The same run on a table whose clock went backwards: the eviction
    keeps the rows with the newest timestamps, the cache the commands
    typed last, and the two part. *)
Example clock_going_back_parts_cache_and_table :
  let h := CLIHistory.add_all Fixtures.small_history
             [(10, "a"); (3, "b")] in
  CLIHistory.getAll h = ["pwd"; "a"; "b"]
  /\ map CommandHistoryTable.command
       (CommandHistoryTable.rows
          (CommandHistoryTable.durable Scenarios.small_table h))
     = ["ls"; "pwd"; "a"].
Proof. split; reflexivity. Qed.

(** X26.  [clear] puts the cache and the table back in step whatever
    state they were in: after [clear], and then any run of [add] calls
    whose clock values increase strictly, on a store with a positive
    limit, the cache lists the commands of the table and [load] rebuilds
    the list [getAll] returns. *)
Theorem clear_resets_cache_and_table (t0 : CommandHistoryTable.Table)
    (h : CLIHistory.SQLiteCLIHistoryStorage) (calls : list (Z * string)) :
  0 < CLIHistory.limit (CLIHistory.config h) ->
  StronglySorted Z.lt (map fst calls) ->
  CommandHistoryTable.rows
    (CommandHistoryTable.durable t0 (CLINavigation.clear h)) = []
  /\ CLIHistory.getAll (CLINavigation.clear h) = []
  /\ CommandHistoryTable.mirrors
       (CLIHistory.add_all (CLINavigation.clear h) calls)
       (CommandHistoryTable.durable t0
          (CLIHistory.add_all (CLINavigation.clear h) calls))
  /\ CLIHistory.getAll
       (CommandHistoryTable.reload
          (CLIHistory.add_all (CLINavigation.clear h) calls)
          (CommandHistoryTable.durable t0
             (CLIHistory.add_all (CLINavigation.clear h) calls)))
     = CLIHistory.getAll (CLIHistory.add_all (CLINavigation.clear h) calls).
Proof.
  intros HL Hclock.
  assert (Hrows : CommandHistoryTable.rows
                    (CommandHistoryTable.durable t0 (CLINavigation.clear h))
                  = []).
  { unfold CommandHistoryTable.durable, CommandHistoryTable.run,
      CLINavigation.clear.
    cbn [CLIHistory.issued]. now rewrite fold_left_app. }
  split; [assumption|]. split; [reflexivity|].
  destruct (add_all_coherent t0 calls (CLINavigation.clear h))
    as (Hm & [Hs Hnd] & Hcfg & Hlen).
  - exact HL.
  - cbn. lia.
  - unfold CommandHistoryTable.mirrors. now rewrite Hrows.
  - unfold CommandHistoryTable.well_dated. rewrite Hrows.
    split; constructor.
  - split; [assumption|]. rewrite Hrows. intros r now [].
  - split; [assumption|].
    unfold CLIHistory.getAll, CommandHistoryTable.reload, CLINavigation.load,
      CommandHistoryTable.select_newest.
    cbn [CLIHistory.history].
    unfold CommandHistoryTable.mirrors in Hm.
    rewrite (descending_of_increasing CommandHistoryTable.timestamp _ Hs).
    rewrite limit_all.
    + rewrite map_rev, rev_involutive. now symmetry.
    + rewrite Hcfg, length_rev.
      rewrite Hm, length_map in Hlen. exact Hlen.
Qed.

Lemma clear_resets_cache_and_table_witness :
  CommandHistoryTable.mirrors
    (CLIHistory.add_all (CLINavigation.clear Fixtures.small_history)
       Scenarios.five_dated_commands)
    (CommandHistoryTable.durable Scenarios.small_table
       (CLIHistory.add_all (CLINavigation.clear Fixtures.small_history)
          Scenarios.five_dated_commands)).
Proof.
  refine (proj1 (proj2 (proj2 (clear_resets_cache_and_table
                                 Scenarios.small_table
                                 Fixtures.small_history
                                 Scenarios.five_dated_commands _ _)))).
  - reflexivity.
  - cbn. repeat constructor.
Defined.

(** X27.  A session that [storeChat] opens when the clock is past the
    creation time of every stored session heads the list of
    [listSessions], before the sessions listed until then; it carries the
    title derived from the request, and the returned message is filed
    under its id. *)
Theorem new_session_is_listed_first `{Host} (db db' : Database)
    (request response : JSON) (m : ChatMessageStorage.StoredChatMessage) :
  (forall s, In s (ChatSession db) -> cs_createdAt s < unixepoch db * 1000) ->
  ChatMessageStorage.storeChat db None request response = (Return m, db') ->
  exists session title,
    ChatHistoryQueries.listSessions db'
    = session :: ChatHistoryQueries.listSessions db
    /\ ChatMessageStorage.session_title request = Return title
    /\ cs_title session = Text title
    /\ ChatMessageStorage.sessionId m = toString (cs_id session).
Proof.
  intros Hclock Hstore. apply storeChat_returns in Hstore.
  destruct Hstore
    as (session & db1 & row & Hsession & Hsid & _ & _ & _ & Hsessions & Hfmt).
  unfold ChatMessageStorage.session_for, ChatMessageStorage.new_session
    in Hsession.
  destruct (ChatMessageStorage.session_title request) as [title|e];
    [|discriminate].
  cbn in Hsession. injection Hsession as Hid <-.
  cbn [ChatSession] in Hsessions.
  apply formatMessage_fields in Hfmt. destruct Hfmt as (_ & Hmsid & _).
  cbn [ChatMessageStorage.returning_columns ChatMessageStorage.raw_sessionId]
    in Hmsid.
  eexists. exists title. split; [|split; [|split]].
  - unfold ChatHistoryQueries.listSessions. rewrite Hsessions.
    apply descending_newest_last. intros s Hs. cbn. now apply Hclock.
  - reflexivity.
  - reflexivity.
  - cbn [cs_id]. now rewrite Hmsid, Hsid, <- Hid.
Qed.

Lemma new_session_is_listed_first_witness :
  exists session title,
    ChatHistoryQueries.listSessions
      (snd (ChatMessageStorage.storeChat (H := Model.host)
              Scenarios.one_old_session None
              Fixtures.hello_request Fixtures.hello_response))
    = session :: ChatHistoryQueries.listSessions Scenarios.one_old_session
    /\ ChatMessageStorage.session_title Fixtures.hello_request = Return title
    /\ cs_title session = Text title
    /\ ChatMessageStorage.sessionId
         {| ChatMessageStorage.id := "1";
            ChatMessageStorage.sessionId := "2";
            ChatMessageStorage.request := Fixtures.hello_request;
            ChatMessageStorage.response := Fixtures.hello_response;
            ChatMessageStorage.previousMessageId := None;
            ChatMessageStorage.createdAt := None;
            ChatMessageStorage.updatedAt := None |}
       = toString (cs_id session).
Proof.
  apply (new_session_is_listed_first (H := Model.host)
           Scenarios.one_old_session
           (snd (ChatMessageStorage.storeChat (H := Model.host)
                   Scenarios.one_old_session None
                   Fixtures.hello_request Fixtures.hello_response))
           Fixtures.hello_request Fixtures.hello_response).
  - simpl. intros s [<-|[]]. simpl. lia.
  - reflexivity.
Defined.
